(** * Totescan label printer: a shallow embedding of [print_labels.py]

    The development follows the program top-down the way the script is laid
    out: Python string primitives, the record model ([ToteItem], [Tote]),
    CSV ingestion ([sniff_headers], [read_csvs]), the text layout helpers
    ([wrap_text], [ellipsize]), thumbnail resolution ([fetch_thumbnail]),
    the label renderer ([draw_label]) and the document assembler
    ([generate_pdf], [main]).

    Conventions.
    - A Python [str] is a list of Unicode code points ([pystr]); [len] and
      slicing are by code point, as in Python 3.
    - A Python [dict] keeps insertion order; the tote table is an
      association list with unique keys ([Dict.t]), the header index (whose
      order is never observed) is a [gmap].
    - Floats that hold page coordinates are modelled by exact rationals.
    - Code that may raise returns a [result]; code that also changes the
      thumbnail cache lives in the monad [io].
    - What the script gets from outside itself is a parameter, one type
      class for each service: the builtin [int] ([PyInt]), the CSV files
      ([CsvSource]), the font metrics ([FontMetrics]), the image and HTTP
      libraries ([World]), the drawing surface ([Surface]) and the file
      system of the output ([Files]). *)

From Stdlib Require Import QArith Qminmax Ascii.
From Stdlib Require DecimalString.
From Equations Require Import Equations.
From stdpp Require Import base decidable option list numbers strings gmap sorting.

Local Open Scope Z_scope.
Local Open Scope list_scope.

(** ** Python strings *)

Module PyStr.

Definition pystr := list N.

(** String literals of the source that are plain ASCII. *)
Definition lit (s : string) : pystr :=
  map N_of_ascii (String.list_ascii_of_string s).

(** [str.isspace] for one code point (CPython's [_PyUnicode_IsWhitespace]). *)
Definition isspace (c : N) : bool :=
  ((9 <=? c) && (c <=? 13) || (28 <=? c) && (c <=? 32)
   || (c =? 133) || (c =? 160) || (c =? 5760)
   || (8192 <=? c) && (c <=? 8202)
   || (c =? 8232) || (c =? 8233) || (c =? 8239) || (c =? 8287)
   || (c =? 12288))%N.

Fixpoint drop_while (p : N -> bool) (s : pystr) : pystr :=
  match s with
  | [] => []
  | c :: r => if p c then drop_while p r else s
  end.

Definition strip_by (p : N -> bool) (s : pystr) : pystr :=
  rev (drop_while p (rev (drop_while p s))).

(** [s.strip()] *)
Definition strip (s : pystr) : pystr := strip_by isspace s.

(** [s.strip(chars)] *)
Definition strip_chars (chars : pystr) (s : pystr) : pystr :=
  strip_by (fun c => bool_decide (c ∈ chars)) s.

(** [s.split()]: maximal runs of non-whitespace code points. [cur] is the
    run being read. *)
Fixpoint split_from (cur : pystr) (s : pystr) : list pystr :=
  match s with
  | [] => match cur with [] => [] | _ => [cur] end
  | c :: r =>
      if isspace c
      then match cur with [] => split_from [] r | _ => cur :: split_from [] r end
      else split_from (cur ++ [c]) r
  end.

Definition split (s : pystr) : list pystr := split_from [] s.

(** [sep.join(ws)] *)
Fixpoint join (sep : pystr) (ws : list pystr) : pystr :=
  match ws with
  | [] => []
  | [w] => w
  | w :: r => w ++ sep ++ join sep r
  end.

(** [s.startswith(p)] *)
Fixpoint startswith (s p : pystr) : bool :=
  match p, s with
  | [], _ => true
  | _ :: _, [] => false
  | a :: p', b :: s' => (a =? b)%N && startswith s' p'
  end.

(** [p in s] for strings: substring test. *)
Fixpoint contains (s p : pystr) : bool :=
  startswith s p || match s with [] => false | _ :: r => contains r p end.

(** Truth value of a string and of an optional string. *)
Definition truthy (s : pystr) : bool :=
  match s with [] => false | _ => true end.

Definition truthy_opt (o : option pystr) : bool :=
  match o with Some s => truthy s | None => false end.

(** [a or b] on strings. *)
Definition str_or (a b : pystr) : pystr := if truthy a then a else b.

(** [x or None] *)
Definition or_None (s : pystr) : option pystr :=
  if truthy s then Some s else None.

(** Comparison of strings, as used by [sorted]: lexicographic by code
    point, a proper prefix first. *)
Fixpoint str_le (a b : pystr) : bool :=
  match a, b with
  | [], _ => true
  | _ :: _, [] => false
  | x :: a', y :: b' => (x <? y)%N || ((x =? y)%N && str_le a' b')
  end.

Definition space : pystr := [32%N].

End PyStr.
Export PyStr.

(** ** Exceptions *)

Inductive exn := IndexError | OSError.

Inductive result (A : Type) :=
  | Ok (a : A)
  | Raise (e : exn).
Arguments Ok {A} a.
Arguments Raise {A} e.

#[global] Instance result_ret : MRet result := fun A a => Ok a.
#[global] Instance result_bind : MBind result := fun A B f m =>
  match m with Ok a => f a | Raise e => Raise e end.
#[global] Instance result_fmap : FMap result := fun A B f m =>
  match m with Ok a => Ok (f a) | Raise e => Raise e end.

(** [seq[i]] for a non-negative index. *)
Definition subscript {A} (seq : list A) (i : nat) : result A :=
  match seq !! i with Some x => Ok x | None => Raise IndexError end.

(** [foldl] for a loop body that may raise. *)
Fixpoint foldlM {A B} (f : A -> B -> result A) (a : A) (l : list B) : result A :=
  match l with
  | [] => Ok a
  | b :: r => a' ← f a b; foldlM f a' r
  end.

(** ** What the script takes from its runtime *)

(** The builtin [int] applied to a string; [None] when it raises. *)
Class PyInt := py_int : pystr -> option Z.

(** [csv.reader(open(path))] read to the end: the rows of the file. *)
Class CsvSource := open_csv : pystr -> result (list (list pystr)).

(** ** Record model *)

Module ToteItem.
Record t := mk {
  title : pystr;
  description : pystr;
  quantity : Z;
  image_url : option pystr
}.
End ToteItem.

Module Tote.
Record t := mk {
  tote_id : pystr;
  title : pystr;
  location : pystr;
  qrdata : option pystr;
  items : list ToteItem.t;
  parent_id : option pystr;
  children : list pystr
}.

(** [Tote(tote_id=tote_id)] *)
Definition new (tote_id : pystr) : t := mk tote_id [] [] None [] None [].

Definition set_title (v : pystr) (x : t) : t :=
  mk (tote_id x) v (location x) (qrdata x) (items x) (parent_id x) (children x).
Definition set_location (v : pystr) (x : t) : t :=
  mk (tote_id x) (title x) v (qrdata x) (items x) (parent_id x) (children x).
Definition set_qrdata (v : option pystr) (x : t) : t :=
  mk (tote_id x) (title x) (location x) v (items x) (parent_id x) (children x).
Definition set_items (v : list ToteItem.t) (x : t) : t :=
  mk (tote_id x) (title x) (location x) (qrdata x) v (parent_id x) (children x).
Definition set_parent_id (v : option pystr) (x : t) : t :=
  mk (tote_id x) (title x) (location x) (qrdata x) (items x) v (children x).
Definition set_children (v : list pystr) (x : t) : t :=
  mk (tote_id x) (title x) (location x) (qrdata x) (items x) (parent_id x) v.

(** The quantity [add_item] stores; [quantity] is the text of the cell,
    as [read_csvs] passes it, or [None]. *)
Definition parse_quantity `{PyInt} (quantity : option pystr) : Z :=
  match quantity with
  | None => 1
  | Some q =>
      if bool_decide (q = [] ∨ q = space) then 1
      else match py_int q with Some n => n | None => 1 end
  end.

Definition add_item `{PyInt} (self : t) (title description : pystr)
    (quantity : option pystr) (image_url : option pystr) : t :=
  if negb (truthy title) && negb (truthy description) then self
  else
    let qty := parse_quantity quantity in
    set_items
      (items self ++
         [ToteItem.mk (strip title) (strip (str_or description []))
            qty (if truthy_opt image_url then image_url else None)])
      self.
End Tote.

(** ** Insertion-ordered dictionaries keyed by strings *)

Module Dict.
Section Dict.
Context {V : Type}.

Definition t := list (pystr * V).

Definition keys (d : t) : list pystr := d.*1.
Definition values (d : t) : list V := d.*2.

(** [d.get(k)] *)
Fixpoint get (k : pystr) (d : t) : option V :=
  match d with
  | [] => None
  | (k', v) :: r => if decide (k = k') then Some v else get k r
  end.

(** [d[k] = v]: an existing key keeps its position, a new one goes last. *)
Fixpoint set (k : pystr) (v : V) (d : t) : t :=
  match d with
  | [] => [(k, v)]
  | (k', v') :: r =>
      if decide (k = k') then (k, v) :: r else (k', v') :: set k v r
  end.
End Dict.
Arguments t : clear implicits.
End Dict.

(** ** CSV ingestion *)

Definition PRIMARY_HEADER : list pystr :=
  map lit
    ["PROFILE"; "TOTE ID"; "PARENT TOTE ID"; "QRDATA"; "TOTE LOCATION";
     "TOTE TITLE"; "ITEM TITLE"; "ITEM DESCRIPTION"; "UPC"; "ITEM QUANTITY";
     "IMAGES"; "CREATED"; "UPDATED"; "ITEM URL"]%string.

Definition EMPTY_HEADER : list pystr :=
  map lit ["PROFILE"; "TOTE ID"; "TOTE LOCATION"; "TOTE TITLE"]%string.

(** The values of [current_mode]; [sniff_headers] returns three of them. *)
Inductive mode := UNKNOWN | PRIMARY | EMPTY | EMPTY_PENDING_HEADER.

#[global] Instance mode_eq_dec : EqDecision mode.
Proof. solve_decision. Defined.

(** [all(h in xs for h in hs)] *)
Definition all_in (hs xs : list pystr) : bool :=
  forallb (fun h => bool_decide (h ∈ xs)) hs.

Definition sniff_headers (line : list pystr) : mode :=
  let norm := map (fun c => strip_chars [65279%N] (strip c)) line in
  if (length PRIMARY_HEADER <=? length norm)%nat
     && all_in (map lit ["TOTE ID"; "QRDATA"; "ITEM TITLE"; "ITEM QUANTITY"])
          norm
  then PRIMARY
  else if (length norm =? length EMPTY_HEADER)%nat && all_in EMPTY_HEADER norm
  then EMPTY
  else UNKNOWN.

(** [row.index(name)]: position of the first occurrence. *)
Fixpoint index (name : pystr) (row : list pystr) : option nat :=
  match row with
  | [] => None
  | c :: r => if decide (name = c) then Some 0%nat else S <$> index name r
  end.

(** [{name: row.index(name) for name in row}] *)
Definition make_header_index (row : list pystr) : gmap pystr nat :=
  foldl (fun m name =>
           match index name row with
           | Some i => <[name := i]> m
           | None => m
           end) ∅ row.

Section Ingestion.
Context `{PyInt} `{CsvSource}.

Definition get_or_create (tote_id : pystr) (totes : Dict.t Tote.t)
    : Dict.t Tote.t :=
  match Dict.get tote_id totes with
  | Some _ => totes
  | None => Dict.set tote_id (Tote.new tote_id) totes
  end.

(** [row[header_index.get(name, 0)].strip()] *)
Definition field (header_index : gmap pystr nat) (name : string)
    (row : list pystr) : result pystr :=
  c ← subscript row (default 0%nat (header_index !! lit name)); Ok (strip c).

(** [row[header_index.get("TOTE ID")]] under its [try]: [None] stands
    for the [except] branch ([row[None]] or an index out of range). *)
Definition tote_id_of (header_index : gmap pystr nat) (row : list pystr)
    : option pystr :=
  i ← header_index !! lit "TOTE ID"; row !! i.

(** The parent id read under its [try]; the empty string when the column
    is not in the header or the row is too short. *)
Definition parent_of (header_index : gmap pystr nat) (row : list pystr)
    : pystr :=
  match header_index !! lit "PARENT TOTE ID" with
  | Some i => match row !! i with Some c => strip c | None => [] end
  | None => []
  end.

(** The first whitespace-separated part of [IMAGES] beginning with http. *)
Definition first_image_of (images_field : pystr) : option pystr :=
  if truthy images_field
  then head (filter (fun p => startswith p (lit "http") = true)
               (split images_field))
  else None.

(** The assignments a PRIMARY data row makes to its tote. *)
Definition primary_fields (header_index : gmap pystr nat) (row : list pystr)
    (tote : Tote.t) : result Tote.t :=
  title ← (if truthy (Tote.title tote) then Ok (Tote.title tote)
           else field header_index "TOTE TITLE" row);
  let tote := Tote.set_title title tote in
  location ← (if truthy (Tote.location tote) then Ok (Tote.location tote)
              else field header_index "TOTE LOCATION" row);
  let tote := Tote.set_location location tote in
  qrdata ← (if truthy_opt (Tote.qrdata tote) then Ok (Tote.qrdata tote)
            else or_None <$> field header_index "QRDATA" row);
  let tote := Tote.set_qrdata qrdata tote in
  let p_id := parent_of header_index row in
  let tote := if truthy p_id then Tote.set_parent_id (Some p_id) tote
              else tote in
  item_title ← field header_index "ITEM TITLE" row;
  item_desc ← field header_index "ITEM DESCRIPTION" row;
  qty_raw ← field header_index "ITEM QUANTITY" row;
  images_field ← field header_index "IMAGES" row;
  let first_image := first_image_of images_field in
  Ok (Tote.add_item tote item_title item_desc (Some qty_raw) first_image).

(** A data row in the PRIMARY state. *)
Definition primary_row (header_index : gmap pystr nat) (row : list pystr)
    (totes : Dict.t Tote.t) : result (Dict.t Tote.t) :=
  match tote_id_of header_index row with
  | None => Ok totes
  | Some tote_id =>
      let totes := get_or_create tote_id totes in
      let tote := default (Tote.new tote_id) (Dict.get tote_id totes) in
      tote ← primary_fields header_index row tote;
      Ok (Dict.set tote_id tote totes)
  end.

(** The assignments an EMPTY data row makes to an existing tote. *)
Definition empty_fields (header_index : gmap pystr nat) (row : list pystr)
    (tote : Tote.t) : result Tote.t :=
  title ← (if truthy (Tote.title tote) then Ok (Tote.title tote)
           else field header_index "TOTE TITLE" row);
  let tote := Tote.set_title title tote in
  location ← (if truthy (Tote.location tote) then Ok (Tote.location tote)
              else field header_index "TOTE LOCATION" row);
  Ok (Tote.set_location location tote).

(** A data row in the EMPTY state. *)
Definition empty_row (header_index : gmap pystr nat) (row : list pystr)
    (totes : Dict.t Tote.t) : result (Dict.t Tote.t) :=
  match tote_id_of header_index row with
  | None => Ok totes
  | Some tote_id =>
      match Dict.get tote_id totes with
      | None => Ok totes
      | Some tote =>
          tote ← empty_fields header_index row tote;
          Ok (Dict.set tote_id tote totes)
      end
  end.

(** The per-file loop state: [current_mode], [header_index], [totes]. *)
Record reader := Reader {
  current_mode : mode;
  header_index : gmap pystr nat;
  totes : Dict.t Tote.t
}.

Definition is_blank (row : list pystr) : bool :=
  negb (existsb (fun cell => truthy (strip cell)) row).

Definition is_marker (row : list pystr) : bool :=
  match row with
  | [c] => contains c (lit "Empty ToteScan labels")
  | _ => false
  end.

Definition data_row (st : reader) (row : list pystr) : result reader :=
  match current_mode st with
  | PRIMARY =>
      Reader PRIMARY (header_index st)
        <$> primary_row (header_index st) row (totes st)
  | EMPTY =>
      Reader EMPTY (header_index st)
        <$> empty_row (header_index st) row (totes st)
  | _ => Ok st
  end.

(** One iteration of [for row in reader]. *)
Definition process_row (st : reader) (row : list pystr) : result reader :=
  if is_blank row then Ok st
  else if is_marker row then Ok (Reader EMPTY_PENDING_HEADER ∅ (totes st))
  else
    match sniff_headers row with
    | PRIMARY => Ok (Reader PRIMARY (make_header_index row) (totes st))
    | EMPTY => Ok (Reader EMPTY (make_header_index row) (totes st))
    | _ =>
        if bool_decide (current_mode st = EMPTY_PENDING_HEADER)
           && all_in EMPTY_HEADER row
        then Ok (Reader EMPTY (make_header_index row) (totes st))
        else data_row st row
    end.

(** The body of [for path in paths]. *)
Definition read_file (totes : Dict.t Tote.t) (path : pystr)
    : result (Dict.t Tote.t) :=
  rows ← open_csv path;
  st ← foldlM process_row (Reader UNKNOWN ∅ totes) rows;
  Ok (let 'Reader _ _ totes := st in totes).
End Ingestion.

Section Linking.
(** One iteration of the loop that builds the parent->children links;
    [t] is an element of the snapshot [list(totes.values())]. *)
Definition link_one (totes : Dict.t Tote.t) (t : Tote.t) : Dict.t Tote.t :=
  match Tote.parent_id t with
  | Some p =>
      if truthy p then
        match Dict.get p totes with
        | None => totes
        | Some parent =>
            if bool_decide (Tote.tote_id t ∈ Tote.children parent) then totes
            else Dict.set p
                   (Tote.set_children
                      (Tote.children parent ++ [Tote.tote_id t]) parent)
                   totes
        end
      else totes
  | None => totes
  end.

Definition build_links (totes : Dict.t Tote.t) : Dict.t Tote.t :=
  foldl link_one totes (Dict.values totes).
End Linking.

Section ReadCsvs.
Context `{PyInt} `{CsvSource}.

(** The table after the loop over [paths], before the links are built. *)
Definition ingest (paths : list pystr) : result (Dict.t Tote.t) :=
  foldlM read_file [] paths.

Definition read_csvs (paths : list pystr) : result (Dict.t Tote.t) :=
  build_links <$> ingest paths.
End ReadCsvs.

(** ** Text layout helpers *)

(** [pdfmetrics.stringWidth(text, fontName, fontSize)] *)
Class FontMetrics := stringWidth : pystr -> pystr -> Z -> Q.

(** The one-character string of the horizontal ellipsis. *)
Definition ell : pystr := [8230%N].

Section TextLayout.
Context `{FontMetrics}.

(** [lines.append(" ".join(cur))] under [if cur:]. *)
Definition flush (lines : list pystr) (cur : list pystr) : list pystr :=
  match cur with
  | [] => lines
  | _ => lines ++ [join space cur]
  end.

(** The body of [for w in words] in [wrap_text], on [(lines, cur)]. *)
Definition wrap_step (max_width : Q) (font_name : pystr) (font_size : Z)
    (st : list pystr * list pystr) (w : pystr) : list pystr * list pystr :=
  let '(lines, cur) := st in
  let candidate := strip (join space (cur ++ [w])) in
  if Qle_bool (stringWidth candidate font_name font_size) max_width
  then (lines, cur ++ [w])
  else (flush lines cur, [w]).

Definition wrap_text (text : pystr) (max_width : Q) (font_name : pystr)
    (font_size : Z) : list pystr :=
  let words := split text in
  let '(lines, cur) :=
    foldl (wrap_step max_width font_name font_size) ([], []) words in
  let lines := flush lines cur in
  match lines with
  | [] => [[]]
  | _ => lines
  end.

(** The test of the binary search in [ellipsize]. *)
Definition ell_fits (text : pystr) (max_w : Q) (font : pystr) (size : Z)
    (mid : nat) : bool :=
  Qle_bool (stringWidth (take mid text ++ ell) font size) max_w.

(** [while lo < hi: ...]; the value of [lo] when the loop ends. *)
Equations? ell_search (fits : nat -> bool) (lo hi : nat) : nat
    by wf (hi - lo)%nat lt :=
  ell_search fits lo hi with decide (lo < hi)%nat => {
    | left _ :=
        if fits ((lo + hi) / 2)%nat
        then ell_search fits ((lo + hi) / 2 + 1)%nat hi
        else ell_search fits lo ((lo + hi) / 2)%nat;
    | right _ := lo }.
Proof.
  all: assert ((lo + hi) / 2 < hi)%nat
    by (apply Nat.Div0.div_lt_upper_bound; lia).
  all: assert (lo <= (lo + hi) / 2)%nat by (apply Nat.div_le_lower_bound; lia).
  all: lia.
Qed.

Definition ellipsize (text : pystr) (max_w : Q) (font : pystr) (size : Z)
    : pystr :=
  if Qle_bool (stringWidth text font size) max_w then text
  else
    let lo := ell_search (ell_fits text max_w font size) 0 (length text) in
    take (Z.to_nat (Z.max (Z.of_nat lo - 1) 0)) text ++ ell.
End TextLayout.

(** ** Thumbnail resolution *)

(** [str(n)] for an integer. *)
Definition str_of_int (n : Z) : pystr :=
  lit (DecimalString.NilZero.string_of_int (Z.to_int n)).

(** The cache directory: the files that exist, by path. *)
Abbreviation FS Bytes := (gmap pystr Bytes).

Section Thumbnails.
(** PIL images and raw file contents. *)
Variables (Img Bytes : Type).

(** The object [requests.get] returns. *)
Record Response := mkResponse {
  status_code : Z;
  content : Bytes
}.

(** The libraries and services [fetch_thumbnail] calls. An operation that
    may raise returns [None] when it does. *)
Class World := {
  (** [Image] is not [None]: Pillow could be imported. *)
  pil_available : bool;
  CACHE_DIR : pystr;
  (** [hashlib.sha1(s.encode("utf-8")).hexdigest()]; [None] when the
      string cannot be encoded. *)
  sha1_hex : pystr -> option pystr;
  (** [os.makedirs(CACHE_DIR, exist_ok=True)] raises. *)
  makedirs_fails : bool;
  (** [os.remove(path)] raises. *)
  remove_fails : pystr -> bool;
  (** [Image.open(path).convert("RGB")] on the content of the file. *)
  open_rgb : Bytes -> option Img;
  (** [requests.get(url, timeout=10)]; [None] on a network error or a
    timeout. *)
  requests_get : pystr -> option Response;
  (** [Image.open(io.BytesIO(content))] *)
  image_open : Bytes -> option Img;
  (** [img.mode] *)
  image_mode : Img -> pystr;
  (** [img.convert("RGB")] *)
  convert_rgb : Img -> option Img;
  (** [img.copy()] *)
  image_copy : Img -> option Img;
  (** [img.thumbnail((px, px))], as the image it leaves. *)
  thumbnail : Img -> Z -> option Img;
  (** [img.save(path, format="PNG")], as the bytes it writes. *)
  save_png : Img -> option Bytes
}.

Context `{World}.

(** Code that reads and writes the cache and may raise. *)
Definition io (A : Type) : Type := FS Bytes -> result A * FS Bytes.

#[global] Instance io_ret : MRet io := fun A a fs => (Ok a, fs).
#[global] Instance io_bind : MBind io := fun A B f m fs =>
  match m fs with
  | (Ok a, fs') => f a fs'
  | (Raise e, fs') => (Raise e, fs')
  end.

Definition raise {A} (e : exn) : io A := fun fs => (Raise e, fs).

(** [try: body except Exception: handler] *)
Definition try_except {A} (body handler : io A) : io A := fun fs =>
  match body fs with
  | (Ok a, fs') => (Ok a, fs')
  | (Raise _, fs') => handler fs'
  end.

(** A library call that either returns or raises. *)
Definition call {A} (o : option A) : io A :=
  match o with Some a => mret a | None => raise OSError end.

Definition _hash (s : pystr) : io pystr := call (sha1_hex s).

Definition os_makedirs : io unit :=
  if makedirs_fails then raise OSError else mret tt.

Definition os_path_exists (path : pystr) : io bool :=
  fun fs => (Ok (bool_decide (is_Some (fs !! path))), fs).

Definition os_remove (path : pystr) : io unit := fun fs =>
  if remove_fails path then (Raise OSError, fs)
  else match fs !! path with
       | Some _ => (Ok tt, delete path fs)
       | None => (Raise OSError, fs)
       end.

(** [Image.open(thumb_path).convert("RGB")] *)
Definition open_cached (path : pystr) : io Img := fun fs =>
  match fs !! path with
  | Some b => call (open_rgb b) fs
  | None => (Raise OSError, fs)
  end.

(** [resp.raise_for_status()] *)
Definition raise_for_status (resp : Response) : io unit :=
  if (400 <=? status_code resp) && (status_code resp <? 600)
  then raise OSError else mret tt.

(** [img_copy.save(thumb_path, format="PNG")] *)
Definition save (img : Img) (path : pystr) : io unit := fun fs =>
  match save_png img with
  | Some b => (Ok tt, <[path := b]> fs)
  | None => (Raise OSError, fs)
  end.

(** [os.path.join(CACHE_DIR, f"{key}_{thumb_px}.png")]; [CACHE_DIR] is
    itself the join of a directory with "cache" and "images". *)
Definition thumb_path_of (key : pystr) (thumb_px : Z) : pystr :=
  CACHE_DIR ++ lit "/" ++ key ++ lit "_" ++ str_of_int thumb_px
  ++ lit ".png".

(** The block under [if os.path.exists(thumb_path)]: the cached image, or
    [None] when control falls through to the download. *)
Definition load_cached (thumb_path : pystr) : io (option Img) :=
  try_except
    (img ← open_cached thumb_path; mret (Some img))
    (_ ← try_except (os_remove thumb_path) (mret tt); mret None).

(** The block under [# Download]. *)
Definition download (url thumb_path : pystr) (thumb_px : Z)
    : io (option Img) :=
  try_except
    (resp ← call (requests_get url);
     _ ← raise_for_status resp;
     img ← call (image_open (content resp));
     img ← (if bool_decide (image_mode img ∈ [lit "RGB"; lit "RGBA"])
            then mret img
            else call (convert_rgb img));
     img_copy ← call (image_copy img);
     img_copy ← call (thumbnail img_copy thumb_px);
     _ ← try_except (save img_copy thumb_path) (mret tt);
     mret (Some img_copy))
    (mret None).

Definition fetch_thumbnail (url : pystr) (thumb_px : Z) : io (option Img) :=
  if negb pil_available then mret None
  else
    _ ← os_makedirs;
    key ← _hash url;
    let thumb_path := thumb_path_of key thumb_px in
    found ← os_path_exists thumb_path;
    cached ← (if (found : bool) then load_cached thumb_path else mret None);
    match (cached : option Img) with
    | Some img => mret (Some img)
    | None => download url thumb_path thumb_px
    end.
End Thumbnails.

Arguments mkResponse {Bytes}.
Arguments status_code {Bytes}.
Arguments content {Bytes}.
Arguments pil_available {Img Bytes _}.
Arguments CACHE_DIR {Img Bytes _}.
Arguments sha1_hex {Img Bytes _}.
Arguments makedirs_fails {Img Bytes _}.
Arguments remove_fails {Img Bytes _}.
Arguments open_rgb {Img Bytes _}.
Arguments requests_get {Img Bytes _}.
Arguments image_open {Img Bytes _}.
Arguments image_mode {Img Bytes _}.
Arguments convert_rgb {Img Bytes _}.
Arguments image_copy {Img Bytes _}.
Arguments thumbnail {Img Bytes _}.
Arguments save_png {Img Bytes _}.
Arguments raise {Bytes A}.
Arguments try_except {Bytes A}.
Arguments call {Bytes A}.
Arguments os_makedirs {Img Bytes _}.
Arguments os_path_exists {Bytes}.
Arguments os_remove {Img Bytes _}.
Arguments open_cached {Img Bytes _}.
Arguments raise_for_status {Bytes}.
Arguments save {Img Bytes _}.
Arguments fetch_thumbnail {Img Bytes _} url thumb_px.
Arguments download {Img Bytes _} url thumb_path thumb_px.
Arguments load_cached {Img Bytes _} thumb_path.
Arguments thumb_path_of {Img Bytes _} key thumb_px.

(** ** Label renderer *)

Inductive colour := grey | black.

(** The calls made on the canvas. *)
Inductive op :=
  | DrawImage (x y w h : Q)
  | SetFont (name : pystr) (size : Z)
  | SetFillColor (c : colour)
  | DrawString (x y : Q) (text : pystr)
  | ShowPage.

(** What [draw_label] takes from its libraries, as outcomes. The two
    calls that stand outside every [try] of the renderer either return or
    raise; what they raise leaves [draw_label] and [generate_pdf]. *)
Class Surface := {
  (** The font name [try_register_fonts()] returns. *)
  try_register_fonts : pystr;
  (** [make_qr_image(data)]: whether the result [is not None], or the
      exception the call raises. *)
  qr_image_made : pystr -> result bool;
  (** [fetch_thumbnail(url)]: whether the result [is not None], or the
      exception the call raises. *)
  thumbnail_found : pystr -> result bool
}.

(** One row of an item grid as it was laid out: the number of page breaks
    of the label before it, the cursor when its width was chosen, that
    width, and the cursor at which it was drawn. The rows are a record of
    the layout; nothing of them is drawn. *)
Record grid_row := GridRow {
  row_page : nat;
  row_y : Q;
  row_available_width : Q;
  row_top : Q
}.

(** The vertical cursor [y] and the canvas and, for the statements about
    the layout, the page breaks made so far in the label and the rows of
    the grids laid out so far. *)
Record pen := Pen {
  y : Q;
  canvas : list op;
  page_breaks : nat;
  grid_rows : list grid_row
}.

Definition emit (o : op) (p : pen) : pen :=
  Pen (y p) (canvas p ++ [o]) (page_breaks p) (grid_rows p).

(** [y -= d] *)
Definition down (d : Q) (p : pen) : pen :=
  Pen (y p - d) (canvas p) (page_breaks p) (grid_rows p).

Definition set_y (v : Q) (p : pen) : pen :=
  Pen v (canvas p) (page_breaks p) (grid_rows p).

(** [c.showPage()] *)
Definition showPage (p : pen) : pen :=
  Pen (y p) (canvas p ++ [ShowPage]) (S (page_breaks p)) (grid_rows p).

Definition note_row (r : grid_row) (p : pen) : pen :=
  Pen (y p) (canvas p) (page_breaks p) (grid_rows p ++ [r]).

Definition inch : Q := 72.
Definition letter : Q * Q := (612, 792)%Q.
Definition A4 : Q * Q := (210 * 720 / 254, 297 * 720 / 254)%Q.

Definition times_sign : pystr := [215%N].
Definition em_dash : pystr := [8212%N].
Definition bullet : pystr := [8226%N].

(** [max(xs)] for a non-empty list, [0] for the empty one. *)
Definition max_height (xs : list Q) : Q :=
  match xs with
  | [] => 0%Q
  | x :: r => foldl Qmax x r
  end.

(** The names bound in [draw_label] that its nested functions use. *)
Record frame := Frame {
  width : Q;
  height : Q;
  margin : Q;
  frame_tote_id : pystr;
  font_body : pystr;
  font_bold : pystr;
  qr_bottom_y : option Q
}.

Definition content_width (fr : frame) : Q := (width fr - 2 * margin fr)%Q.
Definition qr_side : Q := (1.5 * inch)%Q.
Definition gutter : Q := (0.15 * inch)%Q.
Definition pad : Q := 4%Q.
Definition max_y (fr : frame) : Q := (margin fr + 24)%Q.

(** [f"{item.quantity} x {item.title}"], or with "(untitled)". *)
Definition title_text_of (item : ToteItem.t) : pystr :=
  if truthy (ToteItem.title item)
  then str_of_int (ToteItem.quantity item) ++ space ++ times_sign ++ space
       ++ ToteItem.title item
  else str_of_int (ToteItem.quantity item) ++ space ++ times_sign ++ space
       ++ lit "(untitled)".

(** [row_available_width], chosen from the cursor at the start of a row. *)
Definition available_width (fr : frame) (y : Q) : Q :=
  match qr_bottom_y fr with
  | Some b => if Qlt_le_dec b y
              then (content_width fr - (qr_side + 0.25 * inch))%Q
              else content_width fr
  | None => content_width fr
  end.

(** [c.showPage()] and the heading of a continuation page. *)
Definition break_page (fr : frame) (p : pen) : pen :=
  let p := showPage p in
  let p := set_y (height fr - margin fr)%Q p in
  let p := emit (SetFont (font_bold fr) 16) p in
  let p := emit (DrawString (margin fr) (y p)
                   (lit "Tote " ++ frame_tote_id fr ++ lit " (cont.)")) p in
  down 22 p.

(** [for line in lines: c.drawString(x, y_cursor - rise, line);
    y_cursor -= step] *)
Definition draw_lines (x rise step : Q) (lines : list pystr)
    (st : pen * Q) : pen * Q :=
  foldl (fun '(p, y_cursor) line =>
           (emit (DrawString x (y_cursor - rise)%Q line) p,
            (y_cursor - step)%Q))
    st lines.

(** [for col_idx, it in enumerate(row_items): draw(it, x_left, y, col_width)] *)
Definition draw_row (fr : frame)
    (draw : ToteItem.t -> Q -> Q -> Q -> pen -> result pen)
    (row_items : list ToteItem.t) (col_width : Q) (p : pen) : result pen :=
  foldlM (fun p '(col_idx, it) =>
           let x_left := (margin fr + inject_Z (Z.of_nat col_idx)
                                      * (col_width + gutter))%Q in
           draw it x_left (y p) col_width p)
    p (imap (fun i it => (i, it)) row_items).

(** The body of [while i < len(items)], the same in both grids, for the
    row [row_items = items[i : i + cols]]. *)
Definition grid_step (fr : frame) (cols : Z)
    (measure : ToteItem.t -> Q -> result Q)
    (draw : ToteItem.t -> Q -> Q -> Q -> pen -> result pen)
    (row_items : list ToteItem.t) (p : pen) : result pen :=
  let y0 := y p in
  let row_available_width := available_width fr y0 in
  let col_width :=
    ((row_available_width - gutter * (inject_Z cols - 1)) / inject_Z cols)%Q in
  row_heights ← mapM (fun it => measure it col_width) row_items;
  let row_h := max_height row_heights in
  let p := if Qlt_le_dec (y p - row_h) (max_y fr)
           then emit (SetFont (font_body fr) 10) (break_page fr p)
           else p in
  let p := note_row (GridRow (page_breaks p) y0 row_available_width (y p)) p in
  p ← draw_row fr draw row_items col_width p;
  Ok (down (row_h + 6) p).

(** The placeholder of an empty item list. *)
Definition no_items (fr : frame) (p : pen) : pen :=
  down 14 (emit (DrawString (margin fr + 12)%Q (y p)
                   (lit "(No items recorded)")) p).

Section Renderer.
Context `{FontMetrics} `{Surface}.

(** *** Grid with thumbnails *)

(** [thumb_img = fetch_thumbnail(item.image_url) if item.image_url else
    None], as [thumb_img is not None]. *)
Definition thumb_img_found (item : ToteItem.t) : result bool :=
  match ToteItem.image_url item with
  | Some url => if truthy url then thumbnail_found url else Ok false
  | None => Ok false
  end.

Definition wrapped_cell (fr : frame) (item : ToteItem.t) (col_w : Q)
    : list pystr * list pystr :=
  let title_lines :=
    wrap_text (title_text_of item) (col_w - 2 * pad)%Q (font_body fr) 10 in
  let desc_text := strip (str_or (ToteItem.description item) []) in
  let desc_lines :=
    if truthy desc_text
    then wrap_text desc_text (col_w - 2 * pad)%Q (font_body fr) 9
    else [] in
  (title_lines, desc_lines).

Definition measure_cell (fr : frame) (item : ToteItem.t) (col_w : Q)
    : result Q :=
  found ← thumb_img_found item;
  Ok (let thumb_h := if (found : bool) then (0.7 * inch)%Q else 0%Q in
      let '(title_lines, desc_lines) := wrapped_cell fr item col_w in
      let text_h := (inject_Z (Z.of_nat (length title_lines)) * 11
                     + inject_Z (Z.of_nat (length desc_lines)) * 10)%Q in
      let img_space := if (found : bool) then (thumb_h + 4)%Q else 0%Q in
      (pad + img_space + text_h + pad)%Q).

Definition draw_cell (fr : frame) (item : ToteItem.t) (x_left y_top col_w : Q)
    (p : pen) : result pen :=
  found ← thumb_img_found item;
  Ok (let thumb_h := if (found : bool) then (0.7 * inch)%Q else 0%Q in
      let thumb_w := thumb_h in
      let '(title_lines, desc_lines) := wrapped_cell fr item col_w in
      let y_cursor := (y_top - pad)%Q in
      let '(p, y_cursor) :=
        if (found : bool)
        then (emit (DrawImage (x_left + pad) (y_cursor - thumb_h) thumb_w
                      thumb_h)%Q p,
              (y_cursor - (thumb_h + 4))%Q)
        else (p, y_cursor) in
      let p := emit (SetFillColor black) p in
      let p := emit (SetFont (font_body fr) 10) p in
      let '(p, y_cursor) :=
        draw_lines (x_left + pad)%Q 10 11 title_lines (p, y_cursor) in
      match desc_lines with
      | [] => p
      | _ =>
          let p := emit (SetFillColor grey) p in
          let p := emit (SetFont (font_body fr) 9) p in
          let '(p, _) :=
            draw_lines (x_left + pad)%Q 9 10 desc_lines (p, y_cursor) in
          emit (SetFillColor black) p
      end).

Equations? thumbs_loop (fr : frame) (items : list ToteItem.t) (i : nat)
    (p : pen) : result pen by wf (length items - i)%nat lt :=
  thumbs_loop fr items i p with decide (i < length items)%nat => {
    | left _ :=
        match grid_step fr 5 (measure_cell fr) (draw_cell fr)
                (take 5 (drop i items)) p with
        | Ok p' => thumbs_loop fr items (i + 5)%nat p'
        | Raise e => Raise e
        end;
    | right _ := Ok p }.
Proof. lia. Qed.

Definition render_items_grid_thumbs (fr : frame) (items : list ToteItem.t)
    (p : pen) : result pen :=
  match items with
  | [] => Ok (no_items fr p)
  | _ => thumbs_loop fr items 0 p
  end.

(** *** Grid of text *)

Definition title_size : Z := 10.
Definition desc_size : Z := 9.

Definition ellipsized_cell (fr : frame) (item : ToteItem.t) (col_w : Q)
    : pystr * pystr :=
  let text_w := (col_w - 2 * pad)%Q in
  let title_line :=
    ellipsize (title_text_of item) text_w (font_body fr) title_size in
  let desc_text := strip (str_or (ToteItem.description item) []) in
  let desc_line :=
    if truthy desc_text
    then ellipsize desc_text text_w (font_body fr) desc_size
    else [] in
  (title_line, desc_line).

Definition measure_cell_text (fr : frame) (item : ToteItem.t) (col_w : Q)
    : Q :=
  let '(title_line, desc_line) := ellipsized_cell fr item col_w in
  let lines_h := (11 + (if truthy desc_line then 10 else 0))%Q in
  (pad + lines_h + pad)%Q.

Definition draw_cell_text (fr : frame) (item : ToteItem.t)
    (x_left y_top col_w : Q) (p : pen) : pen :=
  let '(title_line, desc_line) := ellipsized_cell fr item col_w in
  let y_cursor := (y_top - pad)%Q in
  let p := emit (SetFillColor black) p in
  let p := emit (SetFont (font_body fr) title_size) p in
  let p := emit (DrawString (x_left + pad) (y_cursor - 10) title_line)%Q p in
  let y_cursor := (y_cursor - 11)%Q in
  if truthy desc_line then
    let p := emit (SetFillColor grey) p in
    let p := emit (SetFont (font_body fr) desc_size) p in
    let p := emit (DrawString (x_left + pad) (y_cursor - 9) desc_line)%Q p in
    emit (SetFillColor black) p
  else p.

(** The two nested functions of the grid of text call nothing that
    stands outside a [try]; they are passed to [grid_step] as they are. *)
Definition measure_text (fr : frame) (item : ToteItem.t) (col_w : Q)
    : result Q :=
  Ok (measure_cell_text fr item col_w).

Definition draw_text (fr : frame) (item : ToteItem.t)
    (x_left y_top col_w : Q) (p : pen) : result pen :=
  Ok (draw_cell_text fr item x_left y_top col_w p).

Equations? text_loop (fr : frame) (items : list ToteItem.t) (i : nat)
    (p : pen) : result pen by wf (length items - i)%nat lt :=
  text_loop fr items i p with decide (i < length items)%nat => {
    | left _ :=
        match grid_step fr 4 (measure_text fr) (draw_text fr)
                (take 4 (drop i items)) p with
        | Ok p' => text_loop fr items (i + 4)%nat p'
        | Raise e => Raise e
        end;
    | right _ := Ok p }.
Proof. lia. Qed.

Definition render_items_grid_text (fr : frame) (items : list ToteItem.t)
    (p : pen) : result pen :=
  match items with
  | [] => Ok (no_items fr p)
  | _ => text_loop fr items 0 p
  end.

(** [render_items_grid_text] under [render_mode == "text"], else thumbs. *)
Definition render_items (fr : frame) (render_mode : pystr)
    (items : list ToteItem.t) (p : pen) : result pen :=
  if decide (render_mode = lit "text") then render_items_grid_text fr items p
  else render_items_grid_thumbs fr items p.

(** *** The label *)

(** [totes_map.get(child_id) if totes_map else None] *)
Definition child_of (totes_map : Dict.t Tote.t) (child_id : pystr)
    : option Tote.t :=
  match totes_map with
  | [] => None
  | _ => Dict.get child_id totes_map
  end.

(** The head of the label up to the line "Items:"; returns whether the QR
    code was drawn. *)
Definition draw_head (tote : Tote.t) (page_size : Q * Q) (margin : Q)
    (totes_map : Dict.t Tote.t) : result (pen * bool) :=
  let '(width, height) := page_size in
  let content_width := (width - 2 * margin)%Q in
  let font_body := try_register_fonts in
  let font_bold := lit "Helvetica-Bold" in
  let p := Pen (height - margin)%Q [] 0 [] in
  qr_drawn ←
    match Tote.qrdata tote with
    | Some data => if truthy data then qr_image_made data else Ok false
    | None => Ok false
    end;
  let p := if (qr_drawn : bool)
           then emit (DrawImage (width - margin - qr_side) (y p - qr_side)
                        qr_side qr_side)%Q p
           else p in
  let reserved_right := if qr_drawn then (qr_side + 0.25 * inch)%Q else 0%Q in
  let avail_width := (content_width - reserved_right)%Q in
  let p := emit (SetFont font_bold 24) p in
  let title := str_or (Tote.title tote) (lit "(Untitled tote)") in
  let p := foldl (fun p line =>
                    down 26 (emit (DrawString margin (y p - 10)%Q line) p))
             p (wrap_text title avail_width font_bold 24) in
  let p := emit (SetFont font_bold 16) p in
  let tote_id_text := lit "Tote: " ++ Tote.tote_id tote in
  let p := foldl (fun p line => down 18 (emit (DrawString margin (y p) line) p))
             p (wrap_text tote_id_text avail_width font_bold 16) in
  let p :=
    if truthy (Tote.location tote) then
      let p := emit (SetFont font_body 10) p in
      let p := emit (SetFillColor grey) p in
      let loc_text := lit "Location: " ++ Tote.location tote in
      let p := foldl (fun p line =>
                        down 14 (emit (DrawString margin (y p) line) p))
                 p (wrap_text loc_text avail_width font_body 10) in
      let p := emit (SetFillColor black) p in
      down 2 p
    else down 8 p in
  let p := down 12 p in
  let p :=
    match Tote.children tote with
    | [] => p
    | _ =>
        let p := emit (SetFont font_bold 12) p in
        let p := emit (DrawString margin (y p) (lit "Sub totes:")) p in
        let p := down 16 p in
        emit (SetFont font_body 10) p
    end in
  let p :=
    foldl (fun p child_id =>
             let child_title :=
               match child_of totes_map child_id with
               | Some child => str_or (Tote.title child) []
               | None => []
               end in
             let line :=
               bullet ++ space ++ child_id
               ++ (if truthy child_title
                   then space ++ em_dash ++ space ++ child_title else []) in
             foldl (fun p wrapped =>
                      down 12 (emit (DrawString (margin + 12)%Q (y p) wrapped) p))
               p (wrap_text line avail_width font_body 10))
      p (Tote.children tote) in
  let p := down 14 p in
  let p := emit (SetFont font_bold 12) p in
  let p := emit (DrawString margin (y p) (lit "Items:")) p in
  let p := down 16 p in
  let p := emit (SetFont font_body 10) p in
  Ok (p, qr_drawn).

(** The section of one child: heading, then the grid of its items. *)
Definition draw_child (fr : frame) (render_mode : pystr)
    (totes_map : Dict.t Tote.t) (p : pen) (child_id : pystr) : result pen :=
  let child := child_of totes_map child_id in
  let p := emit (SetFont (font_bold fr) 12) p in
  let header :=
    lit "Sub tote: " ++ child_id
    ++ match child with
       | Some c => if truthy (Tote.title c)
                   then space ++ em_dash ++ space ++ Tote.title c else []
       | None => []
       end in
  let section_gap : Q := 16%Q in
  let p := if Qlt_le_dec (y p - (section_gap + 16)) (max_y fr)
           then break_page fr p
           else down section_gap p in
  let p := emit (SetFont (font_bold fr) 12) p in
  let p := emit (DrawString (margin fr) (y p) header) p in
  let p := down 16 p in
  let p := emit (SetFont (font_body fr) 10) p in
  render_items fr render_mode
    (match child with Some c => Tote.items c | None => [] end) p.

Definition draw_label (tote : Tote.t) (page_size : Q * Q) (margin : Q)
    (totes_map : Dict.t Tote.t) (render_mode : pystr) : result pen :=
  head ← draw_head tote page_size margin totes_map;
  let '(p, qr_drawn) := (head : pen * bool) in
  let top_y0 := (snd page_size - margin)%Q in
  let fr := Frame (fst page_size) (snd page_size) margin (Tote.tote_id tote)
              try_register_fonts (lit "Helvetica-Bold")
              (if (qr_drawn : bool) then Some (top_y0 - qr_side)%Q else None) in
  p ← render_items fr render_mode (Tote.items tote) p;
  p ← foldlM (draw_child fr render_mode totes_map) p (Tote.children tote);
  Ok (showPage p).
End Renderer.

(** ** Document assembler *)

(** [s.lower()] on the letters A to Z; enough to decide
    [page.lower() == "letter"], no other character lowers to a letter of
    that word. *)
Definition ascii_lower (s : pystr) : pystr :=
  map (fun c => if ((65 <=? c) && (c <=? 90))%N then (c + 32)%N else c) s.

(** [a <= b] on strings, as a relation. *)
Definition str_order : relation pystr := fun a b => str_le a b.

#[global] Instance str_order_dec a b : Decision (str_order a b).
Proof. unfold str_order. apply _. Defined.

(** [sorted(keys)] *)
Definition sorted (keys : list pystr) : list pystr :=
  merge_sort str_order keys.

(** A document as [c.save()] writes it. *)
Record document := Document {
  doc_path : pystr;
  doc_pagesize : Q * Q;
  doc_ops : list op
}.

(** The file system as [generate_pdf] and [main] see it. *)
Class Files := {
  (** [os.makedirs(os.path.dirname(path), exist_ok=True)] and the later
    [c.save()] both succeed for the output path. *)
  output_writable : pystr -> bool;
  (** [os.path.splitext] *)
  splitext : pystr -> pystr * pystr;
  isdir : pystr -> bool;
  isfile : pystr -> bool;
  (** [glob.glob] *)
  glob : pystr -> list pystr;
  (** [os.path.join] *)
  path_join : pystr -> pystr -> pystr
}.

Section Assembler.
Context `{PyInt} `{CsvSource} `{FontMetrics} `{Surface} `{Files}.

(** [draw_label(c, totes[tote_id], ...)] in the loop of [generate_pdf]: the
    calls the label adds to the canvas [c]. *)
Definition draw_next (totes : Dict.t Tote.t) (page_size : Q * Q)
    (render_mode : pystr) (c : list op) (tote_id : pystr) : result (list op) :=
  match Dict.get tote_id totes with
  | Some tote =>
      p ← draw_label tote page_size (0.5 * inch)%Q totes render_mode;
      Ok (c ++ canvas p)
  | None => Ok c
  end.

(** The document is written by [c.save()], the last statement: an
    exception raised while a label is drawn leaves [generate_pdf] before
    it, and no document is written. *)
Definition generate_pdf (totes : Dict.t Tote.t) (output_path page : pystr)
    (render_mode : pystr) : result document :=
  let page_size := if decide (ascii_lower page = lit "letter") then letter
                   else A4 in
  if output_writable output_path then
    c ← foldlM (draw_next totes page_size render_mode) []
          (sorted (Dict.keys totes));
    Ok (Document output_path page_size c)
  else Raise OSError.

Definition collect_input_paths (input_path : pystr) : result (list pystr) :=
  let paths :=
    if isdir input_path then sorted (glob (path_join input_path (lit "*.csv")))
    else
      let paths := sorted (glob input_path) in
      match paths with
      | [] => if isfile input_path then [input_path] else []
      | _ => paths
      end in
  match paths with
  | [] => Raise OSError
  | _ => Ok paths
  end.

(** The parsed command line. *)
Record args := Args {
  arg_input : pystr;
  arg_output : pystr;
  arg_page : pystr;
  arg_mode : pystr
}.

(** [main]: the exit status and the documents written, or the exception
    that [read_csvs] lets through. *)
Definition main (a : args) : result (Z * list document) :=
  match collect_input_paths (arg_input a) with
  | Raise _ => Ok (2, [])
  | Ok paths =>
      totes ← read_csvs paths;
      match totes with
      | [] => Ok (1, [])
      | _ =>
          if decide (arg_mode a = lit "both") then
            let '(base, ext) := splitext (arg_output a) in
            let ext := str_or ext (lit ".pdf") in
            let thumbs_path := base ++ lit "_thumbs" ++ ext in
            let text_path := base ++ lit "_text" ++ ext in
            match generate_pdf totes thumbs_path (arg_page a) (lit "thumbs") with
            | Raise _ => Ok (3, [])
            | Ok d1 =>
                match generate_pdf totes text_path (arg_page a) (lit "text") with
                | Raise _ => Ok (3, [d1])
                | Ok d2 => Ok (0, [d1; d2])
                end
            end
          else if decide (arg_mode a = lit "thumbs") then
            match generate_pdf totes (arg_output a) (arg_page a) (lit "thumbs")
            with
            | Raise _ => Ok (3, [])
            | Ok d => Ok (0, [d])
            end
          else
            match generate_pdf totes (arg_output a) (arg_page a) (lit "text")
            with
            | Raise _ => Ok (3, [])
            | Ok d => Ok (0, [d])
            end
      end
  end.
End Assembler.

(** ** A runtime to evaluate the model on concrete inputs *)

Module Demo.
Definition digit_value (c : N) : option Z :=
  if ((48 <=? c) && (c <=? 57))%N then Some (Z.of_N (c - 48)) else None.

(** Decimal digits with single underscores between them. *)
Fixpoint parse_digits (acc : Z) (after_digit : bool) (s : pystr) : option Z :=
  match s with
  | [] => if after_digit then Some acc else None
  | c :: r =>
      if (c =? 95)%N then
        if after_digit then parse_digits acc false r else None
      else
        match digit_value c with
        | Some d => parse_digits (10 * acc + d) true r
        | None => None
        end
  end.

(** [int(s)] on text whose digits are ASCII: optional sign, digits. *)
Definition int_ascii (s : pystr) : option Z :=
  match strip s with
  | 45%N :: r => Z.opp <$> parse_digits 0 false r
  | 43%N :: r => parse_digits 0 false r
  | r => parse_digits 0 false r
  end.

#[export] Instance demo_int : PyInt := int_ascii.

(** A file system that holds the given files. *)
Definition files_of (fs : list (pystr * list (list pystr))) : CsvSource :=
  fun path => match Dict.get path fs with
              | Some rows => Ok rows
              | None => Raise OSError
              end.

Definition row (cells : list string) : list pystr := map lit cells.

(** An empty cell. *)
Definition o : string := String.EmptyString.

(** A fixed-pitch font: every character is half the font size wide. *)
#[export] Instance fixed_pitch : FontMetrics :=
  fun text _ size => (Z.of_nat (length text) * size # 2)%Q.

Definition header : list pystr := PRIMARY_HEADER.

(** QR codes can be made, no thumbnail can be fetched. *)
#[export] Instance offline_surface : Surface := {|
  try_register_fonts := lit "Helvetica";
  qr_image_made := fun _ => Ok true;
  thumbnail_found := fun _ => Ok false
|}.

(** Splits a final ".pdf" off a path. *)
Definition split_pdf (p : pystr) : pystr * pystr :=
  let n := (length p - 4)%nat in
  if decide (drop n p = lit ".pdf") then (take n p, lit ".pdf") else (p, []).

(** Every output path can be written; patterns match themselves. *)
#[export] Instance plain_files : Files := {|
  output_writable := fun _ => true;
  splitext := split_pdf;
  isdir := fun _ => false;
  isfile := fun _ => true;
  glob := fun p => [p];
  path_join := fun a b => a ++ lit "/" ++ b
|}.

(** A world in which an image is its side in pixels and a file holds an
    image or rubbish; one URL serves a 300-pixel picture, one answers
    404, every other request times out. *)
#[export] Instance small_world : World nat (option nat) := {|
  pil_available := true;
  CACHE_DIR := lit "cache/images";
  sha1_hex := fun s => Some s;
  makedirs_fails := false;
  remove_fails := fun _ => false;
  open_rgb := fun b => b;
  requests_get := fun url =>
    if decide (url = lit "http://x/ok.png")
    then Some (mkResponse 200 (Some 300%nat))
    else if decide (url = lit "http://x/gone.png")
    then Some (mkResponse 404 None)
    else None;
  image_open := fun b => b;
  image_mode := fun _ => lit "RGB";
  convert_rgb := fun img => Some img;
  image_copy := fun img => Some img;
  thumbnail := fun img px => Some (Nat.min img (Z.to_nat px));
  save_png := fun img => Some (Some img)
|}.




(** A tote with a QR payload and [n] items "x". *)
Definition tote_with_items (n : nat) : Tote.t :=
  Tote.mk (lit "T1") (lit "Box") [] (Some (lit "T1"))
    (replicate n (ToteItem.mk (lit "x") [] 1 None)) None [].
End Demo.

(** * Vocabulary of the properties *)

(** The text of a field as a total function: empty where the row has
    no such cell. *)
Definition field_value (header_index : gmap pystr nat) (name : string)
    (row : list pystr) : pystr :=
  match field header_index name row with Ok v => v | Raise _ => [] end.

(** The table built by the loop over the files: keys are unique, every
    tote sits under its own id, and no link has been made yet. *)
Definition ingested (totes : Dict.t Tote.t) : Prop :=
  NoDup (Dict.keys totes)
  ∧ ∀ k t, Dict.get k totes = Some t →
           Tote.tote_id t = k ∧ Tote.children t = [].

(** The state [cur] of the table while the links are being built from
    the ingested table [totes0]. *)
Definition linking (totes0 cur : Dict.t Tote.t) : Prop :=
  Dict.keys cur = Dict.keys totes0
  ∧ ∀ k t, Dict.get k cur = Some t →
      ∃ t0, Dict.get k totes0 = Some t0
            ∧ t = Tote.set_children (Tote.children t) t0
            ∧ NoDup (Tote.children t)
            ∧ ∀ c, c ∈ Tote.children t →
                   ∃ tc, Dict.get c totes0 = Some tc
                         ∧ Tote.parent_id tc = Some k.

(** A row that is neither blank, nor the section marker, nor a header. *)
Definition is_data_row (row : list pystr) : bool :=
  negb (is_blank row) && negb (is_marker row)
  && bool_decide (sniff_headers row = UNKNOWN).

(** The data row [row] is read in the PRIMARY state under the header [h]:
    [h] is a row of the file that is recognised as a PRIMARY header, [row]
    is a data row after it, and every row between them is blank or a data
    row, so that the state is still PRIMARY, with the index of [h], when
    [row] is read. *)
Definition read_in_primary (rows : list (list pystr)) (h row : list pystr)
    : Prop :=
  ∃ a b,
    (a < b)%nat ∧ rows !! a = Some h ∧ rows !! b = Some row
    ∧ sniff_headers h = PRIMARY
    ∧ (∀ j r, (a < j < b)%nat → rows !! j = Some r →
              is_blank r = true ∨ is_data_row r = true)
    ∧ is_data_row row = true.

(** [k] is an id cell of the rows of a file: the cell that a data row read
    in the PRIMARY state has, as it is, at the position the header index
    gives for "TOTE ID". *)
Definition id_cell (rows : list (list pystr)) (k : pystr) : Prop :=
  ∃ h row, read_in_primary rows h row
           ∧ tote_id_of (make_header_index h) row = Some k.

(** The item [it] holds the cells of [row]: its title, description and
    quantity are those of the row, and its image address is the first
    part of the IMAGES field, split at white space, that begins with
    http; none when there is no such part. *)
Definition item_from_row `{PyInt} (it : ToteItem.t)
    (hidx : gmap pystr nat) (row : list pystr) : Prop :=
  ToteItem.title it = field_value hidx "ITEM TITLE" row
  ∧ ToteItem.description it = field_value hidx "ITEM DESCRIPTION" row
  ∧ ToteItem.quantity it
    = Tote.parse_quantity (Some (field_value hidx "ITEM QUANTITY" row))
  ∧ ToteItem.image_url it
    = head (filter (λ w, startswith w (lit "http") = true)
              (split (field_value hidx "IMAGES" row))).

(** [it] is the item of a data row, read in the PRIMARY state, that names
    the container [k]. *)
Definition item_cell `{PyInt} (rows : list (list pystr)) (k : pystr)
    (it : ToteItem.t) : Prop :=
  ∃ h row, read_in_primary rows h row
           ∧ tote_id_of (make_header_index h) row = Some k
           ∧ item_from_row it (make_header_index h) row.

(** The section in force when the rows [done] of a file have been read:
    in the PRIMARY state the header index is that of a PRIMARY header row
    of [done] after which only blank rows and data rows were read. *)
Definition section_open (done : list (list pystr)) (st : reader) : Prop :=
  current_mode st = PRIMARY →
  ∃ a h, done !! a = Some h ∧ sniff_headers h = PRIMARY
         ∧ header_index st = make_header_index h
         ∧ ∀ j r, (a < j)%nat → done !! j = Some r →
                  is_blank r = true ∨ is_data_row r = true.

(** Every key of the table was a key of [totes0], the table before the
    file, or is an id cell of the rows read; and likewise every item. *)
Definition keys_from (totes0 : Dict.t Tote.t) (done : list (list pystr))
    (st : reader) : Prop :=
  ∀ k, k ∈ Dict.keys (totes st) → k ∈ Dict.keys totes0 ∨ id_cell done k.

Definition items_from `{PyInt} (totes0 : Dict.t Tote.t)
    (done : list (list pystr)) (st : reader) : Prop :=
  ∀ k t it, Dict.get k (totes st) = Some t → it ∈ Tote.items t →
    (∃ t0, Dict.get k totes0 = Some t0 ∧ it ∈ Tote.items t0)
    ∨ item_cell done k it.

(** The first and the last non-empty value of a sequence. *)
Definition first_nonempty (vs : list pystr) : option pystr :=
  head (filter (λ v, truthy v) vs).

Definition last_nonempty (vs : list pystr) : option pystr :=
  last (filter (λ v, truthy v) vs).

(** The rows of a section that name the container [tid]. *)
Definition rows_of_tote (hidx : gmap pystr nat) (tid : pystr)
    (rows : list (list pystr)) : list (list pystr) :=
  filter (λ row, tote_id_of hidx row = Some tid) rows.

(** A word: non-empty and free of whitespace. *)
Definition is_word (w : pystr) : Prop :=
  w ≠ [] ∧ Forall (λ c, isspace c = false) w.

(** A group of words that [wrap_text] puts on one line: a single word,
    or words whose joined width is within the bound. *)
Definition packed `{FontMetrics} (max_width : Q) (font_name : pystr)
    (font_size : Z) (g : list pystr) : Prop :=
  (∃ w, g = [w])
  ∨ (stringWidth (join space g) font_name font_size <= max_width)%Q.

Definition good_group `{FontMetrics} (max_width : Q) (font_name : pystr)
    (font_size : Z) (g : list pystr) : Prop :=
  g ≠ [] ∧ Forall is_word g ∧ packed max_width font_name font_size g.

Definition good_cur `{FontMetrics} (max_width : Q) (font_name : pystr)
    (font_size : Z) (cur : list pystr) : Prop :=
  Forall is_word cur
  ∧ (cur = [] ∨ packed max_width font_name font_size cur).

(** A step of the download that fails: the request, the status check,
    or the decoding and scaling of the image. *)
Definition download_failure {Img Bytes : Type} `{!World Img Bytes}
    (url : pystr) (thumb_px : Z) : Prop :=
  requests_get url = None
  ∨ ∃ resp, requests_get url = Some resp
      ∧ ((400 <= status_code resp ∧ status_code resp < 600)
         ∨ image_open (content resp) = None
         ∨ ∃ img, image_open (content resp) = Some img
             ∧ (((image_mode img ∉ [lit "RGB"; lit "RGBA"])
                 ∧ convert_rgb img = None)
                ∨ ∃ img', (if bool_decide
                                (image_mode img ∈ [lit "RGB"; lit "RGBA"])
                           then Some img else convert_rgb img) = Some img'
                    ∧ (image_copy img' = None
                       ∨ ∃ c, image_copy img' = Some c
                              ∧ thumbnail c thumb_px = None))).

(** The calls of [make_qr_image] and [fetch_thumbnail] all return. *)
Definition surface_returns `{Surface} : Prop :=
  (∀ data, ∃ b, qr_image_made data = Ok b)
  ∧ (∀ url, ∃ b, thumbnail_found url = Ok b).

(** The canvas calls of the label of one container; none when the
    container is missing or its drawing raises. *)
Definition label_of `{FontMetrics} `{Surface} (totes : Dict.t Tote.t)
    (page_size : Q * Q) (render_mode : pystr) (tote_id : pystr) : list op :=
  match Dict.get tote_id totes with
  | Some tote =>
      match draw_label tote page_size (0.5 * inch)%Q totes render_mode with
      | Ok p => canvas p
      | Raise _ => []
      end
  | None => []
  end.

(** An item as [read_csvs] stores it: a title or a description, both
    without white space around them, and an image address that is one
    word beginning with http, or none. *)
Definition item_ok (it : ToteItem.t) : Prop :=
  (truthy (ToteItem.title it) = true ∨ truthy (ToteItem.description it) = true)
  ∧ strip (ToteItem.title it) = ToteItem.title it
  ∧ strip (ToteItem.description it) = ToteItem.description it
  ∧ match ToteItem.image_url it with
    | Some u => startswith u (lit "http") = true ∧ is_word u
    | None => True
    end.

(** A container after more rows were read: the same id, every field that
    was set kept, and the items it had still first in its list. *)
Definition extends (t t' : Tote.t) : Prop :=
  Tote.tote_id t' = Tote.tote_id t
  ∧ (truthy (Tote.title t) = true → Tote.title t' = Tote.title t)
  ∧ (truthy (Tote.location t) = true → Tote.location t' = Tote.location t)
  ∧ (truthy_opt (Tote.qrdata t) = true → Tote.qrdata t' = Tote.qrdata t)
  ∧ Tote.items t `prefix_of` Tote.items t'.

(** A table after more rows were read. *)
Definition grows (totes totes' : Dict.t Tote.t) : Prop :=
  Dict.keys totes `prefix_of` Dict.keys totes'
  ∧ ∀ k t, Dict.get k totes = Some t →
      ∃ t', Dict.get k totes' = Some t' ∧ extends t t'.

(** Whether [draw_label] draws the QR code of a container, or what the
    making of its image raises. *)
Definition qr_drawn `{Surface} (tote : Tote.t) : result bool :=
  match Tote.qrdata tote with
  | Some data => if truthy data then qr_image_made data else Ok false
  | None => Ok false
  end.

(** The word [w] does not fit on the line of the words [g]. *)
Definition overflows `{FontMetrics} (max_width : Q) (font_name : pystr)
    (font_size : Z) (g : list pystr) (w : pystr) : Prop :=
  ¬ (stringWidth (join space (g ++ [w])) font_name font_size <= max_width)%Q.

(** Every group of words but the last is full: the first word of the next
    group does not fit after it. *)
Fixpoint greedy `{FontMetrics} (max_width : Q) (font_name : pystr)
    (font_size : Z) (gs : list (list pystr)) : Prop :=
  match gs with
  | [] => True
  | g :: rest =>
      match rest with
      | (w :: _) :: _ => overflows max_width font_name font_size g w
      | _ => True
      end
      ∧ greedy max_width font_name font_size rest
  end.

(** The slices [items[i : i + cols]] for [i = 0, cols, 2 cols, ...] below
    [len(items)], the rows of a grid; [fuel] bounds their number. *)
Fixpoint slices_from {A} (fuel cols : nat) (items : list A) : list (list A) :=
  match fuel with
  | O => []
  | S fuel =>
      match items with
      | [] => []
      | _ => take cols items :: slices_from fuel cols (drop cols items)
      end
  end.

Definition slices {A} (cols : nat) (items : list A) : list (list A) :=
  slices_from (length items) cols items.

(** The number of columns of a grid and the body of its loop, by render
    mode. *)
Definition grid_cols (render_mode : pystr) : nat :=
  if decide (render_mode = lit "text") then 4%nat else 5%nat.

Definition grid_row_step `{FontMetrics} `{Surface} (fr : frame)
    (render_mode : pystr) : list ToteItem.t -> pen -> result pen :=
  if decide (render_mode = lit "text")
  then grid_step fr 4 (measure_text fr) (draw_text fr)
  else grid_step fr 5 (measure_cell fr) (draw_cell fr).

(** The documents [main] is asked for, in the order it generates them:
    output path and render mode. *)
Definition requested `{Files} (a : args) : list (pystr * pystr) :=
  if decide (arg_mode a = lit "both") then
    let '(base, ext) := splitext (arg_output a) in
    let ext := str_or ext (lit ".pdf") in
    [(base ++ lit "_thumbs" ++ ext, lit "thumbs");
     (base ++ lit "_text" ++ ext, lit "text")]
  else if decide (arg_mode a = lit "thumbs")
  then [(arg_output a, lit "thumbs")]
  else [(arg_output a, lit "text")].

(** Inputs on which the model is run. *)

Module Examples.
Import Demo.

(** A primary section whose second data row has an empty TOTE ID cell. *)
Definition unnamed_tote_csv : CsvSource :=
  files_of [(lit "a.csv",
    [ header;
      row ["p"; "T1"; o; "qr1"; "shelf"; "Box"; "Widget"; o; o; "3";
           "x http://a/b.png"; o; o; o];
      row ["p"; o; o; o; o; o; "Gadget"; o; o; o; o; o; o; o]
    ])].

(** Two rows for T1, a child T2 named twice, and a reduced section. *)
Definition nested_csv : CsvSource :=
  files_of [(lit "a.csv",
    [ header;
      row ["p"; "T1"; o; o; o; "Box"; "Widget"; o; o; "3"; o; o; o; o];
      row ["p"; "T1"; o; "qr"; "shelf"; "Crate"; "Gadget"; o; o; o; o; o;
           o; o];
      row ["p"; "T2"; "T1"; o; o; o; "Nut"; o; o; "2"; o; o; o; o];
      row ["p"; "T2"; "T1"; o; o; o; "Bolt"; o; o; "2"; o; o; o; o];
      row ["p"; "T4"; "T9"; o; o; o; "Cog"; o; o; "1"; o; o; o; o];
      row ["Empty ToteScan labels without items"];
      row ["PROFILE"; "TOTE ID"; "TOTE LOCATION"; "TOTE TITLE"];
      row ["p"; "T3"; "attic"; "Spare"];
      row ["p"; "T2"; "cellar"; "Small"]
    ])].

(** Three rows for T1 that disagree on the fields of the tote, with a row
    for T2 between them. *)
Definition rows_for_T1 : list (list pystr) :=
  [ row ["p"; "T1"; o; o; o; "Box"; "Widget"; o; o; "3"; o; o; o; o];
    row ["p"; "T1"; "T7"; "qr"; "shelf"; "Crate"; "Gadget"; o; o; o; o; o; o;
         o];
    row ["p"; "T2"; "T6"; "qr3"; "cellar"; "Jar"; "Bolt"; o; o; o; o; o; o; o];
    row ["p"; "T1"; "T8"; "qr2"; "attic"; o; "Nut"; o; o; o; o; o; o; o] ].

(** A primary header in which two columns carry other names. *)
Definition renamed_header : list pystr :=
  row ["PROFILE"; "TOTE ID"; "PARENT"; "QRDATA"; "TOTE LOCATION";
       "NAME"; "ITEM TITLE"; "ITEM DESCRIPTION"; "UPC"; "ITEM QUANTITY";
       "IMAGES"; "CREATED"; "UPDATED"; "ITEM URL"].

Definition renamed_row : list pystr :=
  row ["home"; "T1"; "T0"; o; o; "Box"; "Widget"; o; o; "3"; o; o; o;
       o].

Definition renamed_csv : CsvSource :=
  files_of [(lit "a.csv", [renamed_header; renamed_row])].

(** Container B comes first in the file, container A second. *)
Definition b_then_a_csv : CsvSource :=
  files_of [(lit "a.csv",
    [ header;
      row ["p"; "B"; o; o; o; "Second"; "Nut"; o; o; "2"; o; o; o; o];
      row ["p"; "A"; o; "qr"; o; "First"; "Bolt"; o; o; "1"; o; o; o; o]
    ])].

Definition both_args : args :=
  Args (lit "a.csv") (lit "output/labels.pdf") (lit "letter") (lit "both").

(** A primary header whose id cell carries a leading space. *)
Definition padded_header : list pystr :=
  row ["PROFILE"; " TOTE ID"; "PARENT TOTE ID"; "QRDATA"; "TOTE LOCATION";
       "TOTE TITLE"; "ITEM TITLE"; "ITEM DESCRIPTION"; "UPC"; "ITEM QUANTITY";
       "IMAGES"; "CREATED"; "UPDATED"; "ITEM URL"].

(** A file without any header row. *)
Definition headless_rows : list (list pystr) :=
  [ row ["a"; "b"];
    row ["Empty ToteScan labels without items"];
    row ["x"; "T1"; "y"; "z"] ].

Definition headless_csv : CsvSource :=
  files_of [(lit "a.csv", headless_rows)].

(** A data row that ends after its third cell. *)
Definition short_row : list pystr := row ["p"; "T1"; "x"].

(** A table that holds T2, with a title and an item, while a reduced
    section is read. *)
Definition named_tote : Tote.t :=
  Tote.mk (lit "T2") (lit "Nuts") [] None [ToteItem.mk (lit "Nut") [] 2 None]
    (Some (lit "T1")) [].

Definition reduced_state : reader :=
  Reader EMPTY (make_header_index EMPTY_HEADER) [(lit "T2", named_tote)].

Definition reduced_row : list pystr := row ["p"; "T2"; "cellar"; "Small"].

(** A table that holds T1 before the file is read. *)
Definition old_table : Dict.t Tote.t :=
  [(lit "T1",
    Tote.mk (lit "T1") (lit "Old") [] None [ToteItem.mk (lit "Cog") [] 1 None]
      None [])].

(** A container P with the child C; in one table C has a location and a
    child G of its own, in the other it has neither and stands alone. *)
Definition parent_tote : Tote.t :=
  Tote.mk (lit "P") (lit "Big") [] None [ToteItem.mk (lit "Saw") [] 1 None]
    None [lit "C"].

Definition family : Dict.t Tote.t :=
  [ (lit "P", parent_tote);
    (lit "C",
     Tote.mk (lit "C") (lit "Small") (lit "attic") (Some (lit "qr"))
       [ToteItem.mk (lit "Nail") (lit "steel") 40 None] (Some (lit "P"))
       [lit "G"]);
    (lit "G",
     Tote.mk (lit "G") (lit "Tiny") [] None
       [ToteItem.mk (lit "Pin") [] 9 None] (Some (lit "C")) []) ].

Definition family_flat : Dict.t Tote.t :=
  [ (lit "C",
     Tote.mk (lit "C") (lit "Small") [] None
       [ToteItem.mk (lit "Nail") (lit "steel") 40 None] None []) ].



(** A container without QR payload and with nine items. *)
Definition plain_tote : Tote.t :=
  Tote.mk (lit "T1") (lit "Box") [] None
    (replicate 9 (ToteItem.mk (lit "x") [] 1 None)) None [].
End Examples.

(** * Properties *)

(** ** Dictionaries *)

Section DictFacts.
Context {V : Type}.
Implicit Types (d : Dict.t V) (k : pystr) (v : V).

Lemma get_set_eq k v d : Dict.get k (Dict.set k v d) = Some v.
Proof.
  induction d as [|[k' v'] d IH]; simpl.
  - by rewrite decide_True.
  - destruct (decide (k = k')) as [->|Hne]; simpl.
    + by rewrite decide_True.
    + by rewrite decide_False.
Qed.

Lemma get_set_ne k k' v d :
  k ≠ k' → Dict.get k' (Dict.set k v d) = Dict.get k' d.
Proof.
  intros Hne. induction d as [|[k0 v0] d IH]; simpl.
  - by rewrite decide_False.
  - destruct (decide (k = k0)) as [->|Hne0]; simpl.
    + by rewrite !decide_False.
    + by rewrite IH.
Qed.

Lemma get_None_keys k d : Dict.get k d = None ↔ k ∉ Dict.keys d.
Proof.
  unfold Dict.keys. induction d as [|[k0 v0] d IH]; simpl.
  - split; [intros _; apply not_elem_of_nil | done].
  - rewrite not_elem_of_cons. destruct (decide (k = k0)) as [->|Hne].
    + split; [done | by intros [? _]].
    + rewrite IH. split; [by intros ? | by intros [_ ?]].
Qed.

Lemma get_Some_elem k v d : Dict.get k d = Some v → (k, v) ∈ d.
Proof.
  induction d as [|[k0 v0] d IH]; simpl; [done|].
  destruct (decide (k = k0)) as [->|Hne].
  - intros [= ->]. apply list_elem_of_here.
  - intros Hg. apply list_elem_of_further. auto.
Qed.

Lemma elem_get k v d : NoDup (Dict.keys d) → (k, v) ∈ d → Dict.get k d = Some v.
Proof.
  unfold Dict.keys. induction d as [|[k0 v0] d IH]; simpl.
  - intros _ Hin. by apply elem_of_nil in Hin.
  - rewrite NoDup_cons. intros [Hnot Hnd] Hin.
    apply elem_of_cons in Hin as [[= -> ->]|Hin].
    + by rewrite decide_True.
    + rewrite decide_False; [auto|].
      intros ->. apply Hnot. apply list_elem_of_fmap. by exists (k0, v).
Qed.

Lemma keys_set_Some k v v0 d :
  Dict.get k d = Some v0 → Dict.keys (Dict.set k v d) = Dict.keys d.
Proof.
  unfold Dict.keys. induction d as [|[k' v'] d IH]; simpl; [done|].
  destruct (decide (k = k')) as [->|Hne]; simpl; [done|].
  intros Hg. f_equal. by apply IH.
Qed.

Lemma keys_set_None k v d :
  Dict.get k d = None → Dict.keys (Dict.set k v d) = Dict.keys d ++ [k].
Proof.
  unfold Dict.keys. induction d as [|[k' v'] d IH]; simpl; [done|].
  destruct (decide (k = k')) as [->|Hne]; simpl; [done|].
  intros Hg. f_equal. by apply IH.
Qed.

Lemma NoDup_keys_set k v d :
  NoDup (Dict.keys d) → NoDup (Dict.keys (Dict.set k v d)).
Proof.
  intros Hnd. destruct (Dict.get k d) as [v0|] eqn:Hg.
  - by rewrite (keys_set_Some _ _ _ _ Hg).
  - rewrite (keys_set_None _ _ _ Hg). apply NoDup_app. split_and!; [done| |].
    + intros x Hx ->%list_elem_of_singleton. by apply get_None_keys in Hg.
    + apply NoDup_singleton.
Qed.

Lemma get_set k k' v d :
  Dict.get k' (Dict.set k v d)
  = if decide (k = k') then Some v else Dict.get k' d.
Proof.
  destruct (decide (k = k')) as [->|Hne];
    [apply get_set_eq | by apply get_set_ne].
Qed.
End DictFacts.

(** ** Ingestion *)

Lemma bind_Ok {A B} (m : result A) (f : A → result B) (b : B) :
  m ≫= f = Ok b → ∃ a, m = Ok a ∧ f a = Ok b.
Proof. destruct m as [a|e]; [by exists a | done]. Qed.

Lemma fmap_Ok {A B} (m : result A) (f : A → B) (b : B) :
  f <$> m = Ok b → ∃ a, m = Ok a ∧ b = f a.
Proof. destruct m as [a|e]; [intros [= <-]; by exists a | done]. Qed.

(** An invariant of a loop body that may raise holds after the loop. *)
Lemma foldlM_inv {A B} (P : A → Prop) (f : A → B → result A) l :
  (∀ a b a', P a → f a b = Ok a' → P a') →
  ∀ a a', P a → foldlM f a l = Ok a' → P a'.
Proof.
  intros Hstep. induction l as [|b l IH]; intros a a' Ha; simpl.
  - by intros [= <-].
  - intros (a1 & Hf & Hrest)%bind_Ok. eauto.
Qed.

Lemma field_Ok_value hidx name row v :
  field hidx name row = Ok v → field_value hidx name row = v.
Proof. unfold field_value. by intros ->. Qed.

Lemma sniff_headers_not_pending row :
  sniff_headers row ≠ EMPTY_PENDING_HEADER.
Proof.
  unfold sniff_headers. destruct (_ && _); [done|]. by destruct (_ && _).
Qed.

Section IngestionFacts.
Context `{PyInt} `{CsvSource}.

(** What a PRIMARY data row does to the tote it names. *)
Lemma primary_fields_spec hidx row t t' :
  primary_fields hidx row t = Ok t' →
  Tote.tote_id t' = Tote.tote_id t
  ∧ Tote.children t' = Tote.children t
  ∧ Tote.title t' = str_or (Tote.title t) (field_value hidx "TOTE TITLE" row)
  ∧ Tote.location t'
    = str_or (Tote.location t) (field_value hidx "TOTE LOCATION" row)
  ∧ Tote.qrdata t'
    = (if truthy_opt (Tote.qrdata t) then Tote.qrdata t
       else or_None (field_value hidx "QRDATA" row))
  ∧ Tote.parent_id t'
    = (if truthy (parent_of hidx row) then Some (parent_of hidx row)
       else Tote.parent_id t)
  ∧ Tote.items t'
    = Tote.items
        (Tote.add_item t (field_value hidx "ITEM TITLE" row)
           (field_value hidx "ITEM DESCRIPTION" row)
           (Some (field_value hidx "ITEM QUANTITY" row))
           (first_image_of (field_value hidx "IMAGES" row))).
Proof.
  unfold primary_fields. intros Hrun.
  apply bind_Ok in Hrun as (ti & Hti & Hrun).
  apply bind_Ok in Hrun as (lo & Hlo & Hrun).
  apply bind_Ok in Hrun as (qr & Hqr & Hrun).
  apply bind_Ok in Hrun as (it & Hit & Hrun).
  apply bind_Ok in Hrun as (de & Hde & Hrun).
  apply bind_Ok in Hrun as (qt & Hqt & Hrun).
  apply bind_Ok in Hrun as (im & Him & Hrun).
  injection Hrun as <-.
  rewrite (field_Ok_value _ _ _ _ Hit), (field_Ok_value _ _ _ _ Hde),
    (field_Ok_value _ _ _ _ Hqt), (field_Ok_value _ _ _ _ Him).
  assert (Hti' : ti = str_or (Tote.title t) (field_value hidx "TOTE TITLE" row)).
  { unfold str_or. destruct (truthy (Tote.title t)).
    - by injection Hti.
    - symmetry. by apply field_Ok_value. }
  assert (Hlo' : lo = str_or (Tote.location t)
                        (field_value hidx "TOTE LOCATION" row)).
  { unfold str_or. simpl in Hlo. destruct (truthy (Tote.location t)).
    - by injection Hlo.
    - symmetry. by apply field_Ok_value. }
  assert (Hqr' : qr = if truthy_opt (Tote.qrdata t) then Tote.qrdata t
                      else or_None (field_value hidx "QRDATA" row)).
  { simpl in Hqr. destruct (truthy_opt (Tote.qrdata t)).
    - by injection Hqr.
    - apply fmap_Ok in Hqr as (v & Hv & ->).
      by rewrite (field_Ok_value _ _ _ _ Hv). }
  subst ti lo qr.
  unfold Tote.add_item.
  destruct (truthy (parent_of hidx row));
    destruct (negb (truthy it) && negb (truthy de)); simpl; done.
Qed.

(** What an EMPTY data row does to the tote it names. *)
Lemma empty_fields_spec hidx row t t' :
  empty_fields hidx row t = Ok t' →
  Tote.tote_id t' = Tote.tote_id t
  ∧ Tote.children t' = Tote.children t
  ∧ Tote.title t' = str_or (Tote.title t) (field_value hidx "TOTE TITLE" row)
  ∧ Tote.location t'
    = str_or (Tote.location t) (field_value hidx "TOTE LOCATION" row)
  ∧ Tote.qrdata t' = Tote.qrdata t
  ∧ Tote.parent_id t' = Tote.parent_id t
  ∧ Tote.items t' = Tote.items t.
Proof.
  unfold empty_fields. intros Hrun.
  apply bind_Ok in Hrun as (ti & Hti & Hrun).
  apply bind_Ok in Hrun as (lo & Hlo & Hrun).
  injection Hrun as <-. simpl in *.
  unfold str_or.
  destruct (truthy (Tote.title t)), (truthy (Tote.location t));
    repeat match goal with
           | Hx : Ok _ = Ok _ |- _ => injection Hx as <-
           | Hx : field _ _ _ = Ok _ |- _ =>
               apply field_Ok_value in Hx; rewrite Hx
           end; done.
Qed.

Lemma ingested_nil : ingested [].
Proof. split; [apply NoDup_nil_2 | done]. Qed.

Lemma ingested_set k t totes :
  ingested totes → Tote.tote_id t = k → Tote.children t = [] →
  ingested (Dict.set k t totes).
Proof.
  intros [Hnd Hall] Hid Hch. split; [by apply NoDup_keys_set|].
  intros k' t'. rewrite get_set. destruct (decide (k = k')) as [->|Hne].
  - by intros [= <-].
  - apply Hall.
Qed.

Lemma get_or_create_get tid totes :
  Dict.get tid (get_or_create tid totes)
  = Some (default (Tote.new tid) (Dict.get tid totes)).
Proof.
  unfold get_or_create. destruct (Dict.get tid totes) as [t|] eqn:Hg.
  - by rewrite Hg.
  - by rewrite get_set_eq.
Qed.

Lemma get_or_create_ne tid k totes :
  tid ≠ k → Dict.get k (get_or_create tid totes) = Dict.get k totes.
Proof.
  intros Hne. unfold get_or_create.
  destruct (Dict.get tid totes); [done | by apply get_set_ne].
Qed.

Lemma ingested_get_or_create tid totes :
  ingested totes → ingested (get_or_create tid totes).
Proof.
  intros Hin. unfold get_or_create.
  destruct (Dict.get tid totes); [done | by apply ingested_set].
Qed.

Lemma primary_row_spec hidx row totes totes' tid :
  tote_id_of hidx row = Some tid →
  primary_row hidx row totes = Ok totes' →
  ∃ t', primary_fields hidx row (default (Tote.new tid) (Dict.get tid totes))
        = Ok t'
        ∧ totes' = Dict.set tid t' (get_or_create tid totes).
Proof.
  unfold primary_row. intros ->. rewrite get_or_create_get. simpl.
  intros (t' & Ht' & [= <-])%bind_Ok. by exists t'.
Qed.

Lemma empty_row_spec hidx row totes totes' :
  empty_row hidx row totes = Ok totes' →
  totes' = totes
  ∨ ∃ tid t t', tote_id_of hidx row = Some tid
                ∧ Dict.get tid totes = Some t
                ∧ empty_fields hidx row t = Ok t'
                ∧ totes' = Dict.set tid t' totes.
Proof.
  unfold empty_row. destruct (tote_id_of hidx row) as [tid|];
    [|intros [= <-]; by left].
  destruct (Dict.get tid totes) as [t|] eqn:Hg; [|intros [= <-]; by left].
  intros (t' & Ht' & [= <-])%bind_Ok. right. by exists tid, t, t'.
Qed.

Lemma default_new_id tid totes :
  ingested totes →
  Tote.tote_id (default (Tote.new tid) (Dict.get tid totes)) = tid
  ∧ Tote.children (default (Tote.new tid) (Dict.get tid totes)) = [].
Proof.
  intros [_ Hall]. destruct (Dict.get tid totes) as [t|] eqn:Hg; simpl.
  - by apply Hall.
  - done.
Qed.

Lemma primary_row_ingested hidx row totes totes' :
  ingested totes → primary_row hidx row totes = Ok totes' → ingested totes'.
Proof.
  intros Hin Hrun. destruct (tote_id_of hidx row) as [tid|] eqn:Hid.
  - destruct (primary_row_spec _ _ _ _ _ Hid Hrun) as (t' & Hf & ->).
    apply primary_fields_spec in Hf as (Hi & Hc & _).
    destruct (default_new_id tid totes Hin) as [Hi0 Hc0].
    apply ingested_set; [by apply ingested_get_or_create | congruence..].
  - unfold primary_row in Hrun. rewrite Hid in Hrun. by injection Hrun as <-.
Qed.

Lemma empty_row_ingested hidx row totes totes' :
  ingested totes → empty_row hidx row totes = Ok totes' → ingested totes'.
Proof.
  intros Hin [->|(tid & t & t' & _ & Hg & Hf & ->)]%empty_row_spec; [done|].
  apply empty_fields_spec in Hf as (Hi & Hc & _).
  destruct Hin as [Hnd Hall]. destruct (Hall _ _ Hg) as [Hi0 Hc0].
  apply ingested_set; [by split | congruence..].
Qed.

(** A row handled in the EMPTY state never adds a key. *)
Lemma empty_row_keys hidx row totes totes' :
  empty_row hidx row totes = Ok totes' → Dict.keys totes' = Dict.keys totes.
Proof.
  intros [->|(tid & t & t' & _ & Hg & _ & ->)]%empty_row_spec; [done|].
  by apply keys_set_Some with t.
Qed.

Lemma process_row_cases st row st' :
  process_row st row = Ok st' →
  totes st' = totes st ∨ data_row st row = Ok st'.
Proof.
  unfold process_row. destruct (is_blank row); [intros [= <-]; by left|].
  destruct (is_marker row); [intros [= <-]; by left|].
  destruct (sniff_headers row); try (intros [= <-]; by left);
    (destruct (_ && _); [intros [= <-]; by left | by right]).
Qed.

Lemma data_row_ingested st row st' :
  ingested (totes st) → data_row st row = Ok st' → ingested (totes st').
Proof.
  unfold data_row. intros Hin. destruct (current_mode st).
  - by intros [= <-].
  - intros (d & Hd & ->)%fmap_Ok. simpl. by eapply primary_row_ingested.
  - intros (d & Hd & ->)%fmap_Ok. simpl. by eapply empty_row_ingested.
  - by intros [= <-].
Qed.

Lemma process_row_ingested st row st' :
  ingested (totes st) → process_row st row = Ok st' → ingested (totes st').
Proof.
  intros Hin [->|Hd]%process_row_cases; [done|]. by eapply data_row_ingested.
Qed.

Lemma read_file_ingested totes0 path totes' :
  ingested totes0 → read_file totes0 path = Ok totes' → ingested totes'.
Proof.
  unfold read_file. intros Hin (rows & _ & Hrun)%bind_Ok.
  apply bind_Ok in Hrun as (st & Hst & [= <-]).
  assert (ingested (totes st)) as Hst'.
  { eapply (foldlM_inv (λ st, ingested (totes st))); [| |exact Hst].
    - intros a b a'. apply process_row_ingested.
    - exact Hin. }
  by destruct st.
Qed.

Lemma ingest_ingested paths totes' :
  ingest paths = Ok totes' → ingested totes'.
Proof.
  unfold ingest.
  apply (foldlM_inv ingested); [|apply ingested_nil].
  intros a b a'. apply read_file_ingested.
Qed.
End IngestionFacts.

(** ** Parent and child links *)

Section LinkFacts.
Variable totes0 : Dict.t Tote.t.
Hypothesis Hingested : ingested totes0.

Lemma linking_start : linking totes0 totes0.
Proof.
  split; [done|]. intros k t Hg. exists t.
  destruct Hingested as [_ Hall]. destruct (Hall _ _ Hg) as [_ Hch].
  split_and!; [done | by destruct t | rewrite Hch; apply NoDup_nil_2 |].
  rewrite Hch. intros c Hc. by apply elem_of_nil in Hc.
Qed.

Lemma link_one_linking cur t :
  Dict.get (Tote.tote_id t) totes0 = Some t →
  linking totes0 cur → linking totes0 (link_one cur t).
Proof.
  intros Ht [Hkeys Hall]. unfold link_one.
  destruct (Tote.parent_id t) as [p|] eqn:Hp; [|done].
  destruct (truthy p); [|done].
  destruct (Dict.get p cur) as [parent|] eqn:Hparent; [|done].
  case_bool_decide as Hin; [done|].
  split.
  - by rewrite (keys_set_Some _ _ _ _ Hparent).
  - intros k t1. rewrite get_set. destruct (decide (p = k)) as [<-|Hne].
    + intros [= <-]. destruct (Hall _ _ Hparent) as (t0 & Hg0 & Heq & Hnd & Hch).
      exists t0. simpl. split_and!.
      * done.
      * rewrite Heq. by destruct t0.
      * apply NoDup_app. split_and!; [done| |apply NoDup_singleton].
        by intros x Hx ->%list_elem_of_singleton.
      * intros c [Hc| ->%list_elem_of_singleton]%elem_of_app; [by apply Hch|].
        by exists t.
    + apply Hall.
Qed.

Lemma foldl_link_one_linking ts cur :
  (∀ t, t ∈ ts → Dict.get (Tote.tote_id t) totes0 = Some t) →
  linking totes0 cur → linking totes0 (foldl link_one cur ts).
Proof.
  revert cur. induction ts as [|t ts IH]; intros cur Hts Hcur; simpl; [done|].
  apply IH.
  - intros t' Ht'. apply Hts. by apply list_elem_of_further.
  - apply link_one_linking; [|done]. apply Hts. apply list_elem_of_here.
Qed.

Lemma values_get t :
  t ∈ Dict.values totes0 → Dict.get (Tote.tote_id t) totes0 = Some t.
Proof.
  unfold Dict.values. intros ([k t'] & -> & Hin)%list_elem_of_fmap. simpl.
  destruct Hingested as [Hnd Hall].
  pose proof (elem_get _ _ _ Hnd Hin) as Hg.
  destruct (Hall _ _ Hg) as [-> _]. done.
Qed.

Lemma build_links_linking : linking totes0 (build_links totes0).
Proof.
  unfold build_links. apply foldl_link_one_linking; [|apply linking_start].
  apply values_get.
Qed.
End LinkFacts.

(** ** Claims about ingestion *)

Section IngestionClaims.
Context `{PyInt} `{CsvSource}.

Lemma process_row_data st row :
  is_data_row row = true →
  current_mode st ≠ EMPTY_PENDING_HEADER →
  process_row st row = data_row st row.
Proof.
  unfold is_data_row, process_row.
  intros [[Hb Hm]%andb_prop Hs%bool_decide_eq_true]%andb_prop Hmode.
  apply negb_true_iff in Hb, Hm. rewrite Hb, Hm, Hs.
  by rewrite bool_decide_false.
Qed.
End IngestionClaims.

Section PrimaryRows.
Context `{PyInt} `{CsvSource}.
Variable hidx : gmap pystr nat.
Variable tid : pystr.

Lemma first_nonempty_cons v vs :
  first_nonempty (v :: vs) = if truthy v then Some v else first_nonempty vs.
Proof.
  unfold first_nonempty. rewrite filter_cons.
  destruct (truthy v); by case_decide.
Qed.

Lemma last_nonempty_cons v vs :
  last_nonempty (v :: vs)
  = match last_nonempty vs with
    | Some x => Some x
    | None => if truthy v then Some v else None
    end.
Proof.
  unfold last_nonempty. rewrite filter_cons.
  destruct (truthy v); case_decide; try done.
  - rewrite last_cons. by destruct (last _).
  - by destruct (last _).
Qed.

(** A PRIMARY data row for [tid], from the tote found (or made) for it. *)
Lemma primary_step st row st' :
  current_mode st = PRIMARY → header_index st = hidx →
  is_data_row row = true → tote_id_of hidx row = Some tid →
  process_row st row = Ok st' →
  ∃ t', primary_fields hidx row
          (default (Tote.new tid) (Dict.get tid (totes st))) = Ok t'
        ∧ st' = Reader PRIMARY hidx
                  (Dict.set tid t' (get_or_create tid (totes st))).
Proof.
  intros Hmode Hh Hdata Hid.
  rewrite process_row_data; [|done|by rewrite Hmode].
  unfold data_row. rewrite Hmode, Hh.
  intros (d & Hd & ->)%fmap_Ok.
  destruct (primary_row_spec _ _ _ _ _ Hid Hd) as (t' & Hf & ->). by exists t'.
Qed.

(** A PRIMARY data row for another container, or for none, leaves the
    entry of [tid] alone. *)
Lemma primary_step_other st row st' :
  current_mode st = PRIMARY → header_index st = hidx →
  is_data_row row = true → tote_id_of hidx row ≠ Some tid →
  process_row st row = Ok st' →
  current_mode st' = PRIMARY ∧ header_index st' = hidx
  ∧ Dict.get tid (totes st') = Dict.get tid (totes st).
Proof.
  intros Hmode Hh Hdata Hid.
  rewrite process_row_data; [|done|by rewrite Hmode].
  unfold data_row. rewrite Hmode, Hh.
  intros (d & Hd & ->)%fmap_Ok. simpl. split_and!; [done..|].
  destruct (tote_id_of hidx row) as [tid'|] eqn:Hid'.
  - destruct (primary_row_spec _ _ _ _ _ Hid' Hd) as (t' & _ & ->).
    assert (tid' ≠ tid) by congruence.
    by rewrite get_set_ne, get_or_create_ne.
  - unfold primary_row in Hd. rewrite Hid' in Hd. by injection Hd as <-.
Qed.

(** Data rows of a PRIMARY section met when [tid] is already in the
    table. *)
Lemma primary_rows_existing rows : ∀ st st' t0,
  current_mode st = PRIMARY → header_index st = hidx →
  Forall (λ row, is_data_row row = true) rows →
  Dict.get tid (totes st) = Some t0 →
  Tote.qrdata t0 ≠ Some [] →
  foldlM process_row st rows = Ok st' →
  let mine := rows_of_tote hidx tid rows in
  ∃ t, Dict.get tid (totes st') = Some t
    ∧ Tote.title t
      = default [] (first_nonempty
          (Tote.title t0 :: map (field_value hidx "TOTE TITLE") mine))
    ∧ Tote.location t
      = default [] (first_nonempty
          (Tote.location t0 :: map (field_value hidx "TOTE LOCATION") mine))
    ∧ Tote.qrdata t
      = (if truthy_opt (Tote.qrdata t0) then Tote.qrdata t0
         else first_nonempty (map (field_value hidx "QRDATA") mine))
    ∧ Tote.parent_id t
      = match last_nonempty (map (parent_of hidx) mine) with
        | Some p => Some p
        | None => Tote.parent_id t0
        end.
Proof.
  unfold rows_of_tote.
  induction rows as [|row rows IH]; intros st st' t0 Hmode Hh Hrows Hg Hqr.
  - simpl. intros [= <-]. exists t0. split_and!; try done.
    + rewrite first_nonempty_cons. unfold first_nonempty. simpl.
      by destruct (Tote.title t0).
    + rewrite first_nonempty_cons. unfold first_nonempty. simpl.
      by destruct (Tote.location t0).
    + unfold first_nonempty. simpl.
      destruct (Tote.qrdata t0) as [[|c q]|]; done.
  - simpl. intros (st1 & Hstep & Hrest)%bind_Ok.
    apply Forall_cons in Hrows as [Hrow Hrows].
    destruct (decide (tote_id_of hidx row = Some tid)) as [Hid|Hid].
    + rewrite filter_cons_True by done.
      destruct (primary_step _ _ _ Hmode Hh Hrow Hid Hstep) as (t1 & Hf & ->).
      rewrite Hg in Hf. simpl in Hf.
      apply primary_fields_spec in Hf as (_ & _ & Hti & Hlo & Hq & Hp & _).
      assert (Tote.qrdata t1 ≠ Some []) as Hqr1.
      { rewrite Hq. destruct (truthy_opt (Tote.qrdata t0)); [done|].
        unfold or_None. by destruct (field_value hidx "QRDATA" row). }
      destruct (IH (Reader PRIMARY hidx _) st' t1 eq_refl eq_refl Hrows
                  (get_set_eq _ _ _) Hqr1 Hrest)
        as (t & Hgt & Gti & Glo & Gq & Gp).
      exists t. split; [done|]. rewrite Gti, Glo, Gq, Gp, Hti, Hlo, Hq, Hp.
      simpl map. rewrite !first_nonempty_cons, last_nonempty_cons.
      unfold str_or, or_None. split_and!.
      * destruct (truthy (Tote.title t0)) eqn:E; [by rewrite E|].
        destruct (truthy (field_value hidx "TOTE TITLE" row)) eqn:E';
          by rewrite ?E'.
      * destruct (truthy (Tote.location t0)) eqn:E; [by rewrite E|].
        destruct (truthy (field_value hidx "TOTE LOCATION" row)) eqn:E';
          by rewrite ?E'.
      * destruct (truthy_opt (Tote.qrdata t0)) eqn:E; [by rewrite E|].
        destruct (truthy (field_value hidx "QRDATA" row)) eqn:E'; simpl;
          by rewrite ?E'.
      * destruct (last_nonempty (map (parent_of hidx) _)); [done|].
        by destruct (truthy (parent_of hidx row)).
    + rewrite filter_cons_False by done.
      destruct (primary_step_other _ _ _ Hmode Hh Hrow Hid Hstep)
        as (Hmode1 & Hh1 & Hg1).
      rewrite Hg in Hg1. by apply (IH st1 st' t0).
Qed.

(** C2. Among the data rows of a PRIMARY section, those that name one
    container, read from the first row that names it: the title, the
    location and the QR payload of the container are the first non-empty
    values of their columns in these rows, its parent id the last
    non-empty value of its column. *)
Theorem primary_rows_first_and_last_wins st rows st' :
  current_mode st = PRIMARY → header_index st = hidx →
  Dict.get tid (totes st) = None →
  Forall (λ row, is_data_row row = true) rows →
  foldlM process_row st rows = Ok st' →
  let mine := rows_of_tote hidx tid rows in
  mine ≠ [] →
  ∃ t, Dict.get tid (totes st') = Some t
    ∧ Tote.title t
      = default [] (first_nonempty (map (field_value hidx "TOTE TITLE") mine))
    ∧ Tote.location t
      = default []
          (first_nonempty (map (field_value hidx "TOTE LOCATION") mine))
    ∧ Tote.qrdata t = first_nonempty (map (field_value hidx "QRDATA") mine)
    ∧ Tote.parent_id t = last_nonempty (map (parent_of hidx) mine).
Proof.
  unfold rows_of_tote. revert st.
  induction rows as [|row rows IH]; intros st Hmode Hh Hfresh Hrows;
    [done|].
  simpl. intros (st1 & Hstep & Hrest)%bind_Ok.
  apply Forall_cons in Hrows as [Hrow Hrows].
  destruct (decide (tote_id_of hidx row = Some tid)) as [Hid|Hid].
  - rewrite filter_cons_True by done. intros _.
    destruct (primary_step _ _ _ Hmode Hh Hrow Hid Hstep) as (t1 & Hf & ->).
    rewrite Hfresh in Hf. simpl in Hf.
    apply primary_fields_spec in Hf as (_ & _ & Hti & Hlo & Hq & Hp & _).
    simpl in Hti, Hlo, Hq, Hp.
    assert (Tote.qrdata t1 ≠ Some []) as Hqr1.
    { rewrite Hq. unfold or_None. by destruct (field_value hidx "QRDATA" row). }
    destruct (primary_rows_existing rows (Reader PRIMARY hidx _) st' t1
                eq_refl eq_refl Hrows (get_set_eq _ _ _) Hqr1 Hrest)
      as (t & Hgt & Gti & Glo & Gq & Gp).
    unfold rows_of_tote in Gti, Glo, Gq, Gp.
    exists t. split; [done|]. rewrite Gti, Glo, Gq, Gp, Hti, Hlo, Hq, Hp.
    simpl map. rewrite !first_nonempty_cons, last_nonempty_cons.
    unfold str_or, or_None. simpl. split_and!.
    + destruct (truthy (field_value hidx "TOTE TITLE" row)) eqn:E;
        by rewrite ?E.
    + destruct (truthy (field_value hidx "TOTE LOCATION" row)) eqn:E;
        by rewrite ?E.
    + destruct (truthy (field_value hidx "QRDATA" row)) eqn:E; simpl;
        by rewrite ?E.
    + destruct (last_nonempty (map (parent_of hidx) _)); [done|].
      by destruct (truthy (parent_of hidx row)).
  - rewrite filter_cons_False by done.
    destruct (primary_step_other _ _ _ Hmode Hh Hrow Hid Hstep)
      as (Hmode1 & Hh1 & Hg1).
    rewrite Hfresh in Hg1. by apply (IH st1).
Qed.
End PrimaryRows.

(** C2 on three rows for T1 with a row for T2 between them. *)
Lemma primary_rows_first_and_last_wins_witness :
  let hidx := make_header_index Demo.header in
  let rows := Examples.rows_for_T1 in
  ∃ st' t,
    @foldlM _ _ (@process_row Demo.demo_int) (Reader PRIMARY hidx []) rows
    = Ok st'
    ∧ Dict.get (lit "T1") (totes st') = Some t
    ∧ Tote.title t = lit "Box" ∧ Tote.location t = lit "shelf"
    ∧ Tote.qrdata t = Some (lit "qr") ∧ Tote.parent_id t = Some (lit "T8").
Proof.
  intros hidx rows.
  destruct (@primary_rows_first_and_last_wins Demo.demo_int hidx (lit "T1")
              (Reader PRIMARY hidx []) rows
              (Reader PRIMARY hidx
                 (match @foldlM _ _ (@process_row Demo.demo_int)
                          (Reader PRIMARY hidx []) rows with
                  | Ok s => totes s
                  | Raise _ => []
                  end)))
    as (t & Hg & Hti & Hlo & Hq & Hp).
  - reflexivity.
  - reflexivity.
  - reflexivity.
  - repeat constructor.
  - vm_compute. reflexivity.
  - vm_compute. discriminate.
  - eexists _, t. split; [vm_compute; reflexivity|].
    split; [exact Hg|]. rewrite Hti, Hlo, Hq, Hp.
    split_and!; vm_compute; reflexivity.
Defined.

Section MissingColumns.
Context `{PyInt} `{CsvSource}.

Lemma field_value_absent hidx (name : string) row c0 :
  hidx !! lit name = None → row !! 0%nat = Some c0 →
  field_value hidx name row = strip c0.
Proof.
  unfold field_value, field, subscript. intros -> Hrow. simpl.
  by rewrite Hrow.
Qed.

(** C10, corrected. A PRIMARY data row is passed over when its TOTE ID
    cannot be read; otherwise its container is in the table afterwards,
    and a column of TOTE TITLE, TOTE LOCATION, QRDATA, ITEM TITLE,
    ITEM DESCRIPTION, ITEM QUANTITY or IMAGES that the header index lacks
    is read from the first cell of the row, whereas a lacking
    PARENT TOTE ID reads as empty and leaves the parent id as it was. *)
Theorem primary_row_missing_columns hidx row totes :
  (tote_id_of hidx row = None → primary_row hidx row totes = Ok totes)
  ∧ ∀ tid totes',
      tote_id_of hidx row = Some tid →
      primary_row hidx row totes = Ok totes' →
      let t0 := default (Tote.new tid) (Dict.get tid totes) in
      ∃ c0 t item_title item_desc qty_raw images_field,
        row !! 0%nat = Some c0
        ∧ Dict.get tid totes' = Some t
        ∧ (hidx !! lit "TOTE TITLE" = None →
           Tote.title t = str_or (Tote.title t0) (strip c0))
        ∧ (hidx !! lit "TOTE LOCATION" = None →
           Tote.location t = str_or (Tote.location t0) (strip c0))
        ∧ (hidx !! lit "QRDATA" = None →
           Tote.qrdata t = if truthy_opt (Tote.qrdata t0) then Tote.qrdata t0
                           else or_None (strip c0))
        ∧ (hidx !! lit "PARENT TOTE ID" = None →
           Tote.parent_id t = Tote.parent_id t0)
        ∧ Tote.items t
          = Tote.items (Tote.add_item t0 item_title item_desc (Some qty_raw)
                          (first_image_of images_field))
        ∧ (hidx !! lit "ITEM TITLE" = None → item_title = strip c0)
        ∧ (hidx !! lit "ITEM DESCRIPTION" = None → item_desc = strip c0)
        ∧ (hidx !! lit "ITEM QUANTITY" = None → qty_raw = strip c0)
        ∧ (hidx !! lit "IMAGES" = None → images_field = strip c0).
Proof.
  split.
  - unfold primary_row. by intros ->.
  - intros tid totes' Hid Hrun t0.
    destruct (primary_row_spec _ _ _ _ _ Hid Hrun) as (t & Hf & ->).
    apply primary_fields_spec in Hf as (_ & _ & Hti & Hlo & Hq & Hp & Hit).
    assert (∃ c0, row !! 0%nat = Some c0) as [c0 Hc0].
    { unfold tote_id_of in Hid. destruct (hidx !! lit "TOTE ID") as [i|]; [|done].
      simpl in Hid. destruct row as [|c0 row]; [|by exists c0].
      by rewrite lookup_nil in Hid. }
    exists c0, t, (field_value hidx "ITEM TITLE" row),
      (field_value hidx "ITEM DESCRIPTION" row),
      (field_value hidx "ITEM QUANTITY" row), (field_value hidx "IMAGES" row).
    split_and!; try done.
    + apply get_set_eq.
    + intros Habs. by rewrite Hti, (field_value_absent _ _ _ _ Habs Hc0).
    + intros Habs. by rewrite Hlo, (field_value_absent _ _ _ _ Habs Hc0).
    + intros Habs. by rewrite Hq, (field_value_absent _ _ _ _ Habs Hc0).
    + intros Habs. rewrite Hp. unfold parent_of. by rewrite Habs.
    + intros Habs. by apply field_value_absent.
    + intros Habs. by apply field_value_absent.
    + intros Habs. by apply field_value_absent.
    + intros Habs. by apply field_value_absent.
Qed.
End MissingColumns.

(** C10 does not hold as worded for PARENT TOTE ID: under a header
    without that column the first cell ("home") becomes the title, but no
    parent id is recorded. *)
Lemma parent_column_absent_not_first_cell :
  ∃ model t,
    @read_csvs Demo.demo_int Examples.renamed_csv [lit "a.csv"] = Ok model
    ∧ make_header_index Examples.renamed_header !! lit "PARENT TOTE ID" = None
    ∧ make_header_index Examples.renamed_header !! lit "TOTE TITLE" = None
    ∧ Examples.renamed_row !! 0%nat = Some (lit "home")
    ∧ Dict.get (lit "T1") model = Some t
    ∧ Tote.title t = lit "home"
    ∧ Tote.parent_id t = None
    ∧ Tote.parent_id t ≠ Some (lit "home").
Proof.
  eexists _, _. split; [vm_compute; reflexivity|].
  split_and!; try (vm_compute; reflexivity). discriminate.
Qed.

(** C10 on the row under the header with two renamed columns. *)
Lemma primary_row_missing_columns_witness :
  let hidx := make_header_index Examples.renamed_header in
  ∃ totes' t,
    @primary_row Demo.demo_int hidx Examples.renamed_row [] = Ok totes'
    ∧ Dict.get (lit "T1") totes' = Some t
    ∧ Tote.title t = lit "home" ∧ Tote.parent_id t = None.
Proof.
  intros hidx.
  destruct (proj2 (@primary_row_missing_columns Demo.demo_int hidx
                     Examples.renamed_row [])
              (lit "T1")
              (match @primary_row Demo.demo_int hidx Examples.renamed_row []
               with Ok d => d | Raise _ => [] end))
    as (c0 & t & it & de & qt & im & Hc0 & Hg & Hti & _ & _ & Hp & _).
  - vm_compute. reflexivity.
  - vm_compute. reflexivity.
  - eexists _, t. split; [vm_compute; reflexivity|]. split; [exact Hg|].
    injection Hc0 as <-. split.
    + rewrite Hti; [reflexivity | vm_compute; reflexivity].
    + rewrite Hp; [reflexivity | vm_compute; reflexivity].
Defined.

(** ** Claims about the record model *)

(** C3, corrected. [add_item] either adds nothing or appends one item;
    the quantity it stores is 1 when the quantity argument is missing,
    empty, a single space, or rejected by [int], and otherwise the integer
    [int] returns, whatever its sign. *)
Theorem add_item_quantity `{PyInt} self title description quantity image_url :
  let self' := Tote.add_item self title description quantity image_url in
  Tote.items self' = Tote.items self
  ∨ ∃ it, Tote.items self' = Tote.items self ++ [it]
      ∧ (quantity = None ∨ quantity = Some [] ∨ quantity = Some space
         ∨ (∃ q, quantity = Some q ∧ py_int q = None) →
         ToteItem.quantity it = 1)
      ∧ (∀ q n, quantity = Some q → q ≠ [] → q ≠ space →
                py_int q = Some n → ToteItem.quantity it = n).
Proof.
  unfold Tote.add_item.
  destruct (negb (truthy title) && negb (truthy description)); [by left|].
  right. eexists. split; [reflexivity|]. simpl. unfold Tote.parse_quantity.
  split.
  - intros [->|[->|[->|(q & -> & Hq)]]]; try done.
    case_bool_decide; [done|]. by rewrite Hq.
  - intros q n -> Hne Hsp Hq. rewrite bool_decide_false; [by rewrite Hq|].
    by intros [?|?].
Qed.

(** C3 does not hold as worded: the quantity text "0" is stored as 0. *)
Lemma add_item_quantity_not_positive :
  ∃ it,
    Tote.items (@Tote.add_item Demo.demo_int (Tote.new (lit "T1"))
                  (lit "Widget") [] (Some (lit "0")) None) = [it]
    ∧ ¬ (0 < ToteItem.quantity it).
Proof. eexists. split; [vm_compute; reflexivity|]. simpl. lia. Qed.

(** C3 on a quantity that is not a number. *)
Lemma add_item_quantity_witness :
  ∃ it,
    Tote.items (@Tote.add_item Demo.demo_int (Tote.new (lit "T1"))
                  (lit "Widget") [] (Some (lit "x3")) None) = [it]
    ∧ ToteItem.quantity it = 1.
Proof.
  destruct (@add_item_quantity Demo.demo_int (Tote.new (lit "T1"))
              (lit "Widget") [] (Some (lit "x3")) None)
    as [Hnone|(it & Hit & Hone & _)].
  - vm_compute in Hnone. discriminate Hnone.
  - exists it. split; [exact Hit|]. apply Hone. right; right; right.
    exists (lit "x3"). split; reflexivity.
Defined.

(** ** Claims about the links *)

Section LinkClaims.
Context `{PyInt} `{CsvSource}.

(** C7. In the model returned by [read_csvs] every child id listed by a
    container is the key of a container whose parent id is that
    container's id; the links add no key to the table that the rows
    built, so a container whose parent id names no container is listed
    nowhere; and no list of children repeats an id. *)
Theorem read_csvs_links paths model :
  read_csvs paths = Ok model →
  ∃ pre, ingest paths = Ok pre
    ∧ Dict.keys model = Dict.keys pre
    ∧ (∀ k C, Dict.get k model = Some C →
         Tote.tote_id C = k
         ∧ NoDup (Tote.children C)
         ∧ ∀ c, c ∈ Tote.children C →
                ∃ T, Dict.get c model = Some T ∧ Tote.parent_id T = Some k)
    ∧ (∀ k T p, Dict.get k model = Some T → Tote.parent_id T = Some p →
         Dict.get p model = None →
         ∀ k' C, Dict.get k' model = Some C → k ∉ Tote.children C).
Proof.
  unfold read_csvs. intros (pre & Hpre & ->)%fmap_Ok. exists pre.
  split; [done|]. pose proof (ingest_ingested _ _ Hpre) as Hin.
  destruct (build_links_linking pre Hin) as [Hkeys Hall].
  assert (Hparent : ∀ k t0, Dict.get k pre = Some t0 →
            ∃ t, Dict.get k (build_links pre) = Some t
                 ∧ Tote.parent_id t = Tote.parent_id t0).
  { intros k t0 Hg0.
    destruct (Dict.get k (build_links pre)) as [t|] eqn:Hg.
    - destruct (Hall _ _ Hg) as (t0' & Hg0' & Heq & _).
      exists t. split; [done|]. rewrite Heq. simpl. congruence.
    - apply get_None_keys in Hg. rewrite Hkeys in Hg.
      apply get_None_keys in Hg. congruence. }
  assert (Hchild : ∀ k C, Dict.get k (build_links pre) = Some C →
            ∀ c, c ∈ Tote.children C →
              ∃ T, Dict.get c (build_links pre) = Some T
                   ∧ Tote.parent_id T = Some k).
  { intros k C Hg c Hc. destruct (Hall _ _ Hg) as (_ & _ & _ & _ & Hch).
    destruct (Hch c Hc) as (tc & Hgc & Hpc).
    destruct (Hparent _ _ Hgc) as (T & HgT & HpT). exists T. split; congruence. }
  split_and!; [done| |].
  - intros k C Hg. destruct (Hall _ _ Hg) as (t0 & Hg0 & Heq & Hnd & _).
    split_and!; [|done|by apply Hchild].
    rewrite Heq. simpl. destruct Hin as [_ Hin]. by destruct (Hin _ _ Hg0).
  - intros k T p Hg Hp Hnone k' C Hg' Hk.
    destruct (Hchild _ _ Hg' _ Hk) as (T' & HgT' & HpT'). congruence.
Qed.
End LinkClaims.

(** C7 on a file that names the child T2 twice and the absent parent T9. *)
Lemma read_csvs_links_witness :
  ∃ model t1 t2,
    @read_csvs Demo.demo_int Examples.nested_csv [lit "a.csv"] = Ok model
    ∧ Dict.get (lit "T1") model = Some t1
    ∧ Tote.children t1 = [lit "T2"]
    ∧ Dict.get (lit "T2") model = Some t2
    ∧ Tote.parent_id t2 = Some (lit "T1")
    ∧ Dict.get (lit "T9") model = None.
Proof.
  destruct (@read_csvs_links Demo.demo_int Examples.nested_csv [lit "a.csv"]
              (match @read_csvs Demo.demo_int Examples.nested_csv [lit "a.csv"]
               with Ok d => d | Raise _ => [] end))
    as (pre & _ & _ & Hall & _).
  - vm_compute. reflexivity.
  - eexists _, _, _. split; [vm_compute; reflexivity|].
    split; [vm_compute; reflexivity|]. split; [reflexivity|].
    split; [vm_compute; reflexivity|]. split; reflexivity.
Defined.

(** ** Words and lines *)

Example strip_demo : strip (lit "  a b ") = lit "a b".
Proof. reflexivity. Qed.

Example split_demo : split (lit " ab  c ") = [lit "ab"; lit "c"].
Proof. reflexivity. Qed.

Section WordFacts.
Implicit Types (s w cur : pystr) (ws : list pystr).

Lemma split_from_nonspace w : ∀ cur s,
  Forall (λ c, isspace c = false) w →
  split_from cur (w ++ s) = split_from (cur ++ w) s.
Proof.
  induction w as [|c w IH]; intros cur s Hw; simpl.
  - by rewrite app_nil_r.
  - apply Forall_cons in Hw as [Hc Hw]. rewrite Hc, IH by done.
    by rewrite <- app_assoc.
Qed.

Lemma split_from_words s : ∀ cur,
  Forall (λ c, isspace c = false) cur →
  Forall is_word (split_from cur s).
Proof.
  induction s as [|c s IH]; intros cur Hcur; simpl.
  - destruct cur as [|x cur]; [constructor|].
    constructor; [|constructor]. by split.
  - destruct (isspace c) eqn:Hc.
    + destruct cur as [|x cur]; [by apply IH|].
      constructor; [by split | by apply IH].
    + apply IH. apply Forall_app. split; [done|]. by constructor.
Qed.

Lemma split_words s : Forall is_word (split s).
Proof. apply split_from_words. constructor. Qed.

Lemma split_blank s : Forall (λ c, isspace c = true) s → split s = [].
Proof.
  unfold split. induction s as [|c s IH]; intros Hs; simpl; [done|].
  apply Forall_cons in Hs as [-> Hs]. by apply IH.
Qed.

Lemma split_join ws : Forall is_word ws → split (join space ws) = ws.
Proof.
  unfold split. induction ws as [|w ws IH]; intros Hws; [done|].
  apply Forall_cons in Hws as [[Hne Hw] Hws].
  destruct ws as [|w2 ws].
  - simpl. rewrite <- (app_nil_r w) at 1. rewrite split_from_nonspace by done.
    simpl. by destruct w.
  - change (join space (w :: w2 :: ws))
      with (w ++ space ++ join space (w2 :: ws)).
    rewrite split_from_nonspace by done. simpl.
    destruct w as [|c w]; [done|]. simpl. f_equal. by apply IH.
Qed.

Lemma drop_while_word p s c :
  p c = false → drop_while p (c :: s) = c :: s.
Proof. intros Hc. simpl. by rewrite Hc. Qed.

Lemma join_last ws : ∀ w,
  Forall is_word (w :: ws) →
  ∃ b r, isspace b = false ∧ join space (w :: ws) = r ++ [b].
Proof.
  induction ws as [|w2 ws IH]; intros w Hws.
  - apply Forall_cons in Hws as [[Hne Hw] _]. simpl.
    destruct (exists_last Hne) as (r & b & ->).
    apply Forall_app in Hw as [_ Hb]. apply Forall_cons in Hb as [Hb _].
    eauto.
  - apply Forall_cons in Hws as [_ Hws].
    destruct (IH _ Hws) as (b & r & Hb & Hj).
    change (join space (w :: w2 :: ws))
      with (w ++ space ++ join space (w2 :: ws)).
    rewrite Hj. exists b, (w ++ space ++ r). split; [done|].
    by rewrite <- !app_assoc.
Qed.

Lemma join_first w ws :
  Forall is_word (w :: ws) →
  ∃ a r, isspace a = false ∧ join space (w :: ws) = a :: r.
Proof.
  intros [[Hne Hw] _]%Forall_cons.
  destruct w as [|a w]; [done|]. apply Forall_cons in Hw as [Ha _].
  destruct ws; simpl; eauto.
Qed.

(** Stripping a line of words changes nothing. *)
Lemma strip_join ws : Forall is_word ws → strip (join space ws) = join space ws.
Proof.
  intros Hws. destruct ws as [|w ws]; [done|].
  destruct (join_first _ _ Hws) as (a & r & Ha & Hj).
  destruct (join_last _ _ Hws) as (b & r' & Hb & Hj').
  unfold strip, strip_by. rewrite Hj, drop_while_word by done.
  rewrite <- Hj, Hj', rev_app_distr. simpl. rewrite Hb.
  change (b :: rev r') with (rev [b] ++ rev r').
  by rewrite <- rev_app_distr, rev_involutive.
Qed.
End WordFacts.

(** ** Claims about the text helpers *)

Section WrapFacts.
Context `{FontMetrics}.
Variables (max_width : Q) (font_name : pystr) (font_size : Z).

Local Abbreviation group_ok := (good_group max_width font_name font_size).
Local Abbreviation cur_ok := (good_cur max_width font_name font_size).
Local Abbreviation is_packed := (packed max_width font_name font_size).

Lemma flush_groups groups cur :
  flush (map (join space) groups) cur
  = map (join space) (groups ++ match cur with [] => [] | _ => [cur] end).
Proof.
  destruct cur; simpl; [by rewrite app_nil_r | by rewrite map_app].
Qed.

Lemma wrap_step_inv groups cur w :
  Forall group_ok groups → cur_ok cur → is_word w →
  ∃ groups' cur',
    wrap_step max_width font_name font_size (map (join space) groups, cur) w
    = (map (join space) groups', cur')
    ∧ Forall group_ok groups' ∧ cur_ok cur'
    ∧ concat groups' ++ cur' = concat groups ++ cur ++ [w].
Proof.
  intros Hg [Hcw Hcp] Hw. unfold wrap_step.
  assert (Forall is_word (cur ++ [w])) as Hcw'.
  { apply Forall_app. split; [done | by constructor]. }
  rewrite strip_join by done.
  destruct (Qle_bool _ max_width) eqn:Hfit.
  - exists groups, (cur ++ [w]). split_and!; try done.
    split; [done|]. right. right. by apply Qle_bool_iff.
  - rewrite flush_groups.
    exists (groups ++ match cur with [] => [] | _ => [cur] end), [w].
    split_and!; [done| | |].
    + apply Forall_app. split; [done|].
      destruct cur as [|c cur]; [constructor|].
      constructor; [|constructor]. split_and!; [done..|].
      by destruct Hcp.
    + split; [by constructor|]. right. left. by exists w.
    + rewrite concat_app. destruct cur; simpl.
      * by rewrite app_nil_r.
      * by rewrite !app_nil_r, <- app_assoc.
Qed.

Lemma wrap_fold_inv words : ∀ groups cur,
  Forall is_word words → Forall group_ok groups → cur_ok cur →
  ∃ groups' cur',
    foldl (wrap_step max_width font_name font_size)
      (map (join space) groups, cur) words
    = (map (join space) groups', cur')
    ∧ Forall group_ok groups' ∧ cur_ok cur'
    ∧ concat groups' ++ cur' = concat groups ++ cur ++ words.
Proof.
  induction words as [|w words IH]; intros groups cur Hws Hg Hc.
  - exists groups, cur. by rewrite app_nil_r.
  - apply Forall_cons in Hws as [Hw Hws].
    destruct (wrap_step_inv groups cur w Hg Hc Hw)
      as (g1 & c1 & Hstep & Hg1 & Hc1 & Hcat1).
    destruct (IH g1 c1 Hws Hg1 Hc1) as (g2 & c2 & Hfold & Hg2 & Hc2 & Hcat2).
    exists g2, c2. split_and!; [|done..|].
    + rewrite <- Hfold, <- Hstep. reflexivity.
    + rewrite Hcat2, app_assoc, Hcat1. by rewrite <- !app_assoc.
Qed.

(** The lines of [wrap_text] are the joined groups of a partition of the
    words of the text. *)
Lemma wrap_text_groups text :
  ∃ groups,
    Forall group_ok groups ∧ concat groups = split text
    ∧ wrap_text text max_width font_name font_size
      = match groups with [] => [[]] | _ => map (join space) groups end.
Proof.
  unfold wrap_text.
  destruct (wrap_fold_inv (split text) [] [] (split_words text))
    as (g & c & Hfold & Hg & Hc & Hcat); [constructor|by split; [|left]|].
  simpl in Hfold, Hcat. rewrite Hfold, flush_groups.
  exists (g ++ match c with [] => [] | _ => [c] end). split_and!.
  - apply Forall_app. split; [done|]. destruct c as [|w c]; [constructor|].
    destruct Hc as [Hcw [?|Hcp]]; [done|].
    constructor; [|constructor]. by split_and!.
  - rewrite concat_app, <- Hcat. destruct c; simpl; by rewrite ?app_nil_r.
  - by destruct (g ++ _).
Qed.

Lemma concat_split_join groups :
  Forall group_ok groups →
  concat (map split (map (join space) groups)) = concat groups.
Proof.
  induction 1 as [|g groups (_ & Hg & _) _ IH]; simpl; [done|].
  by rewrite split_join, IH.
Qed.

Lemma word_in_join w g :
  w ∈ g → ∃ a c, join space g = a ++ w ++ c.
Proof.
  induction g as [|w0 g IH]; intros Hin; [by apply elem_of_nil in Hin|].
  apply elem_of_cons in Hin as [->|Hin].
  - destruct g as [|w1 g]; simpl.
    + exists [], []. by rewrite app_nil_r.
    + by exists [], (space ++ join space (w1 :: g)).
  - destruct (IH Hin) as (a & c & Hj). destruct g as [|w1 g].
    + by apply elem_of_nil in Hin.
    + change (join space (w0 :: w1 :: g))
        with (w0 ++ space ++ join space (w1 :: g)).
      rewrite Hj. exists (w0 ++ space ++ a), c. by rewrite <- !app_assoc.
Qed.

(** C4. [wrap_text] never returns an empty sequence; blank text gives
    the single empty line; the words of the lines, in order, are the
    words of the text; and, for a width measure that does not shrink
    when characters are inserted, a word wider than the bound is a line
    of its own. *)
Theorem wrap_text_lines text :
  let lines := wrap_text text max_width font_name font_size in
  lines ≠ []
  ∧ (Forall (λ c, isspace c = true) text → lines = [[]])
  ∧ concat (map split lines) = split text
  ∧ ((∀ a b c, (stringWidth (a ++ c) font_name font_size
                <= stringWidth (a ++ b ++ c) font_name font_size)%Q) →
     ∀ line w, line ∈ lines → w ∈ split line →
       ¬ (stringWidth w font_name font_size <= max_width)%Q → line = w).
Proof.
  destruct (wrap_text_groups text) as (groups & Hg & Hcat & ->).
  split_and!.
  - by destruct groups.
  - intros Hblank. rewrite (split_blank _ Hblank) in Hcat.
    destruct groups as [|g groups]; [done|].
    apply Forall_cons in Hg as [[Hne _] _]. by destruct g.
  - destruct groups as [|g groups]; [by rewrite <- Hcat|].
    by rewrite concat_split_join.
  - intros Hmono line w Hline Hw Hwide.
    destruct groups as [|g0 groups];
      [by apply list_elem_of_singleton in Hline as ->;
       apply elem_of_nil in Hw|].
    apply list_elem_of_fmap in Hline as (g & -> & Hgin).
    rewrite Forall_forall in Hg. destruct (Hg g Hgin) as (_ & Hgw & Hp).
    rewrite split_join in Hw by done.
    destruct Hp as [[w' ->]|Hfit].
    + by apply list_elem_of_singleton in Hw as ->.
    + destruct Hwide. destruct (word_in_join _ _ Hw) as (a & c & Hj).
      eapply Qle_trans; [|exact Hfit]. rewrite Hj.
      eapply Qle_trans; [apply (Hmono [] a w)|]. simpl.
      rewrite <- (app_nil_r (a ++ w)) at 1.
      eapply Qle_trans; [apply (Hmono (a ++ w) c [])|].
      rewrite app_nil_r, <- app_assoc. apply Qle_refl.
Qed.
End WrapFacts.

Section EllipsizeFacts.
Context `{FontMetrics}.

Lemma ell_search_range fits lo hi :
  (lo ≤ hi)%nat →
  (lo ≤ ell_search fits lo hi)%nat ∧ (ell_search fits lo hi ≤ hi)%nat.
Proof.
  funelim (ell_search fits lo hi); intros Hle; [|lia].
  assert ((lo + hi) / 2 < hi)%nat
    by (apply Nat.Div0.div_lt_upper_bound; lia).
  assert (lo <= (lo + hi) / 2)%nat by (apply Nat.div_le_lower_bound; lia).
  destruct (fits ((lo + hi) / 2)%nat).
  - match goal with IH : _ → _ ∧ _ |- _ => destruct IH; lia end.
  - match goal with IH : _ → _ ∧ _ |- _ => destruct IH; lia end.
Qed.

(** Above its first argument, the search stops right after a prefix
    length that passed the test. *)
Lemma ell_search_passed fits lo hi :
  (lo < ell_search fits lo hi)%nat →
  fits (ell_search fits lo hi - 1)%nat = true.
Proof.
  funelim (ell_search fits lo hi); [|lia].
  assert ((lo + hi) / 2 < hi)%nat
    by (apply Nat.Div0.div_lt_upper_bound; lia).
  assert (lo <= (lo + hi) / 2)%nat by (apply Nat.div_le_lower_bound; lia).
  destruct (fits ((lo + hi) / 2)%nat) eqn:Hmid.
  - intros Hlt.
    destruct (decide ((lo + hi) / 2 + 1
                      < ell_search fits ((lo + hi) / 2 + 1) hi)%nat)
      as [Hgt|Hngt]; [by auto|].
    pose proof (ell_search_range fits ((lo + hi) / 2 + 1)%nat hi).
    replace (ell_search fits ((lo + hi) / 2 + 1) hi - 1)%nat
      with ((lo + hi) / 2)%nat by lia.
    done.
  - auto.
Qed.

(** Below its second argument, the search stops at a prefix length that
    failed the test. *)
Lemma ell_search_failed fits lo hi :
  (lo ≤ hi)%nat → (ell_search fits lo hi < hi)%nat →
  fits (ell_search fits lo hi) = false.
Proof.
  funelim (ell_search fits lo hi); [|lia].
  assert ((lo + hi) / 2 < hi)%nat
    by (apply Nat.Div0.div_lt_upper_bound; lia).
  assert (lo <= (lo + hi) / 2)%nat by (apply Nat.div_le_lower_bound; lia).
  destruct (fits ((lo + hi) / 2)%nat) eqn:Hmid.
  - intros _ Hlt. match goal with IH : _ → _ → _ = false |- _ =>
                                    apply IH; [lia | done] end.
  - intros _ Hlt.
    destruct (decide (ell_search fits lo ((lo + hi) / 2)
                      < (lo + hi) / 2)%nat) as [Hlt'|Hnlt].
    + match goal with IH : _ → _ → _ = false |- _ =>
                        apply IH; [lia | done] end.
    + pose proof (ell_search_range fits lo ((lo + hi) / 2)%nat).
      replace (ell_search fits lo ((lo + hi) / 2))
        with ((lo + hi) / 2)%nat by lia.
      done.
Qed.

Variables (text : pystr) (max_w : Q) (font : pystr) (size : Z).

(** C5. For a bound no smaller than the width of the ellipsis: text that
    fits is returned as it is; otherwise the result is a prefix of the
    text followed by the ellipsis, it fits, and, for a width measure that
    does not shrink when characters are inserted, no longer prefix does
    (the shortest result being the ellipsis alone). *)
Theorem ellipsize_longest_prefix :
  (stringWidth ell font size <= max_w)%Q →
  let r := ellipsize text max_w font size in
  ((stringWidth text font size <= max_w)%Q → r = text)
  ∧ (¬ (stringWidth text font size <= max_w)%Q →
     ∃ n, (n ≤ length text)%nat
       ∧ r = take n text ++ ell
       ∧ (stringWidth r font size <= max_w)%Q
       ∧ ((∀ a b c, (stringWidth (a ++ c) font size
                     <= stringWidth (a ++ b ++ c) font size)%Q) →
          ∀ m, (m ≤ length text)%nat →
            (stringWidth (take m text ++ ell) font size <= max_w)%Q →
            (m ≤ n)%nat)).
Proof.
  intros Hell. unfold ellipsize. split.
  - intros Hfit. apply Qle_bool_iff in Hfit. by rewrite Hfit.
  - intros Hwide.
    destruct (Qle_bool (stringWidth text font size) max_w) eqn:Hb;
      [by apply Qle_bool_iff in Hb|].
    set (fits := ell_fits text max_w font size).
    set (lo := ell_search fits 0 (length text)).
    pose proof (ell_search_range fits 0 (length text) ltac:(lia)) as [_ Hhi].
    fold lo in Hhi.
    replace (Z.to_nat (Z.max (Z.of_nat lo - 1) 0)) with (lo - 1)%nat by lia.
    exists (lo - 1)%nat. split_and!; [lia|done| |].
    + destruct (decide (0 < lo)%nat) as [Hpos|Hzero].
      * pose proof (ell_search_passed fits 0 (length text) Hpos) as Hp.
        by apply Qle_bool_iff in Hp.
      * replace (lo - 1)%nat with 0%nat by lia. by rewrite take_0.
    + intros Hmono m Hm Hfitm.
      destruct (decide (m < lo)%nat) as [?|Hge]; [lia|]. exfalso.
      assert (fits m = true) as Hfm by by apply Qle_bool_iff.
      assert (Hanti : ∀ a b, (a ≤ b)%nat → fits b = true → fits a = true).
      { intros a b Hab Hfb. apply Qle_bool_iff. apply Qle_bool_iff in Hfb.
        eapply Qle_trans; [|exact Hfb].
        rewrite <- (take_drop a (take b text)), take_take, Nat.min_l by done.
        rewrite <- app_assoc. apply Hmono. }
      destruct (decide (lo < length text)%nat) as [Hlt|Hnlt].
      * pose proof (ell_search_failed fits 0 (length text) ltac:(lia) Hlt)
          as Hfail.
        fold lo in Hfail. rewrite (Hanti lo m) in Hfail by (lia || done).
        done.
      * apply Hwide. assert (m = length text) as -> by lia.
        rewrite firstn_all in Hfitm.
        eapply Qle_trans; [|exact Hfitm].
        rewrite <- (app_nil_r text) at 1.
        rewrite <- (app_nil_r (text ++ ell)), <- app_assoc. apply Hmono.
Qed.
End EllipsizeFacts.

(** The fixed-pitch font does not shrink a text when characters are
    inserted. *)
Lemma fixed_pitch_insert (a b c font : pystr) (size : Z) :
  0 <= size →
  (@stringWidth Demo.fixed_pitch (a ++ c) font size
   <= @stringWidth Demo.fixed_pitch (a ++ b ++ c) font size)%Q.
Proof.
  intros Hsize. unfold stringWidth, Demo.fixed_pitch, Qle. simpl.
  rewrite !length_app. nia.
Qed.

(** C4 on a text with a word twice as wide as the bound. *)
Lemma wrap_text_lines_witness :
  let lines :=
    @wrap_text Demo.fixed_pitch (lit "aa  bbbbbbbbbbbb cc d ") 30 (lit "F") 10
  in
  lines = [lit "aa"; lit "bbbbbbbbbbbb"; lit "cc d"]
  ∧ ∀ line, line ∈ lines → lit "bbbbbbbbbbbb" ∈ split line →
            line = lit "bbbbbbbbbbbb".
Proof.
  split; [vm_compute; reflexivity|]. intros line Hline Hw.
  refine (proj2 (proj2 (proj2
            (@wrap_text_lines Demo.fixed_pitch 30 (lit "F") 10
               (lit "aa  bbbbbbbbbbbb cc d "))))
            _ line (lit "bbbbbbbbbbbb") Hline Hw _).
  - intros a b c. apply fixed_pitch_insert. lia.
  - vm_compute. intros Hle. apply Hle. reflexivity.
Defined.

(** C5 on a text of thirteen characters where six fit. *)
Lemma ellipsize_longest_prefix_witness :
  @ellipsize Demo.fixed_pitch (lit "Widget, large") 30 (lit "F") 10
  = lit "Widge" ++ ell
  ∧ ∀ m, (m ≤ 13)%nat →
      (@stringWidth Demo.fixed_pitch (take m (lit "Widget, large") ++ ell)
         (lit "F") 10 <= 30)%Q →
      (m ≤ 5)%nat.
Proof.
  destruct (@ellipsize_longest_prefix Demo.fixed_pitch (lit "Widget, large")
              30 (lit "F") 10) as [_ Hcut].
  - vm_compute. discriminate.
  - destruct Hcut as (n & Hn & Hr & Hfit & Hmax).
    + vm_compute. intros Hle. apply Hle. reflexivity.
    + assert (n = 5%nat) as ->.
      { assert (length (@ellipsize Demo.fixed_pitch (lit "Widget, large") 30
                          (lit "F") 10) = 6%nat) as Hlen
          by (vm_compute; reflexivity).
        rewrite Hr, length_app, length_take in Hlen. simpl in Hlen, Hn. lia. }
      split; [vm_compute; reflexivity|].
      intros m Hm Hfm. apply Hmax; [|exact Hm|exact Hfm].
      intros a b c. apply fixed_pitch_insert. lia.
Defined.

(** ** Claims about thumbnail resolution *)

Section ThumbnailClaims.
Context {Img Bytes : Type} `{!World Img Bytes}.
Implicit Types (fs : FS Bytes) (url : pystr).

Lemma try_except_returns {A} (body : io Bytes A) (a : A) fs :
  ∃ r fs', try_except body (mret a) fs = (Ok r, fs').
Proof.
  unfold try_except. destruct (body fs) as [[r|e] fs']; by eexists _, _.
Qed.

Lemma download_returns url thumb_path thumb_px fs :
  ∃ r fs', download url thumb_path thumb_px fs = (Ok r, fs').
Proof. apply try_except_returns. Qed.

Lemma download_failure_None url thumb_path thumb_px fs :
  download_failure url thumb_px →
  download url thumb_path thumb_px fs = (Ok None, fs).
Proof.
  unfold download, try_except, download_failure, mbind, io_bind, call,
    raise_for_status, raise, mret, io_ret.
  intros [->|(resp & -> & Hfail)]; [done|].
  destruct ((400 <=? status_code resp) && (status_code resp <? 600))
    eqn:Hst; [done|].
  destruct Hfail as [Hbad|[->|(img & -> & Hfail)]]; [lia|done|].
  destruct Hfail as [[Hmode ->]|(img' & Hconv & Hfail)].
  - by rewrite bool_decide_false.
  - case_bool_decide.
    + injection Hconv as ->.
      destruct Hfail as [->|(c & -> & ->)]; done.
    + rewrite Hconv. destruct Hfail as [->|(c & -> & ->)]; done.
Qed.

Lemma load_cached_returns thumb_path fs :
  ∃ r fs', load_cached thumb_path fs = (Ok r, fs').
Proof.
  unfold load_cached, try_except, mbind, io_bind, mret, io_ret.
  destruct (open_cached _ fs) as [[img|e] fs1]; [eauto|].
  destruct (os_remove _ fs1) as [[[]|e'] fs2]; eauto.
Qed.

(** A cache file that cannot be decoded counts as a miss: it is removed
    (unless [os.remove] itself raises) and nothing is returned yet. *)
Lemma load_cached_corrupt thumb_path fs b :
  fs !! thumb_path = Some b → open_rgb b = None →
  load_cached thumb_path fs
  = (Ok None, if remove_fails thumb_path then fs else delete thumb_path fs).
Proof.
  intros Hb Hopen.
  unfold load_cached, try_except, mbind, io_bind, mret, io_ret, open_cached,
    os_remove, call, raise.
  rewrite Hb, Hopen. simpl. destruct (remove_fails thumb_path); [done|].
  by rewrite Hb.
Qed.


(** X23. Once the cache directory can be made and the URL can be hashed,
    [fetch_thumbnail] returns and never raises; with no cache file, a
    failed request, an error status or a failed decoding makes it return
    [None]; and a cache file that cannot be decoded is deleted and the URL
    fetched again. *)
Theorem fetch_thumbnail_total url thumb_px fs key :
  makedirs_fails = false → sha1_hex url = Some key →
  let thumb_path := thumb_path_of key thumb_px in
  (∃ r fs', fetch_thumbnail url thumb_px fs = (Ok r, fs'))
  ∧ (fs !! thumb_path = None → download_failure url thumb_px →
     fetch_thumbnail url thumb_px fs = (Ok None, fs))
  ∧ (pil_available = true →
     ∀ b, fs !! thumb_path = Some b → open_rgb b = None →
       remove_fails thumb_path = false →
       fetch_thumbnail url thumb_px fs
       = download url thumb_path thumb_px (delete thumb_path fs)
       ∧ delete thumb_path fs !! thumb_path = None).
Proof.
  intros Hmk Hkey thumb_path.
  assert (Hrun : pil_available = true →
            fetch_thumbnail url thumb_px fs
            = match (if bool_decide (is_Some (fs !! thumb_path))
                     then load_cached thumb_path fs else (Ok None, fs)) with
              | (Ok (Some img), fs') => (Ok (Some img), fs')
              | (Ok None, fs') => download url thumb_path thumb_px fs'
              | (Raise e, fs') => (Raise e, fs')
              end).
  { intros Hpil. unfold fetch_thumbnail, os_makedirs, _hash.
    rewrite Hpil, Hmk, Hkey. simpl.
    unfold mbind, io_bind, mret, io_ret, os_path_exists, call. simpl.
    fold thumb_path. case_bool_decide; [|done].
    by destruct (load_cached thumb_path fs) as [[[img|]|e] fs']. }
  assert (Hoff : pil_available = false →
            fetch_thumbnail url thumb_px fs = (Ok None, fs)).
  { intros Hpil. unfold fetch_thumbnail. by rewrite Hpil. }
  split_and!.
  - destruct pil_available eqn:Hpil; [|rewrite Hoff by done; by eexists _, _].
    rewrite Hrun by done. case_bool_decide.
    + destruct (load_cached_returns thumb_path fs) as (r & fs' & ->).
      destruct r; [by eexists _, _|]. apply download_returns.
    + apply download_returns.
  - intros Hnone Hfail. destruct pil_available eqn:Hpil; [|by apply Hoff].
    rewrite Hrun by done.
    rewrite bool_decide_false by (rewrite Hnone; by intros [? ?]).
    by apply download_failure_None.
  - intros Hpil b Hb Hopen Hrm. split; [|apply lookup_delete_eq].
    rewrite Hrun by done.
    rewrite bool_decide_true by (by rewrite Hb).
    rewrite (load_cached_corrupt _ _ _ Hb Hopen). by rewrite Hrm.
Qed.
End ThumbnailClaims.


(** ** Claims about the renderer and the assembler *)

(** The width of a row is narrowed exactly when a QR code was drawn and
    the cursor is above its lower edge, on whatever page the cursor is. *)
Lemma available_width_cases fr y0 :
  (available_width fr y0 = (content_width fr - (qr_side + 0.25 * inch))%Q
   ∧ ∃ b, qr_bottom_y fr = Some b ∧ (b < y0)%Q)
  ∨ (available_width fr y0 = content_width fr
     ∧ (qr_bottom_y fr = None ∨ ∃ b, qr_bottom_y fr = Some b ∧ (y0 <= b)%Q)).
Proof.
  unfold available_width.
  destruct (qr_bottom_y fr) as [b|]; [|by right; split; [|left]].
  destruct (Qlt_le_dec b y0); [left | right]; split; eauto.
Qed.

(** C6, on the code: a label with a QR code and 101 one-line items, in
    text mode on letter paper. The 25th row breaks the page; the 26th is
    laid out on the continuation page at y = 709, above the level of the
    QR code of the first page (648), and is given the narrowed width 414
    instead of the content width 540. *)
Theorem continuation_row_narrowed :
  let tote := Demo.tote_with_items 101 in
  ∃ p r,
    @draw_label Demo.fixed_pitch Demo.offline_surface tote letter 36
      [(lit "T1", tote)] (lit "text") = Ok p
    ∧ grid_rows p !! 25%nat = Some r
    ∧ row_page r = 1%nat
    ∧ (row_y r == 709)%Q
    ∧ (row_available_width r == 414)%Q
    ∧ (612 - 2 * 36 == 540)%Q.
Proof.
  eexists _, _. split; [vm_compute; reflexivity|].
  split; [vm_compute; reflexivity|].
  split; [reflexivity|]. split_and!; vm_compute; reflexivity.
Qed.

Section OrderFacts.
Lemma str_le_refl a : str_le a a = true.
Proof.
  induction a as [|x a IH]; simpl; [done|].
  by rewrite N.eqb_refl, IH, orb_true_r.
Qed.

Lemma str_le_total a : ∀ b, str_le a b = true ∨ str_le b a = true.
Proof.
  induction a as [|x a IH]; intros [|y b]; simpl; auto.
  destruct (N.ltb_spec x y), (N.ltb_spec y x), (N.eqb_spec x y),
    (N.eqb_spec y x); simpl; auto; try lia.
Qed.

Lemma str_le_trans a : ∀ b c,
  str_le a b = true → str_le b c = true → str_le a c = true.
Proof.
  induction a as [|x a IH]; intros [|y b] [|z c]; simpl; auto; try done.
  destruct (N.ltb_spec x y), (N.ltb_spec y z), (N.ltb_spec x z),
    (N.eqb_spec x y), (N.eqb_spec y z), (N.eqb_spec x z);
    simpl; auto; try lia; try done; try apply IH.
Qed.

Lemma str_le_antisym a : ∀ b,
  str_le a b = true → str_le b a = true → a = b.
Proof.
  induction a as [|x a IH]; intros [|y b]; simpl; auto; try done.
  destruct (N.ltb_spec x y), (N.ltb_spec y x), (N.eqb_spec x y),
    (N.eqb_spec y x); simpl; try lia; try done.
  intros Hab Hba. subst. f_equal. by apply IH.
Qed.

#[global] Instance str_order_total : Total str_order.
Proof.
  intros a b. unfold str_order.
  destruct (str_le_total a b) as [->| ->]; [by left | by right].
Qed.

#[global] Instance str_order_trans : Transitive str_order.
Proof.
  intros a b c. unfold str_order. rewrite !Is_true_true.
  apply str_le_trans.
Qed.

#[global] Instance str_order_antisym : AntiSymm (=) str_order.
Proof.
  intros a b. unfold str_order. rewrite !Is_true_true.
  apply str_le_antisym.
Qed.

Lemma sorted_Permutation keys : sorted keys ≡ₚ keys.
Proof. apply merge_sort_Permutation. Qed.

Lemma sorted_StronglySorted keys : StronglySorted str_order (sorted keys).
Proof. apply StronglySorted_merge_sort; apply _. Qed.

(** The order of the result does not depend on the order of the keys. *)
Lemma sorted_unique keys keys' : keys ≡ₚ keys' → sorted keys = sorted keys'.
Proof.
  intros Hperm. apply (StronglySorted_unique str_order).
  - apply sorted_StronglySorted.
  - apply sorted_StronglySorted.
  - by rewrite !sorted_Permutation.
Qed.
End OrderFacts.

(** The renderer returns when its two library calls do, and what it
    returns ends the page. *)

Section RendererFacts.
Context `{FontMetrics} `{Surface}.

Lemma mapM_returns {A B} (f : A → result B) (l : list A) :
  (∀ x, ∃ y, f x = Ok y) → ∃ ys, mapM f l = Ok ys.
Proof.
  intros Hf. induction l as [|x l [ys IH]]; simpl; [by eexists|].
  destruct (Hf x) as [y ->]. simpl. rewrite IH. by eexists.
Qed.

Lemma foldlM_returns {A B} (f : A → B → result A) (l : list B) :
  (∀ a b, ∃ a', f a b = Ok a') → ∀ a, ∃ a', foldlM f a l = Ok a'.
Proof.
  intros Hf. induction l as [|b l IH]; intros a; simpl; [by eexists|].
  destruct (Hf a b) as [a1 ->]. simpl. apply IH.
Qed.

Lemma thumb_img_found_returns item :
  surface_returns → ∃ b, thumb_img_found item = Ok b.
Proof.
  intros [_ Hth]. unfold thumb_img_found.
  destruct (ToteItem.image_url item) as [url|]; [|by eexists].
  destruct (truthy url); [apply Hth | by eexists].
Qed.

Lemma measure_cell_returns fr item col_w :
  surface_returns → ∃ h, measure_cell fr item col_w = Ok h.
Proof.
  intros Hs. unfold measure_cell.
  destruct (thumb_img_found_returns item Hs) as [b ->]. by eexists.
Qed.

Lemma draw_cell_returns fr item x_left y_top col_w p :
  surface_returns → ∃ p', draw_cell fr item x_left y_top col_w p = Ok p'.
Proof.
  intros Hs. unfold draw_cell.
  destruct (thumb_img_found_returns item Hs) as [b ->]. by eexists.
Qed.

Lemma draw_row_returns fr draw row_items col_width p :
  (∀ it x yt w q, ∃ q', draw it x yt w q = Ok q') →
  ∃ p', draw_row fr draw row_items col_width p = Ok p'.
Proof.
  intros Hdraw. unfold draw_row. apply foldlM_returns.
  intros a [i it]. apply Hdraw.
Qed.

Lemma grid_step_returns fr cols measure draw row_items p :
  (∀ it w, ∃ h, measure it w = Ok h) →
  (∀ it x yt w q, ∃ q', draw it x yt w q = Ok q') →
  ∃ p', grid_step fr cols measure draw row_items p = Ok p'.
Proof.
  intros Hm Hd. unfold grid_step.
  match goal with
  | |- context [mapM ?f row_items] =>
      destruct (mapM_returns f row_items) as [hs ->];
      [intros it; apply Hm|]
  end.
  simpl.
  match goal with
  | |- context [draw_row fr draw row_items ?w ?q] =>
      destruct (draw_row_returns fr draw row_items w q Hd) as [q' ->]
  end.
  by eexists.
Qed.

Lemma thumbs_loop_returns fr items i p :
  surface_returns → ∃ p', thumbs_loop fr items i p = Ok p'.
Proof.
  intros Hs. funelim (thumbs_loop fr items i p); [|by eexists].
  destruct (grid_step_returns fr 5 (measure_cell fr) (draw_cell fr)
              (take 5 (drop i items)) p
              (λ it w, measure_cell_returns fr it w Hs)
              (λ it x yt w q, draw_cell_returns fr it x yt w q Hs))
    as [p1 ->].
  eauto.
Qed.

Lemma text_loop_returns fr items i p :
  ∃ p', text_loop fr items i p = Ok p'.
Proof.
  funelim (text_loop fr items i p); [|by eexists].
  destruct (grid_step_returns fr 4 (measure_text fr) (draw_text fr)
              (take 4 (drop i items)) p
              (λ it w, ex_intro _ _ eq_refl)
              (λ it x yt w q, ex_intro _ _ eq_refl))
    as [p1 ->].
  eauto.
Qed.

Lemma render_items_returns fr render_mode items p :
  surface_returns → ∃ p', render_items fr render_mode items p = Ok p'.
Proof.
  intros Hs.
  unfold render_items, render_items_grid_text, render_items_grid_thumbs.
  destruct (decide _); (destruct items; [by eexists|]);
    [apply text_loop_returns | by apply thumbs_loop_returns].
Qed.

Lemma draw_head_returns tote page_size margin totes_map :
  surface_returns → ∃ hd, draw_head tote page_size margin totes_map = Ok hd.
Proof.
  intros [Hqr _]. unfold draw_head. destruct page_size as [w h].
  destruct (Tote.qrdata tote) as [data|]; [|by eexists].
  destruct (truthy data); [|by eexists].
  destruct (Hqr data) as [b ->]. by eexists.
Qed.

Lemma draw_child_returns fr render_mode totes_map p child_id :
  surface_returns → ∃ p', draw_child fr render_mode totes_map p child_id = Ok p'.
Proof. intros Hs. unfold draw_child. by apply render_items_returns. Qed.

Lemma draw_label_returns tote page_size margin totes_map render_mode :
  surface_returns →
  ∃ p, draw_label tote page_size margin totes_map render_mode = Ok p.
Proof.
  intros Hs. unfold draw_label.
  destruct (draw_head_returns tote page_size margin totes_map Hs)
    as [[p qr] ->].
  simpl.
  match goal with
  | |- context [render_items ?fr render_mode ?its p] =>
      destruct (render_items_returns fr render_mode its p Hs) as [p1 ->];
      simpl;
      destruct (foldlM_returns (draw_child fr render_mode totes_map)
                  (Tote.children tote)
                  (λ a b, draw_child_returns fr render_mode totes_map a b Hs)
                  p1) as [p2 ->]
  end.
  by eexists.
Qed.

Lemma draw_label_ends tote page_size margin totes_map render_mode p :
  draw_label tote page_size margin totes_map render_mode = Ok p →
  last (canvas p) = Some ShowPage.
Proof.
  unfold draw_label. intros (hd & _ & Hrun)%bind_Ok. destruct hd as [p0 qr].
  apply bind_Ok in Hrun as (p1 & _ & Hrun).
  apply bind_Ok in Hrun as (p2 & _ & [= <-]). simpl. apply last_snoc.
Qed.
End RendererFacts.

Section AssemblerClaims.
Context `{PyInt} `{CsvSource} `{FontMetrics} `{Surface} `{Files}.

(** The loop of [generate_pdf]: when it ends without exception the canvas
    holds the labels of the ids in their order and every label was
    drawn; when it raises, the drawing of one of the labels did. *)
Lemma draw_labels_cases totes page_size render_mode ids : ∀ c,
  match foldlM (draw_next totes page_size render_mode) c ids with
  | Ok c' =>
      c' = c ++ concat (map (label_of totes page_size render_mode) ids)
      ∧ ∀ id tote, id ∈ ids → Dict.get id totes = Some tote →
          ∃ p, draw_label tote page_size (0.5 * inch)%Q totes render_mode
               = Ok p
  | Raise e =>
      ∃ id tote, id ∈ ids ∧ Dict.get id totes = Some tote
        ∧ draw_label tote page_size (0.5 * inch)%Q totes render_mode
          = Raise e
  end.
Proof.
  induction ids as [|id ids IH]; intros c; cbn [foldlM].
  - split; [by rewrite app_nil_r|].
    intros id tote Hin. by apply elem_of_nil in Hin.
  - unfold draw_next at 2. cbn [map concat]. unfold label_of at 1.
    destruct (Dict.get id totes) as [tote|] eqn:Hg.
    + destruct (draw_label tote page_size (0.5 * inch)%Q totes render_mode)
        as [p|e] eqn:Hd; simpl.
      * specialize (IH (c ++ canvas p)).
        destruct (foldlM _ (c ++ canvas p) ids) as [c'|e].
        -- destruct IH as [-> Hall]. split; [by rewrite app_assoc|].
           intros id' tote' [->|Hin]%elem_of_cons Hg'; [|eauto].
           exists p. congruence.
        -- destruct IH as (id' & tote' & Hin & Hg' & Hd').
           exists id', tote'. split; [by apply list_elem_of_further | done].
      * exists id, tote. split; [apply list_elem_of_here | done].
    + simpl. specialize (IH c).
      destruct (foldlM _ c ids) as [c'|e].
      * destruct IH as [-> Hall]. split; [done|].
        intros id' tote' [->|Hin]%elem_of_cons Hg'; [congruence | eauto].
      * destruct IH as (id' & tote' & Hin & Hg' & Hd').
        exists id', tote'. split; [by apply list_elem_of_further | done].
Qed.

(** [generate_pdf] returns a document exactly when the output path can be
    written and no label raises while it is drawn. *)
Lemma generate_pdf_cases totes output_path page render_mode :
  match generate_pdf totes output_path page render_mode with
  | Ok doc =>
      output_writable output_path = true
      ∧ doc_path doc = output_path
      ∧ doc_ops doc
        = concat (map (label_of totes (doc_pagesize doc) render_mode)
                    (sorted (Dict.keys totes)))
      ∧ ∀ id tote, id ∈ sorted (Dict.keys totes) →
          Dict.get id totes = Some tote →
          ∃ p, draw_label tote (doc_pagesize doc) (0.5 * inch)%Q totes
                 render_mode = Ok p
  | Raise e =>
      output_writable output_path = false
      ∨ ∃ id tote page_size,
          id ∈ sorted (Dict.keys totes) ∧ Dict.get id totes = Some tote
          ∧ draw_label tote page_size (0.5 * inch)%Q totes render_mode
            = Raise e
  end.
Proof.
  unfold generate_pdf. destruct (output_writable output_path); [|by left].
  match goal with
  | |- context [foldlM (draw_next totes ?ps render_mode) [] ?ids] =>
      pose proof (draw_labels_cases totes ps render_mode ids []) as Hloop;
      destruct (foldlM (draw_next totes ps render_mode) [] ids) as [c|e]
  end; simpl.
  - destruct Hloop as [-> Hall]. by split_and!.
  - destruct Hloop as (id & tote & Hin & Hg & Hd). right.
    by eexists id, tote, _.
Qed.

Lemma generate_pdf_returns totes output_path page render_mode :
  surface_returns → output_writable output_path = true →
  ∃ doc, generate_pdf totes output_path page render_mode = Ok doc
    ∧ doc_path doc = output_path
    ∧ doc_ops doc
      = concat (map (label_of totes (doc_pagesize doc) render_mode)
                  (sorted (Dict.keys totes))).
Proof.
  intros Hs Hw.
  pose proof (generate_pdf_cases totes output_path page render_mode) as Hc.
  destruct (generate_pdf totes output_path page render_mode) as [doc|e].
  - exists doc. destruct Hc as (_ & Hp & Ho & _). by split_and!.
  - destruct Hc as [Hc|(id & tote & ps & _ & _ & Hd)]; [congruence|].
    destruct (draw_label_returns tote ps (0.5 * inch)%Q totes render_mode Hs)
      as [p Hp].
    congruence.
Qed.

Lemma label_of_ends totes page_size render_mode id tote p :
  Dict.get id totes = Some tote →
  draw_label tote page_size (0.5 * inch)%Q totes render_mode = Ok p →
  last (label_of totes page_size render_mode id) = Some ShowPage.
Proof.
  intros Hg Hd. unfold label_of. rewrite Hg, Hd. by eapply draw_label_ends.
Qed.

(** C8. [generate_pdf] draws the labels of the containers one after the
    other, one for each id, in ascending order of the ids whatever the
    order of the table: every document it returns is made of these
    labels, each ending its page, and whenever [main] ends with status 0
    in mode "both" it has written two documents, to the paths ending in
    _thumbs and _text, each with these labels in that order. Generation
    succeeds, and [main] ends so, whenever the output paths can be written
    and the calls that make the QR code and fetch the thumbnails return;
    an exception of theirs ends the generation instead. *)
Theorem generate_pdf_labels_sorted (totes : Dict.t Tote.t) :
  NoDup (Dict.keys totes) →
  let ids := sorted (Dict.keys totes) in
  ids ≡ₚ Dict.keys totes ∧ NoDup ids ∧ StronglySorted str_order ids
  ∧ (∀ totes' : Dict.t Tote.t,
       Dict.keys totes' ≡ₚ Dict.keys totes → sorted (Dict.keys totes') = ids)
  ∧ (∀ output_path page render_mode doc,
       generate_pdf totes output_path page render_mode = Ok doc →
       doc_path doc = output_path
       ∧ doc_ops doc
         = concat (map (label_of totes (doc_pagesize doc) render_mode) ids)
       ∧ ∀ id, id ∈ ids →
           is_Some (Dict.get id totes)
           ∧ last (label_of totes (doc_pagesize doc) render_mode id)
             = Some ShowPage)
  ∧ (∀ a paths docs,
       collect_input_paths (arg_input a) = Ok paths →
       read_csvs paths = Ok totes → arg_mode a = lit "both" →
       main a = Ok (0, docs) →
       let base := (splitext (arg_output a)).1 in
       let ext := str_or (splitext (arg_output a)).2 (lit ".pdf") in
       ∃ d1 d2, docs = [d1; d2]
         ∧ doc_path d1 = base ++ lit "_thumbs" ++ ext
         ∧ doc_path d2 = base ++ lit "_text" ++ ext
         ∧ doc_ops d1
           = concat (map (label_of totes (doc_pagesize d1) (lit "thumbs"))
                       ids)
         ∧ doc_ops d2
           = concat (map (label_of totes (doc_pagesize d2) (lit "text"))
                       ids))
  ∧ (surface_returns →
     (∀ page_size render_mode id, id ∈ ids →
        is_Some (Dict.get id totes)
        ∧ last (label_of totes page_size render_mode id) = Some ShowPage)
     ∧ (∀ output_path page render_mode,
          output_writable output_path = true →
          ∃ doc, generate_pdf totes output_path page render_mode = Ok doc
            ∧ doc_path doc = output_path
            ∧ doc_ops doc
              = concat (map (label_of totes (doc_pagesize doc) render_mode)
                          ids))
     ∧ (∀ a paths,
          collect_input_paths (arg_input a) = Ok paths →
          read_csvs paths = Ok totes → totes ≠ [] →
          arg_mode a = lit "both" →
          let base := (splitext (arg_output a)).1 in
          let ext := str_or (splitext (arg_output a)).2 (lit ".pdf") in
          output_writable (base ++ lit "_thumbs" ++ ext) = true →
          output_writable (base ++ lit "_text" ++ ext) = true →
          ∃ d1 d2, main a = Ok (0, [d1; d2])
            ∧ doc_path d1 = base ++ lit "_thumbs" ++ ext
            ∧ doc_path d2 = base ++ lit "_text" ++ ext
            ∧ doc_ops d1
              = concat (map (label_of totes (doc_pagesize d1) (lit "thumbs"))
                          ids)
            ∧ doc_ops d2
              = concat (map (label_of totes (doc_pagesize d2) (lit "text"))
                          ids))).
Proof.
  intros Hnd ids.
  assert (Hperm : ids ≡ₚ Dict.keys totes) by apply sorted_Permutation.
  assert (Hkey : ∀ id, id ∈ ids → ∃ tote, Dict.get id totes = Some tote).
  { intros id Hid. rewrite Hperm in Hid.
    destruct (Dict.get id totes) as [tote|] eqn:Hg; [by eexists|].
    by apply get_None_keys in Hg. }
  split_and!.
  - done.
  - by rewrite Hperm.
  - apply sorted_StronglySorted.
  - intros totes' Hk. by apply sorted_unique.
  - intros output_path page render_mode doc Hgen.
    pose proof (generate_pdf_cases totes output_path page render_mode) as Hc.
    rewrite Hgen in Hc. destruct Hc as (_ & Hp & Ho & Hall).
    split_and!; [done..|]. intros id Hid.
    destruct (Hkey id Hid) as [tote Hg]. split; [by eexists|].
    destruct (Hall id tote Hid Hg) as [p Hd]. by eapply label_of_ends.
  - intros a paths docs Hpaths Hread Hmode Hmain base ext.
    unfold main in Hmain. rewrite Hpaths, Hread in Hmain. simpl in Hmain.
    destruct totes as [|kv totes]; [done|].
    rewrite decide_True in Hmain by done.
    subst base ext. destruct (splitext (arg_output a)) as [base ext].
    simpl in *.
    match type of Hmain with
    | context [generate_pdf ?m ?path ?page (lit "thumbs")] =>
        pose proof (generate_pdf_cases m path page (lit "thumbs")) as Hc1;
        destruct (generate_pdf m path page (lit "thumbs")) as [d1|e1];
        [|done]
    end.
    match type of Hmain with
    | context [generate_pdf ?m ?path ?page (lit "text")] =>
        pose proof (generate_pdf_cases m path page (lit "text")) as Hc2;
        destruct (generate_pdf m path page (lit "text")) as [d2|e2];
        [|done]
    end.
    injection Hmain as <-.
    destruct Hc1 as (_ & Hp1 & Ho1 & _), Hc2 as (_ & Hp2 & Ho2 & _).
    by exists d1, d2.
  - intros Hs. split_and!.
    + intros page_size render_mode id Hid.
      destruct (Hkey id Hid) as [tote Hg]. split; [by eexists|].
      destruct (draw_label_returns tote page_size (0.5 * inch)%Q totes
                  render_mode Hs) as [p Hd].
      by eapply label_of_ends.
    + intros output_path page render_mode. by apply generate_pdf_returns.
    + intros a paths Hpaths Hread Hne Hmode base ext Hw1 Hw2.
      destruct (generate_pdf_returns totes _ (arg_page a) (lit "thumbs")
                  Hs Hw1) as (d1 & Hd1 & Hp1 & Ho1).
      destruct (generate_pdf_returns totes _ (arg_page a) (lit "text")
                  Hs Hw2) as (d2 & Hd2 & Hp2 & Ho2).
      exists d1, d2. split; [|done].
      unfold main. rewrite Hpaths, Hread. simpl.
      destruct totes as [|kv totes]; [done|].
      rewrite decide_True by done.
      subst base ext. destruct (splitext (arg_output a)) as [base ext].
      simpl in *. by rewrite Hd1, Hd2.
Qed.
End AssemblerClaims.

(** C8 on a table that holds B before A. *)
Lemma generate_pdf_labels_sorted_witness :
  ∃ totes d1 d2,
    @read_csvs Demo.demo_int Examples.b_then_a_csv [lit "a.csv"] = Ok totes
    ∧ Dict.keys totes = [lit "B"; lit "A"]
    ∧ sorted (Dict.keys totes) = [lit "A"; lit "B"]
    ∧ @main Demo.demo_int Examples.b_then_a_csv Demo.fixed_pitch
        Demo.offline_surface Demo.plain_files Examples.both_args
      = Ok (0, [d1; d2])
    ∧ doc_path d1 = lit "output/labels_thumbs.pdf"
    ∧ doc_path d2 = lit "output/labels_text.pdf"
    ∧ doc_ops d1
      = concat (map (@label_of Demo.fixed_pitch Demo.offline_surface totes
                       (doc_pagesize d1) (lit "thumbs")) [lit "A"; lit "B"])
    ∧ doc_ops d2
      = concat (map (@label_of Demo.fixed_pitch Demo.offline_surface totes
                       (doc_pagesize d2) (lit "text")) [lit "A"; lit "B"]).
Proof.
  pose (totes := match @read_csvs Demo.demo_int Examples.b_then_a_csv
                         [lit "a.csv"] with Ok d => d | Raise _ => [] end).
  assert (Hread : @read_csvs Demo.demo_int Examples.b_then_a_csv [lit "a.csv"]
                  = Ok totes) by (vm_compute; reflexivity).
  assert (Hnd : NoDup (Dict.keys totes)).
  { apply (bool_decide_unpack (NoDup (Dict.keys totes))). vm_compute.
    exact I. }
  destruct (@generate_pdf_labels_sorted Demo.demo_int Examples.b_then_a_csv
              Demo.fixed_pitch Demo.offline_surface Demo.plain_files totes Hnd)
    as (_ & _ & _ & _ & _ & _ & Hquiet).
  destruct Hquiet as (_ & _ & Hmain); [split; intros x; by eexists|].
  destruct (Hmain Examples.both_args [lit "a.csv"])
    as (d1 & d2 & Hm & Hp1 & Hp2 & Ho1 & Ho2);
    [vm_compute; reflexivity | exact Hread | discriminate | reflexivity
    | reflexivity | reflexivity |].
  exists totes, d1, d2. split; [exact Hread|].
  split; [vm_compute; reflexivity|].
  assert (Hs : sorted (Dict.keys totes) = [lit "A"; lit "B"])
    by (vm_compute; reflexivity).
  split; [exact Hs|]. split; [exact Hm|].
  split; [rewrite Hp1; vm_compute; reflexivity|].
  split; [rewrite Hp2; vm_compute; reflexivity|].
  rewrite Hs in Ho1, Ho2. split; [exact Ho1 | exact Ho2].
Defined.

(** X23 on a cache file of rubbish and on a URL that answers 404. *)
Lemma fetch_thumbnail_total_witness :
  let url := lit "http://x/ok.png" in
  let path := @thumb_path_of _ _ Demo.small_world url 128 in
  let fs : gmap pystr (option nat) := {[ path := None ]} in
  @fetch_thumbnail _ _ Demo.small_world url 128 fs
  = (Ok (Some 128%nat), {[ path := Some 128%nat ]})
  ∧ @fetch_thumbnail _ _ Demo.small_world (lit "http://x/gone.png") 128 ∅
    = (Ok None, ∅).
Proof.
  intros url path fs.
  destruct (@fetch_thumbnail_total _ _ Demo.small_world url 128 fs url
              eq_refl eq_refl) as (_ & _ & Hcorrupt).
  destruct (Hcorrupt eq_refl None) as [Hrun _];
    [apply lookup_singleton_eq | reflexivity | reflexivity |].
  destruct (@fetch_thumbnail_total _ _ Demo.small_world
              (lit "http://x/gone.png") 128 ∅ (lit "http://x/gone.png")
              eq_refl eq_refl) as (_ & Hfail & _).
  split.
  - rewrite Hrun. fold path. unfold fs. rewrite delete_singleton_eq.
    unfold download, try_except. simpl.
    unfold mbind, io_bind, call, save, mret, io_ret. simpl.
    by rewrite insert_empty.
  - apply Hfail; [apply lookup_empty|].
    right. eexists. split; [reflexivity|]. left. simpl. lia.
Defined.

(** * Further properties of the code *)

(** ** The header index *)

Section HeaderFacts.
Implicit Types (row : list pystr) (name : pystr).

Lemma index_Some name row i :
  index name row = Some i ↔
  row !! i = Some name ∧ ∀ j, (j < i)%nat → row !! j ≠ Some name.
Proof.
  revert i. induction row as [|c row IH]; intros i; simpl.
  - split; [done | by intros [? _]].
  - destruct (decide (name = c)) as [->|Hne].
    + split.
      * intros [= <-]. split; [done | intros j Hj; lia].
      * intros [Hi Hfirst]. destruct i as [|i]; [done|].
        by destruct (Hfirst 0%nat ltac:(lia)).
    + destruct (index name row) as [i0|]; simpl.
      * split.
        -- intros [= <-]. destruct (proj1 (IH i0) eq_refl) as [Hi Hfirst].
           split; [done|].
           intros [|j] Hj; simpl; [congruence | apply Hfirst; lia].
        -- intros [Hi Hfirst]. destruct i as [|i]; simpl in Hi; [congruence|].
           assert (Some i0 = Some i) as [= ->]; [|done].
           apply IH. split; [done|].
           intros j Hj. apply (Hfirst (S j)). lia.
      * split; [done|]. intros [Hi Hfirst].
        destruct i as [|i]; simpl in Hi; [congruence|].
        assert (@None nat = Some i) as Hc; [|done].
        apply (IH i). split; [done|]. intros j Hj. apply (Hfirst (S j)). lia.
Qed.

Lemma index_None name row : index name row = None ↔ name ∉ row.
Proof.
  induction row as [|c row IH]; simpl.
  - split; [intros _; apply not_elem_of_nil | done].
  - rewrite not_elem_of_cons. destruct (decide (name = c)) as [->|Hne].
    + split; [done | by intros [? _]].
    + destruct (index name row); simpl.
      * split; [done|]. intros [_ Hn]. by apply IH in Hn.
      * split; [|done]. intros _. split; [done | by apply IH].
Qed.

Lemma header_fold_lookup row name l : ∀ m : gmap pystr nat,
  foldl (fun m name =>
           match index name row with
           | Some i => <[name := i]> m
           | None => m
           end) m l !! name
  = match index name row with
    | Some i => if decide (name ∈ l) then Some i else m !! name
    | None => m !! name
    end.
Proof.
  induction l as [|c l IH]; intros m; cbn [foldl].
  - destruct (index name row); [|done].
    rewrite decide_False; [done | apply not_elem_of_nil].
  - rewrite IH. destruct (index name row) as [i|] eqn:Hi.
    + destruct (decide (name ∈ l)) as [Hin|Hnin].
      * rewrite decide_True; [done | by apply list_elem_of_further].
      * destruct (decide (name = c)) as [<-|Hne].
        -- rewrite Hi, lookup_insert_eq.
           rewrite decide_True; [done | apply list_elem_of_here].
        -- rewrite decide_False; [|by intros [?|?]%elem_of_cons].
           destruct (index c row); [by rewrite lookup_insert_ne | done].
    + destruct (index c row) as [j|] eqn:Hj; [|done].
      rewrite lookup_insert_ne; [done|]. intros <-. congruence.
Qed.

Lemma make_header_index_lookup row name :
  make_header_index row !! name = index name row.
Proof.
  unfold make_header_index. rewrite header_fold_lookup.
  destruct (index name row) as [i|] eqn:Hi; [|apply lookup_empty].
  rewrite decide_True; [done|].
  apply index_Some in Hi as [Hi _]. by eapply list_elem_of_lookup_2.
Qed.

Lemma index_None_lookup row name :
  name ∉ row → make_header_index row !! name = None.
Proof. intros Hn. rewrite make_header_index_lookup. by apply index_None. Qed.
(** X1. The header index maps a column name to the position of its first
    occurrence in the header row, also when the name occurs twice, and
    holds no entry for a name that is not a cell of the row; every
    position it holds is inside the row. *)
Theorem make_header_index_first_occurrence row name :
  (∀ i, make_header_index row !! name = Some i ↔
        row !! i = Some name ∧ ∀ j, (j < i)%nat → row !! j ≠ Some name)
  ∧ (make_header_index row !! name = None ↔ name ∉ row)
  ∧ (∀ i, make_header_index row !! name = Some i → (i < length row)%nat).
Proof.
  rewrite make_header_index_lookup. split_and!.
  - intros i. apply index_Some.
  - apply index_None.
  - intros i [Hi _]%index_Some. by eapply lookup_lt_Some.
Qed.
End HeaderFacts.

(** ** Recognising a header row *)

Section SniffFacts.
Implicit Types (row : list pystr).

Lemma all_in_Permutation hs xs xs' : xs ≡ₚ xs' → all_in hs xs = all_in hs xs'.
Proof.
  intros Hp. unfold all_in. induction hs as [|h hs IH]; simpl; [done|].
  rewrite IH. f_equal. apply bool_decide_ext. by rewrite Hp.
Qed.

(** X2. Recognition of a header does not depend on the order of the
    cells: two rows that are permutations of one another are classified
    alike. *)
Theorem sniff_headers_Permutation row row' :
  row ≡ₚ row' → sniff_headers row = sniff_headers row'.
Proof.
  intros Hp. unfold sniff_headers.
  set (g := λ c : pystr, strip_chars [65279%N] (strip c)).
  assert (Hn : map g row ≡ₚ map g row') by by apply fmap_Permutation.
  by rewrite (Permutation_length Hn), !(all_in_Permutation _ _ _ Hn).
Qed.

Lemma all_in_elem hs xs h : all_in hs xs = true → h ∈ hs → h ∈ xs.
Proof.
  unfold all_in. rewrite forallb_forall. intros Hall Hh.
  apply list_elem_of_In in Hh. apply Hall in Hh.
  by apply bool_decide_eq_true in Hh.
Qed.

End SniffFacts.

(** ** The row loop as a state machine *)

Section RowLoopFacts.
Context `{PyInt} `{CsvSource}.
Implicit Types (st : reader) (row h : list pystr) (hidx : gmap pystr nat).

Lemma sniff_known row :
  sniff_headers row ≠ UNKNOWN →
  (4 ≤ length row)%nat
  ∧ ∃ c, c ∈ row ∧ strip_chars [65279%N] (strip c) = lit "TOTE ID".
Proof.
  unfold sniff_headers.
  set (norm := map _ row).
  assert (Hfind : lit "TOTE ID" ∈ norm →
            ∃ c, c ∈ row ∧ strip_chars [65279%N] (strip c) = lit "TOTE ID").
  { intros (c & Hc & Hin)%list_elem_of_fmap. by exists c. }
  destruct ((length PRIMARY_HEADER <=? length norm)%nat && _) eqn:Hp.
  - intros _. apply andb_prop in Hp as [Hlen Hall].
    apply Nat.leb_le in Hlen. unfold norm in Hlen.
    rewrite length_map in Hlen. simpl in Hlen. split; [lia|].
    apply Hfind. eapply all_in_elem; [exact Hall|]. apply list_elem_of_here.
  - destruct ((length norm =? length EMPTY_HEADER)%nat && _) eqn:He; [|done].
    intros _. apply andb_prop in He as [Hlen Hall].
    apply Nat.eqb_eq in Hlen. unfold norm in Hlen.
    rewrite length_map in Hlen. simpl in Hlen. split; [lia|].
    apply Hfind. eapply all_in_elem; [exact Hall|].
    apply list_elem_of_further, list_elem_of_here.
Qed.

Lemma header_not_blank row :
  sniff_headers row ≠ UNKNOWN → is_blank row = false ∧ is_marker row = false.
Proof.
  intros (Hlen & c & Hc & Hs)%sniff_known. split.
  - unfold is_blank. apply negb_false_iff, existsb_exists.
    exists c. split; [by apply list_elem_of_In|].
    destruct (strip c); [vm_compute in Hs; discriminate | done].
  - destruct row as [|c0 [|c1 row]]; simpl in *; [done | lia | done].
Qed.

(** A header row starts a section, whatever the state before it. *)
Lemma process_row_header st h :
  sniff_headers h ≠ UNKNOWN →
  process_row st h
  = Ok (Reader (sniff_headers h) (make_header_index h) (totes st)).
Proof.
  intros Hs. destruct (header_not_blank h Hs) as [Hb Hm].
  unfold process_row. rewrite Hb, Hm.
  pose proof (sniff_headers_not_pending h).
  by destruct (sniff_headers h).
Qed.

Lemma data_row_no_id st row :
  tote_id_of (header_index st) row = None → data_row st row = Ok st.
Proof.
  intros Hid. destruct st as [m hidx totes]. unfold data_row. simpl in *.
  destruct m; [done| | |done].
  - unfold primary_row. by rewrite Hid.
  - unfold empty_row. by rewrite Hid.
Qed.

Lemma tote_id_of_no_column hidx row :
  hidx !! lit "TOTE ID" = None → tote_id_of hidx row = None.
Proof. unfold tote_id_of. by intros ->. Qed.

Lemma data_rows_no_column rows : ∀ st,
  current_mode st ≠ EMPTY_PENDING_HEADER →
  header_index st !! lit "TOTE ID" = None →
  Forall (λ row, is_data_row row = true) rows →
  foldlM process_row st rows = Ok st.
Proof.
  induction rows as [|row rows IH]; intros st Hmode Hcol Hrows; [done|].
  apply Forall_cons in Hrows as [Hrow Hrows]. cbn [foldlM].
  rewrite process_row_data, data_row_no_id by
    (try done; by apply tote_id_of_no_column).
  simpl. by apply IH.
Qed.

(** X3. A header row is recognised after its cells are stripped of
    white space and of the byte-order mark, but the header index is keyed
    by the cells as they are: under a header that is recognised as
    PRIMARY or EMPTY and holds no cell that is exactly the name of the
    id column, every data row of the section is skipped, the table stays
    as it was and nothing is raised. *)
Theorem header_without_id_cell st h rows :
  sniff_headers h ≠ UNKNOWN →
  lit "TOTE ID" ∉ h →
  Forall (λ row, is_data_row row = true) rows →
  foldlM process_row st (h :: rows)
  = Ok (Reader (sniff_headers h) (make_header_index h) (totes st)).
Proof.
  intros Hs Hnot Hrows. cbn [foldlM]. rewrite process_row_header by done.
  simpl. apply data_rows_no_column; simpl; [|by apply index_None_lookup|done].
  apply sniff_headers_not_pending.
Qed.

(** X4. A file in which no row is a header contributes nothing: rows
    met before any header, or between the marker of the reduced section and
    its header, are ignored, and none of them can raise. *)
Theorem read_file_without_header totes0 path rows :
  open_csv path = Ok rows →
  Forall (λ row, sniff_headers row = UNKNOWN ∧ all_in EMPTY_HEADER row = false)
    rows →
  read_file totes0 path = Ok totes0.
Proof.
  intros Hopen Hrows. unfold read_file. rewrite Hopen. simpl. clear Hopen.
  assert (Hloop : ∀ st,
            current_mode st = UNKNOWN ∨ current_mode st = EMPTY_PENDING_HEADER →
            ∃ st', foldlM process_row st rows = Ok st'
                   ∧ totes st' = totes st).
  { induction Hrows as [|row rows [Hs Ha] Hrows IH]; intros st Hmode.
    - by exists st.
    - cbn [foldlM].
      assert (∃ st1, process_row st row = Ok st1
                     ∧ totes st1 = totes st
                     ∧ (current_mode st1 = UNKNOWN
                        ∨ current_mode st1 = EMPTY_PENDING_HEADER))
        as (st1 & -> & Ht & Hm).
      { unfold process_row. destruct (is_blank row); [by exists st|].
        destruct (is_marker row); [eexists; split_and!; [done..|by right]|].
        rewrite Hs, Ha, andb_false_r. exists st. unfold data_row.
        destruct Hmode as [Hm | Hm]; rewrite Hm; split_and!; auto. }
      simpl. destruct (IH st1 Hm) as (st' & -> & Ht'). exists st'.
      split; [done | congruence]. }
  destruct (Hloop (Reader UNKNOWN ∅ totes0)) as (st' & -> & Ht); [by left|].
  simpl in *. destruct st'. simpl in *. by subst.
Qed.

(** X5. A row handled in the EMPTY state only fills a title or a
    location that is still empty: every container of the table after the
    row was in the table before it with the same id, items, QR payload,
    parent id and children, and a title or location that was not empty is
    kept. *)
Theorem empty_state_only_fills st row st' :
  current_mode st = EMPTY → process_row st row = Ok st' →
  ∀ k t', Dict.get k (totes st') = Some t' →
    ∃ t, Dict.get k (totes st) = Some t
      ∧ Tote.tote_id t' = Tote.tote_id t
      ∧ Tote.items t' = Tote.items t
      ∧ Tote.qrdata t' = Tote.qrdata t
      ∧ Tote.parent_id t' = Tote.parent_id t
      ∧ Tote.children t' = Tote.children t
      ∧ (truthy (Tote.title t) = true → Tote.title t' = Tote.title t)
      ∧ (truthy (Tote.location t) = true →
         Tote.location t' = Tote.location t).
Proof.
  intros Hmode Hrun k t' Hg.
  apply process_row_cases in Hrun as [Heq|Hd].
  { rewrite Heq in Hg. exists t'. by split_and!. }
  unfold data_row in Hd. rewrite Hmode in Hd.
  apply fmap_Ok in Hd as (d & Hd & ->). simpl in Hg.
  apply empty_row_spec in Hd as [->|(tid & t & t1 & _ & Hgt & Hf & ->)].
  { exists t'. by split_and!. }
  rewrite get_set in Hg. destruct (decide (tid = k)) as [->|Hne].
  - injection Hg as ->. exists t. split; [done|].
    apply empty_fields_spec in Hf as (Hi & Hc & Hti & Hlo & Hq & Hp & Hit).
    split_and!; try done.
    + intros Ht. by rewrite Hti; unfold str_or; rewrite Ht.
    + intros Ht. by rewrite Hlo; unfold str_or; rewrite Ht.
  - exists t'. by split_and!.
Qed.

Lemma field_total hidx (name : string) row :
  (∀ i, hidx !! lit name = Some i → (i < length row)%nat) →
  (0 < length row)%nat →
  ∃ v, field hidx name row = Ok v.
Proof.
  intros Hb Hlen. unfold field, subscript.
  destruct (lookup_lt_is_Some_2 row (default 0%nat (hidx !! lit name)))
    as [c ->]; [|by eexists].
  destruct (hidx !! lit name) as [i|]; simpl; [by apply Hb | done].
Qed.

Lemma primary_fields_total hidx row t :
  (∀ name i, hidx !! name = Some i → (i < length row)%nat) →
  (0 < length row)%nat →
  ∃ t', primary_fields hidx row t = Ok t'.
Proof.
  intros Hb Hlen. unfold primary_fields.
  assert (Hf : ∀ name : string, ∃ v, field hidx name row = Ok v).
  { intros name. apply field_total; [|done]. intros i. apply Hb. }
  destruct (Hf "TOTE TITLE"%string) as [v1 ->].
  destruct (Hf "TOTE LOCATION"%string) as [v2 ->].
  destruct (Hf "QRDATA"%string) as [v3 ->].
  destruct (Hf "ITEM TITLE"%string) as [v4 ->].
  destruct (Hf "ITEM DESCRIPTION"%string) as [v5 ->].
  destruct (Hf "ITEM QUANTITY"%string) as [v6 ->].
  destruct (Hf "IMAGES"%string) as [v7 ->].
  destruct (truthy (Tote.title t)); simpl;
    destruct (truthy (Tote.location t)); simpl;
    destruct (truthy_opt (Tote.qrdata t)); simpl; by eexists.
Qed.

Lemma empty_fields_total hidx row t :
  (∀ name i, hidx !! name = Some i → (i < length row)%nat) →
  (0 < length row)%nat →
  ∃ t', empty_fields hidx row t = Ok t'.
Proof.
  intros Hb Hlen. unfold empty_fields.
  assert (Hf : ∀ name : string, ∃ v, field hidx name row = Ok v).
  { intros name. apply field_total; [|done]. intros i. apply Hb. }
  destruct (Hf "TOTE TITLE"%string) as [v1 ->].
  destruct (Hf "TOTE LOCATION"%string) as [v2 ->].
  destruct (truthy (Tote.title t)); simpl;
    destruct (truthy (Tote.location t)); simpl; by eexists.
Qed.

Lemma data_row_total st row :
  (∀ name i, header_index st !! name = Some i → (i < length row)%nat) →
  (0 < length row)%nat →
  ∃ st', data_row st row = Ok st'
         ∧ current_mode st' = current_mode st
         ∧ header_index st' = header_index st.
Proof.
  intros Hb Hlen. destruct st as [m hidx totes]. unfold data_row. simpl in *.
  destruct m; [by eexists| | |by eexists].
  - unfold primary_row. destruct (tote_id_of hidx row) as [tid|];
      [|by eexists].
    destruct (primary_fields_total hidx row
                (default (Tote.new tid)
                   (Dict.get tid (get_or_create tid totes))) Hb Hlen)
      as [t' Ht'].
    simpl. rewrite Ht'. by eexists.
  - unfold empty_row. destruct (tote_id_of hidx row) as [tid|];
      [|by eexists].
    destruct (Dict.get tid totes) as [t|]; [|by eexists].
    destruct (empty_fields_total hidx row t Hb Hlen) as [t' Ht'].
    simpl. rewrite Ht'. by eexists.
Qed.

(** X6. A section whose data rows are at least as long as its header
    row is read to the end: no cell lookup leaves the row, so nothing is
    raised, and the state stays in the mode the header selected. *)
Theorem rectangular_section_is_read st h rows :
  sniff_headers h ≠ UNKNOWN →
  Forall (λ row, is_data_row row = true ∧ (length h ≤ length row)%nat) rows →
  ∃ st', foldlM process_row st (h :: rows) = Ok st'
         ∧ current_mode st' = sniff_headers h
         ∧ header_index st' = make_header_index h.
Proof.
  intros Hs Hrows. cbn [foldlM]. rewrite process_row_header by done. simpl.
  destruct (sniff_known h Hs) as [Hlen _].
  set (st0 := Reader (sniff_headers h) (make_header_index h) (totes st)).
  assert (Hst0 : current_mode st0 = sniff_headers h
                 ∧ header_index st0 = make_header_index h) by done.
  clearbody st0. revert st0 Hst0.
  induction Hrows as [|row rows [Hd Hl] Hrows IH]; intros st0 [Hm Hi].
  - by exists st0.
  - cbn [foldlM]. rewrite process_row_data; [|done|].
    2:{ rewrite Hm. apply sniff_headers_not_pending. }
    destruct (data_row_total st0 row) as (st1 & -> & Hm1 & Hi1); [|lia|].
    + intros name i. rewrite Hi, make_header_index_lookup.
      intros [Hi' _]%index_Some. apply lookup_lt_Some in Hi'. lia.
    + simpl. apply IH. split; congruence.
Qed.

Lemma field_raises hidx (name : string) row :
  (∃ v, field hidx name row = Ok v) ∨ field hidx name row = Raise IndexError.
Proof.
  unfold field, subscript. destruct (row !! _); simpl; [left; by eexists|].
  by right.
Qed.

Lemma primary_fields_short hidx row t i :
  hidx !! lit "ITEM TITLE" = Some i → (length row ≤ i)%nat →
  primary_fields hidx row t = Raise IndexError.
Proof.
  intros Hi Hlen. unfold primary_fields.
  assert (Hit : field hidx "ITEM TITLE" row = Raise IndexError).
  { unfold field, subscript. rewrite Hi. simpl.
    by rewrite (lookup_ge_None_2 row i). }
  rewrite Hit.
  destruct (truthy (Tote.title t)); simpl;
    [|destruct (field_raises hidx "TOTE TITLE" row) as [[v ->]| ->];
      simpl; [|done]];
    (destruct (truthy (Tote.location t)); simpl;
     [|destruct (field_raises hidx "TOTE LOCATION" row) as [[v' ->]| ->];
       simpl; [|done]]);
    (destruct (truthy_opt (Tote.qrdata t)); simpl;
     [|destruct (field_raises hidx "QRDATA" row) as [[v'' ->]| ->];
       simpl; [|done]]); done.
Qed.

(** X7. A PRIMARY data row that reaches the id column but ends before
    the ITEM TITLE column is not skipped: the lookup leaves the row, the
    IndexError is caught nowhere, and the loop over the rows ends with
    it, whatever rows follow. *)
Theorem short_primary_row_raises st row rest tid i :
  current_mode st = PRIMARY → is_data_row row = true →
  tote_id_of (header_index st) row = Some tid →
  header_index st !! lit "ITEM TITLE" = Some i → (length row ≤ i)%nat →
  process_row st row = Raise IndexError
  ∧ foldlM process_row st (row :: rest) = Raise IndexError.
Proof.
  intros Hmode Hd Hid Hi Hlen.
  assert (process_row st row = Raise IndexError) as Hrun.
  { rewrite process_row_data; [|done|by rewrite Hmode].
    unfold data_row. rewrite Hmode. unfold primary_row. rewrite Hid.
    simpl. by rewrite (primary_fields_short _ _ _ i). }
  split; [done|]. cbn [foldlM]. by rewrite Hrun.
Qed.
End RowLoopFacts.

(** ** Completeness of the links *)

Section LinkCompleteness.
Implicit Types (cur : Dict.t Tote.t) (t C : Tote.t) (p : pystr).

Lemma link_one_mono cur t p C :
  Dict.get p cur = Some C →
  ∃ C', Dict.get p (link_one cur t) = Some C'
        ∧ ∀ c, c ∈ Tote.children C → c ∈ Tote.children C'.
Proof.
  intros Hg. unfold link_one.
  destruct (Tote.parent_id t) as [q|]; [|by exists C].
  destruct (truthy q); [|by exists C].
  destruct (Dict.get q cur) as [parent|] eqn:Hq; [|by exists C].
  case_bool_decide; [by exists C|].
  rewrite get_set. destruct (decide (q = p)) as [->|Hne]; [|by exists C].
  eexists. split; [done|]. simpl. intros c Hc.
  apply elem_of_app. left. congruence.
Qed.

Lemma link_one_None cur t p :
  Dict.get p cur = None → Dict.get p (link_one cur t) = None.
Proof.
  intros Hg. unfold link_one.
  destruct (Tote.parent_id t) as [q|]; [|done].
  destruct (truthy q); [|done].
  destruct (Dict.get q cur) as [parent|] eqn:Hq; [|done].
  case_bool_decide; [done|].
  rewrite get_set_ne; [done | congruence].
Qed.

Lemma link_one_adds cur t p C :
  Tote.parent_id t = Some p → truthy p = true →
  Dict.get p (link_one cur t) = Some C → Tote.tote_id t ∈ Tote.children C.
Proof.
  intros Hp Ht. unfold link_one. rewrite Hp, Ht.
  destruct (Dict.get p cur) as [parent|] eqn:Hq; [|congruence].
  case_bool_decide as Hin; [congruence|].
  rewrite get_set_eq. intros [= <-]. simpl.
  apply elem_of_app. right. apply list_elem_of_here.
Qed.

Lemma foldl_link_mono ts : ∀ cur p C,
  Dict.get p cur = Some C →
  ∃ C', Dict.get p (foldl link_one cur ts) = Some C'
        ∧ ∀ c, c ∈ Tote.children C → c ∈ Tote.children C'.
Proof.
  induction ts as [|t ts IH]; intros cur p C Hg; simpl; [by exists C|].
  destruct (link_one_mono cur t p C Hg) as (C1 & Hg1 & Hsub).
  destruct (IH _ _ _ Hg1) as (C' & Hg' & Hsub'). exists C'. split; auto.
Qed.

Lemma foldl_link_None ts : ∀ cur p,
  Dict.get p cur = None → Dict.get p (foldl link_one cur ts) = None.
Proof.
  induction ts as [|t ts IH]; intros cur p Hg; simpl; [done|].
  by apply IH, link_one_None.
Qed.

Lemma foldl_link_complete ts : ∀ cur t p C,
  t ∈ ts → Tote.parent_id t = Some p → truthy p = true →
  Dict.get p (foldl link_one cur ts) = Some C →
  Tote.tote_id t ∈ Tote.children C.
Proof.
  induction ts as [|t0 ts IH]; intros cur t p C Hin Hp Ht; simpl.
  - by apply elem_of_nil in Hin.
  - apply elem_of_cons in Hin as [->|Hin]; [|by apply IH].
    intros Hg. destruct (Dict.get p (link_one cur t0)) as [C1|] eqn:Hg1.
    + destruct (foldl_link_mono ts _ _ _ Hg1) as (C' & Hg' & Hsub).
      assert (C' = C) as -> by congruence.
      apply Hsub. by eapply link_one_adds.
    + apply (foldl_link_None ts) in Hg1. congruence.
Qed.
End LinkCompleteness.

Section LinkCompletenessModel.
Context `{PyInt} `{CsvSource}.

(** X8. The links of the model are complete: a container whose parent
    id is not empty and names a container of the model is listed among
    that container's children (a container that names itself as parent
    is listed as its own child). *)
Theorem read_csvs_children_complete paths model k T p C :
  read_csvs paths = Ok model →
  Dict.get k model = Some T → Tote.parent_id T = Some p → p ≠ [] →
  Dict.get p model = Some C →
  k ∈ Tote.children C.
Proof.
  unfold read_csvs. intros (pre & Hpre & ->)%fmap_Ok HgT Hp Hne HgC.
  pose proof (ingest_ingested _ _ Hpre) as Hin.
  destruct (build_links_linking pre Hin) as [Hkeys Hall].
  destruct (Hall _ _ HgT) as (t0 & Hg0 & Heq & _).
  assert (Tote.parent_id t0 = Some p) as Hp0.
  { rewrite Heq in Hp. exact Hp. }
  assert (Tote.tote_id t0 = k) as <-.
  { destruct Hin as [_ Hin]. by destruct (Hin _ _ Hg0). }
  unfold build_links in HgC.
  eapply foldl_link_complete; [|exact Hp0| |exact HgC].
  - unfold Dict.values. apply list_elem_of_fmap.
    eexists (_, t0). split; [done|]. by apply get_Some_elem.
  - by destruct p.
Qed.
End LinkCompletenessModel.

(** ** The items of the model *)

Section StripFacts.
Variable p : N → bool.
Implicit Types (s : pystr).

Lemma drop_while_suffix s : ∃ pre, s = pre ++ drop_while p s.
Proof.
  induction s as [|c s [pre IH]]; simpl; [by exists []|].
  destruct (p c); [|by exists []].
  exists (c :: pre). simpl. by f_equal.
Qed.

Lemma drop_while_head s c r : drop_while p s = c :: r → p c = false.
Proof.
  induction s as [|c0 s IH]; simpl; [done|].
  destruct (p c0) eqn:Hc; [done|]. by intros [= <- _].
Qed.

Lemma drop_while_fixed s :
  match s with [] => True | c :: _ => p c = false end → drop_while p s = s.
Proof. destruct s as [|c s]; simpl; [done|]. by intros ->. Qed.

Lemma strip_by_idem s : strip_by p (strip_by p s) = strip_by p s.
Proof.
  unfold strip_by.
  set (a := drop_while p s). set (b := drop_while p (rev a)).
  assert (Hb : drop_while p b = b).
  { apply drop_while_fixed. destruct b as [|c b'] eqn:Eb; [done|].
    by eapply drop_while_head. }
  assert (Hr : drop_while p (rev b) = rev b).
  { apply drop_while_fixed. destruct (rev b) as [|c r] eqn:Er; [done|].
    destruct (drop_while_suffix (rev a)) as [pre Hpre]. fold b in Hpre.
    apply (f_equal (@rev N)) in Hpre.
    rewrite rev_involutive, rev_app_distr, Er in Hpre. simpl in Hpre.
    unfold a in Hpre. by eapply drop_while_head. }
  by rewrite Hr, rev_involutive, Hb.
Qed.
End StripFacts.

Lemma strip_idem s : strip (strip s) = strip s.
Proof. apply strip_by_idem. Qed.

Section ItemFacts.
Context `{PyInt} `{CsvSource}.

Lemma field_value_stripped hidx (name : string) row :
  strip (field_value hidx name row) = field_value hidx name row.
Proof.
  unfold field_value, field, subscript. destruct (row !! _); simpl; [|done].
  apply strip_idem.
Qed.

Lemma first_image_of_spec images_field u :
  first_image_of images_field = Some u →
  startswith u (lit "http") = true ∧ is_word u ∧ u ∈ split images_field.
Proof.
  unfold first_image_of. destruct (truthy images_field); [|done].
  intros Hh. apply head_Some_elem_of in Hh.
  apply list_elem_of_filter in Hh as [Hs Hin].
  split_and!; [done| |done].
  pose proof (split_words images_field) as Hw.
  rewrite Forall_forall in Hw. by apply Hw.
Qed.

Lemma add_item_ok t ti de q images_field :
  strip ti = ti → strip de = de →
  Forall item_ok (Tote.items t) →
  Forall item_ok
    (Tote.items (Tote.add_item t ti de q (first_image_of images_field))).
Proof.
  intros Hti Hde Hall. unfold Tote.add_item.
  destruct (negb (truthy ti) && negb (truthy de)) eqn:Hempty; [done|].
  simpl. apply Forall_app. split; [done|]. apply Forall_singleton.
  assert (Hor : str_or de [] = de) by (by destruct de).
  unfold item_ok. simpl. rewrite Hor, Hti, Hde. split_and!; [|done|done|].
  - destruct (truthy ti), (truthy de); simpl in *; auto. 
  - destruct (first_image_of images_field) as [u|] eqn:Hu; simpl; [|done].
    apply first_image_of_spec in Hu as (Hs & Hw & _).
    assert (truthy u = true) as -> by (destruct Hw as [? _]; by destruct u).
    done.
Qed.

Lemma data_row_items st row st' :
  (∀ k t, Dict.get k (totes st) = Some t → Forall item_ok (Tote.items t)) →
  data_row st row = Ok st' →
  ∀ k t, Dict.get k (totes st') = Some t → Forall item_ok (Tote.items t).
Proof.
  intros Hall. unfold data_row. destruct (current_mode st).
  - by intros [= <-].
  - intros (d & Hd & ->)%fmap_Ok. simpl.
    destruct (tote_id_of (header_index st) row) as [tid|] eqn:Hid.
    + destruct (primary_row_spec _ _ _ _ _ Hid Hd) as (t' & Hf & ->).
      intros k t. rewrite get_set. destruct (decide (tid = k)) as [->|Hne].
      * intros [= <-].
        apply primary_fields_spec in Hf as (_ & _ & _ & _ & _ & _ & ->).
        apply add_item_ok; [apply field_value_stripped..|].
        destruct (Dict.get k (totes st)) as [t0|] eqn:Hg0; simpl; [eauto|].
        apply Forall_nil_2.
      * rewrite get_or_create_ne by done. apply Hall.
    + unfold primary_row in Hd. rewrite Hid in Hd. by injection Hd as <-.
  - intros (d & Hd & ->)%fmap_Ok. simpl.
    apply empty_row_spec in Hd as [->|(tid & t0 & t1 & _ & Hg & Hf & ->)];
      [done|].
    intros k t. rewrite get_set. destruct (decide (tid = k)) as [->|Hne].
    + intros [= <-].
      apply empty_fields_spec in Hf as (_ & _ & _ & _ & _ & _ & ->). eauto.
    + apply Hall.
  - by intros [= <-].
Qed.

Lemma ingest_items paths pre :
  ingest paths = Ok pre →
  ∀ k t, Dict.get k pre = Some t → Forall item_ok (Tote.items t).
Proof.
  unfold ingest.
  apply (foldlM_inv
           (λ d, ∀ k t, Dict.get k d = Some t → Forall item_ok (Tote.items t)));
    [|done].
  intros totes0 path totes' Hall. unfold read_file.
  intros (rows & _ & Hrun)%bind_Ok.
  apply bind_Ok in Hrun as (st & Hst & [= <-]).
  assert (∀ k t, Dict.get k (totes st) = Some t
                 → Forall item_ok (Tote.items t)) as Hst'.
  { eapply (foldlM_inv
              (λ st, ∀ k t, Dict.get k (totes st) = Some t
                            → Forall item_ok (Tote.items t)));
      [| |exact Hst]; [|exact Hall].
    intros a b a' Ha [->|Hd]%process_row_cases; [done|].
    by eapply data_row_items. }
  by destruct st.
Qed.
End ItemFacts.

(** ** What the links leave alone *)

Section LinkFrame.
Context `{PyInt} `{CsvSource}.

(** X22. Building the links changes nothing but the lists of children:
    every container of the model has the id, title, location, QR payload,
    items and parent id it had when the last file was read. *)
Theorem read_csvs_links_only_children paths model :
  read_csvs paths = Ok model →
  ∃ pre, ingest paths = Ok pre
    ∧ ∀ k t, Dict.get k model = Some t →
        ∃ t0, Dict.get k pre = Some t0
          ∧ Tote.tote_id t = Tote.tote_id t0
          ∧ Tote.title t = Tote.title t0
          ∧ Tote.location t = Tote.location t0
          ∧ Tote.qrdata t = Tote.qrdata t0
          ∧ Tote.items t = Tote.items t0
          ∧ Tote.parent_id t = Tote.parent_id t0.
Proof.
  unfold read_csvs. intros (pre & Hpre & ->)%fmap_Ok. exists pre.
  split; [done|]. pose proof (ingest_ingested _ _ Hpre) as Hin.
  destruct (build_links_linking pre Hin) as [_ Hall].
  intros k t Hg. destruct (Hall _ _ Hg) as (t0 & Hg0 & Heq & _).
  exists t0. split; [done|]. rewrite Heq. by split_and!.
Qed.
End LinkFrame.

(** ** Lines and cells *)

Section LineFacts.
Context `{FontMetrics}.
Variables (max_width : Q) (font_name : pystr) (font_size : Z).

Lemma concat_length_groups (groups : list (list pystr)) :
  Forall (λ g, g ≠ []) groups → (length groups ≤ length (concat groups))%nat.
Proof.
  induction 1 as [|g groups Hg Hall IH]; simpl; [done|].
  rewrite length_app. destruct g; [done|]. simpl. lia.
Qed.

(** X10. The lines of a text that holds a word: none is empty or
    carries white space at either end; a line is a single word or its
    width is within the bound; and there are no more lines than words. *)
Theorem wrap_text_line_fits text line :
  split text ≠ [] →
  line ∈ wrap_text text max_width font_name font_size →
  line ≠ [] ∧ strip line = line
  ∧ (is_word line
     ∨ (stringWidth line font_name font_size <= max_width)%Q)
  ∧ (length (wrap_text text max_width font_name font_size)
     ≤ length (split text))%nat.
Proof.
  intros Hwords Hline.
  destruct (wrap_text_groups max_width font_name font_size text)
    as (groups & Hgood & Hcat & Hwrap).
  rewrite Hwrap in *. destruct groups as [|g0 groups]; [by rewrite <- Hcat in Hwords|].
  apply list_elem_of_fmap in Hline as (g & -> & Hg).
  rewrite Forall_forall in Hgood.
  destruct (Hgood g Hg) as (Hne & Hw & Hpacked).
  split_and!.
  - destruct g as [|w g]; [done|].
    destruct (join_first w g Hw) as (a & r & _ & ->). done.
  - by apply strip_join.
  - destruct Hpacked as [[w ->]|Hfit]; [left|by right].
    simpl. by rewrite Forall_singleton in Hw.
  - rewrite length_map, <- Hcat. apply concat_length_groups.
    apply Forall_forall. intros g' Hg'. by destruct (Hgood g' Hg').
Qed.
End LineFacts.

Section CellFacts.
Context `{FontMetrics} `{Surface}.

Lemma ellipsize_truthy text max_w font size :
  truthy text = true → truthy (ellipsize text max_w font size) = true.
Proof.
  intros Ht. unfold ellipsize. destruct (Qle_bool _ _); [done|].
  by destruct (take _ text).
Qed.

(** X11. In the grid of text the height of a cell does not depend on
    the width of its column nor on the fonts: it is 19 points for an item
    without description and 29 for one with a description. *)
Theorem measure_cell_text_height fr item col_w :
  (measure_cell_text fr item col_w
   == if truthy (strip (ToteItem.description item)) then 29 else 19)%Q.
Proof.
  unfold measure_cell_text, ellipsized_cell.
  assert (Hor : str_or (ToteItem.description item) []
                = ToteItem.description item)
    by (by destruct (ToteItem.description item)).
  rewrite Hor.
  destruct (truthy (strip (ToteItem.description item))) eqn:Hd.
  - rewrite ellipsize_truthy by done. reflexivity.
  - reflexivity.
Qed.
End CellFacts.

(** ** The thumbnail cache *)

Section CacheFacts.
Context {Img Bytes : Type} `{!World Img Bytes}.
Implicit Types (fs : FS Bytes) (url : pystr).

Lemma fetch_thumbnail_run url thumb_px fs key :
  pil_available = true → makedirs_fails = false → sha1_hex url = Some key →
  let thumb_path := thumb_path_of key thumb_px in
  fetch_thumbnail url thumb_px fs
  = match (if bool_decide (is_Some (fs !! thumb_path))
           then load_cached thumb_path fs else (Ok None, fs)) with
    | (Ok (Some img), fs') => (Ok (Some img), fs')
    | (Ok None, fs') => download url thumb_path thumb_px fs'
    | (Raise e, fs') => (Raise e, fs')
    end.
Proof.
  intros Hpil Hmk Hkey thumb_path. unfold fetch_thumbnail, os_makedirs, _hash.
  rewrite Hpil, Hmk, Hkey. simpl.
  unfold mbind, io_bind, mret, io_ret, os_path_exists, call. simpl.
  fold thumb_path. case_bool_decide; [|done].
  by destruct (load_cached thumb_path fs) as [[[img|]|e] fs'].
Qed.

Lemma load_cached_hit thumb_path fs b img :
  fs !! thumb_path = Some b → open_rgb b = Some img →
  load_cached thumb_path fs = (Ok (Some img), fs).
Proof.
  intros Hb Hopen.
  unfold load_cached, try_except, mbind, io_bind, mret, io_ret, open_cached,
    call.
  by rewrite Hb, Hopen.
Qed.

Lemma download_success url thumb_path thumb_px fs resp img0 img1 c th :
  requests_get url = Some resp →
  ¬ (400 <= status_code resp ∧ status_code resp < 600) →
  image_open (content resp) = Some img0 →
  (if bool_decide (image_mode img0 ∈ [lit "RGB"; lit "RGBA"])
   then Some img0 else convert_rgb img0) = Some img1 →
  image_copy img1 = Some c → thumbnail c thumb_px = Some th →
  download url thumb_path thumb_px fs
  = (Ok (Some th),
     match save_png th with
     | Some b => <[thumb_path := b]> fs
     | None => fs
     end).
Proof.
  intros Hget Hstatus Hopen Hmode Hcopy Hth.
  unfold download, try_except, mbind, io_bind, call, raise_for_status, raise,
    mret, io_ret, save.
  rewrite Hget.
  destruct ((400 <=? status_code resp) && (status_code resp <? 600))
    eqn:Hst; [destruct Hstatus; lia|].
  rewrite Hopen. case_bool_decide.
  - injection Hmode as ->. rewrite Hcopy, Hth. by destruct (save_png th).
  - rewrite Hmode, Hcopy, Hth. by destruct (save_png th).
Qed.

(** X12. A thumbnail that is in the cache and can be decoded is
    returned from the file: the cache is left as it is and the outcome
    does not depend on what a request for the address would give. *)
Theorem fetch_thumbnail_cache_hit url thumb_px fs key b img :
  pil_available = true → makedirs_fails = false → sha1_hex url = Some key →
  fs !! thumb_path_of key thumb_px = Some b → open_rgb b = Some img →
  fetch_thumbnail url thumb_px fs = (Ok (Some img), fs).
Proof.
  intros Hpil Hmk Hkey Hfile Hopen.
  rewrite (fetch_thumbnail_run _ _ _ key) by done.
  rewrite bool_decide_true by (by rewrite Hfile).
  by rewrite (load_cached_hit _ _ b img).
Qed.

(** X13. A download that succeeds returns the scaled copy and writes it
    to the cache under the path made of the key and the size; when the
    file cannot be written the copy is returned all the same and the cache
    is left as it was. After the file is written, the next call for the same
    address and size returns what the file decodes to and changes
    nothing. *)
Theorem fetch_thumbnail_stores url thumb_px fs key resp img0 img1 c th :
  pil_available = true → makedirs_fails = false → sha1_hex url = Some key →
  let thumb_path := thumb_path_of key thumb_px in
  fs !! thumb_path = None →
  requests_get url = Some resp →
  ¬ (400 <= status_code resp ∧ status_code resp < 600) →
  image_open (content resp) = Some img0 →
  (if bool_decide (image_mode img0 ∈ [lit "RGB"; lit "RGBA"])
   then Some img0 else convert_rgb img0) = Some img1 →
  image_copy img1 = Some c → thumbnail c thumb_px = Some th →
  fetch_thumbnail url thumb_px fs
  = (Ok (Some th),
     match save_png th with
     | Some b => <[thumb_path := b]> fs
     | None => fs
     end)
  ∧ ∀ b th', save_png th = Some b → open_rgb b = Some th' →
      fetch_thumbnail url thumb_px (<[thumb_path := b]> fs)
      = (Ok (Some th'), <[thumb_path := b]> fs).
Proof.
  intros Hpil Hmk Hkey thumb_path Hfile Hget Hstatus Hopen Hmode Hcopy Hth.
  split.
  - rewrite (fetch_thumbnail_run _ _ _ key) by done. fold thumb_path.
    rewrite bool_decide_false by (rewrite Hfile; by intros [? ?]).
    by eapply download_success.
  - intros b th' Hsave Hdec.
    rewrite (fetch_thumbnail_run _ _ _ key) by done. fold thumb_path.
    rewrite bool_decide_true by (rewrite lookup_insert_eq; by eexists).
    by rewrite (load_cached_hit _ _ b th' (lookup_insert_eq _ _ _) Hdec).
Qed.
End CacheFacts.

(** ** Lines are filled greedily *)

Section GreedyFacts.
Context `{FontMetrics}.
Variables (max_width : Q) (font_name : pystr) (font_size : Z).

Local Abbreviation full := (greedy max_width font_name font_size).
Local Abbreviation over := (overflows max_width font_name font_size).

Lemma greedy_last_head gs c c' :
  head c' = head c → c ≠ [] → full (gs ++ [c]) → full (gs ++ [c']).
Proof.
  intros Hh Hc. induction gs as [|g gs IH]; simpl; [done|].
  intros [Hg Hrest]. split; [|by apply IH].
  destruct gs as [|g' gs]; simpl in *.
  - destruct c as [|w c]; [done|]. destruct c' as [|w' c']; [done|].
    simpl in Hh. by injection Hh as ->.
  - done.
Qed.

Lemma greedy_snoc gs c w :
  full (gs ++ [c]) → over c w → full (gs ++ [c] ++ [[w]]).
Proof.
  intros Hg Ho. induction gs as [|g gs IH]; simpl in *; [done|].
  destruct Hg as [Hg Hrest]. split; [|by apply IH].
  by destruct gs.
Qed.

Lemma greedy_lookup gs : ∀ i g w r,
  full gs → gs !! i = Some g → gs !! S i = Some (w :: r) → over g w.
Proof.
  induction gs as [|g0 gs IH]; intros i g w r Hg Hi Hs; [done|].
  destruct Hg as [Hhd Hrest]. destruct i as [|i]; simpl in *.
  - injection Hi as <-. destruct gs as [|g1 gs]; [done|].
    simpl in Hs. by injection Hs as ->.
  - by eapply IH.
Qed.

Lemma wrap_step_cases groups cur w :
  Forall is_word (cur ++ [w]) →
  wrap_step max_width font_name font_size (map (join space) groups, cur) w
  = if Qle_bool (stringWidth (join space (cur ++ [w])) font_name font_size)
         max_width
    then (map (join space) groups, cur ++ [w])
    else (map (join space)
            (groups ++ match cur with [] => [] | _ => [cur] end), [w]).
Proof.
  intros Hw. unfold wrap_step. rewrite strip_join by done.
  destruct (Qle_bool _ _); [done|]. by rewrite flush_groups.
Qed.

Lemma wrap_fold_greedy words : ∀ groups cur,
  Forall is_word (cur ++ words) →
  Forall (λ g, g ≠ [] ∧ Forall is_word g) groups →
  (cur = [] → groups = []) → full (groups ++ [cur]) →
  ∃ groups' cur',
    foldl (wrap_step max_width font_name font_size)
      (map (join space) groups, cur) words
    = (map (join space) groups', cur')
    ∧ Forall is_word cur'
    ∧ Forall (λ g, g ≠ [] ∧ Forall is_word g) groups'
    ∧ (cur' = [] → groups' = []) ∧ full (groups' ++ [cur']).
Proof.
  induction words as [|w words IH]; intros groups cur Hw Hgroups Hnil Hfull.
  - exists groups, cur. rewrite app_nil_r in Hw. by split_and!.
  - cbn [foldl].
    assert (Hcw : Forall is_word (cur ++ [w])).
    { apply Forall_app in Hw as [Hc Hws]. apply Forall_cons in Hws as [? _].
      apply Forall_app. split; [done | by apply Forall_singleton]. }
    rewrite wrap_step_cases by done.
    destruct (Qle_bool _ _) eqn:Hfit.
    + apply IH.
      * by rewrite <- app_assoc.
      * done.
      * by destruct cur.
      * destruct cur as [|c0 cur]; [by rewrite Hnil|].
        by apply (greedy_last_head _ (c0 :: cur)).
    + apply Forall_app in Hw as [Hc Hws]. apply IH.
      * exact Hws.
      * apply Forall_app. split; [done|].
        destruct cur; [done|]. by apply Forall_singleton.
      * done.
      * destruct cur as [|c0 cur].
        -- rewrite Hnil by done. simpl. done.
        -- rewrite <- app_assoc. apply greedy_snoc; [done|].
           unfold overflows. intros Hle. apply Qle_bool_iff in Hle.
           congruence.
Qed.

Lemma map_lookup {A B} (f : A → B) (l : list A) i :
  map f l !! i = f <$> l !! i.
Proof. revert i. induction l as [|x l IH]; intros [|i]; simpl; auto. Qed.

Lemma join_snoc g w : g ≠ [] → join space (g ++ [w]) = join space g ++ space ++ w.
Proof.
  induction g as [|a g IH]; [done|]. intros _.
  destruct g as [|b g]; [done|].
  change (join space ((a :: b :: g) ++ [w]))
    with (a ++ space ++ join space ((b :: g) ++ [w])).
  rewrite IH by done.
  change (join space (a :: b :: g)) with (a ++ space ++ join space (b :: g)).
  by rewrite <- !app_assoc.
Qed.

(** X21. Lines are filled greedily: for two consecutive lines of the
    result, the first word of the second line does not fit at the end of
    the first one (joined by a space), so a line is broken only where the
    next word would pass the bound. *)
Theorem wrap_text_greedy text i l1 l2 w :
  let lines := wrap_text text max_width font_name font_size in
  lines !! i = Some l1 → lines !! S i = Some l2 →
  head (split l2) = Some w →
  ¬ (stringWidth (l1 ++ space ++ w) font_name font_size <= max_width)%Q.
Proof.
  intros lines. subst lines. unfold wrap_text.
  pose proof (split_words text) as Hwords.
  destruct (wrap_fold_greedy (split text) [] []) as
    (groups & cur & Hfold & Hcur & Hgroups & Hnil & Hfull); [done..|].
  cbn [map] in Hfold. rewrite Hfold, flush_groups.
  set (gs := groups ++ match cur with [] => [] | _ => [cur] end).
  assert (Hgs : full gs).
  { unfold gs. destruct cur; [|done]. rewrite Hnil by done. done. }
  assert (Hall : Forall (λ g, g ≠ [] ∧ Forall is_word g) gs).
  { unfold gs. apply Forall_app. split; [done|].
    destruct cur; [done|]. by apply Forall_singleton. }
  clearbody gs. destruct gs as [|g0 gs]; [intros _ Hs; by simpl in Hs|].
  cbn [map].
  change (join space g0 :: map (join space) gs)
    with (map (join space) (g0 :: gs)).
  rewrite !map_lookup.
  intros (g1 & Hi & ->)%fmap_Some (g2 & Hs & ->)%fmap_Some Hhead.
  rewrite Forall_forall in Hall.
  destruct (Hall g1) as [Hne1 _]; [by eapply list_elem_of_lookup_2|].
  destruct (Hall g2) as [_ Hw2]; [by eapply list_elem_of_lookup_2|].
  rewrite split_join in Hhead by done.
  destruct g2 as [|w' r]; [done|]. injection Hhead as ->.
  rewrite <- join_snoc by done.
  by eapply greedy_lookup.
Qed.
End GreedyFacts.

(** ** The label and the grids *)

Lemma foldlM_ext_elem {A B} (f g : A → B → result A) (l : list B) : ∀ a,
  (∀ a x, x ∈ l → f a x = g a x) → foldlM f a l = foldlM g a l.
Proof.
  induction l as [|x l IH]; intros a Hfg; simpl; [done|].
  rewrite Hfg by apply list_elem_of_here.
  destruct (g a x) as [a1|e]; simpl; [|done]. apply IH.
  intros a' x' Hx'. apply Hfg. by apply list_elem_of_further.
Qed.

Lemma foldl_ext_elem {A B} (f g : A → B → A) (l : list B) : ∀ a,
  (∀ a x, x ∈ l → f a x = g a x) → foldl f a l = foldl g a l.
Proof.
  induction l as [|x l IH]; intros a Hfg; simpl; [done|].
  rewrite Hfg by apply list_elem_of_here. apply IH.
  intros a' x' Hx'. apply Hfg. by apply list_elem_of_further.
Qed.

Section SliceFacts.
Context {A : Type}.
Implicit Types (l row : list A) (k j : nat).

Lemma slices_from_enough k : ∀ f1 f2 l,
  (length l ≤ f1)%nat → (length l ≤ f2)%nat →
  slices_from f1 (S k) l = slices_from f2 (S k) l.
Proof.
  induction f1 as [|f1 IH]; intros f2 l H1 H2.
  - destruct l; [|simpl in H1; lia]. by destruct f2.
  - destruct l as [|x l]; [by destruct f2|].
    destruct f2 as [|f2]; [simpl in H2; lia|].
    cbn [slices_from]. f_equal. simpl in H1, H2.
    apply IH; rewrite length_drop; simpl; lia.
Qed.

Lemma slices_nil k : slices (S k) (@nil A) = [].
Proof. done. Qed.

Lemma slices_cons k l :
  l ≠ [] → slices (S k) l = take (S k) l :: slices (S k) (drop (S k) l).
Proof.
  intros Hne. unfold slices. destruct l as [|x l]; [done|].
  cbn [length slices_from]. f_equal.
  apply slices_from_enough; rewrite ?length_drop; simpl; lia.
Qed.

Lemma slices_lookup k j : ∀ l row,
  slices (S k) l !! j = Some row →
  row ≠ [] ∧ row = take (S k) (drop (j * S k) l).
Proof.
  induction j as [|j IH]; intros l row.
  - destruct l as [|x l]; [done|]. rewrite slices_cons by done.
    intros [= <-]. by split.
  - destruct l as [|x l]; [done|]. rewrite slices_cons by done.
    cbn [lookup list_lookup]. intros Hj. apply IH in Hj as [Hne ->].
    split; [done|]. by rewrite drop_drop.
Qed.

Lemma concat_slices k l : concat (slices (S k) l) = l.
Proof.
  remember (length l) as n eqn:Hn. revert l Hn.
  induction n as [n IH] using lt_wf_ind. intros l ->.
  destruct l as [|x l]; [done|]. rewrite slices_cons by done.
  cbn [concat]. rewrite (IH (length (drop (S k) (x :: l)))); [|..|done].
  - apply take_drop.
  - rewrite length_drop. simpl. lia.
Qed.

Lemma rows_step n k :
  (0 < n)%nat →
  ((n - S k + k) / S k + 1 = (n + k) / S k)%nat.
Proof.
  intros Hn. destruct (decide (S k ≤ n)%nat) as [Hle|Hlt].
  - rewrite <- (Nat.div_add _ 1 (S k)) by lia. f_equal. lia.
  - replace (n - S k)%nat with 0%nat by lia.
    rewrite (Nat.div_small (0 + k)) by lia.
    change (0 + 1)%nat with 1%nat.
    apply (Nat.div_unique _ _ 1%nat (n - 1)%nat); lia.
Qed.

Lemma length_slices k l :
  length (slices (S k) l) = ((length l + k) / S k)%nat.
Proof.
  remember (length l) as n eqn:Hn. revert l Hn.
  induction n as [n IH] using lt_wf_ind. intros l ->.
  destruct l as [|x l].
  - rewrite slices_nil. cbn [length]. by rewrite Nat.div_small by lia.
  - rewrite slices_cons by done. cbn [length].
    rewrite (IH (length (drop (S k) (x :: l)))); [|..|done].
    + rewrite length_drop. cbn [length].
      rewrite <- (rows_step (S (length l)) k) by lia. lia.
    + rewrite length_drop. simpl. lia.
Qed.
End SliceFacts.

Section LabelFacts.
Context `{FontMetrics} `{Surface}.
Implicit Types (m : Dict.t Tote.t) (tote : Tote.t) (p : pen).

Lemma draw_head_children_only tote page_size margin m m' :
  (∀ c, c ∈ Tote.children tote →
        Tote.title <$> child_of m c = Tote.title <$> child_of m' c) →
  draw_head tote page_size margin m = draw_head tote page_size margin m'.
Proof.
  intros Hsame. unfold draw_head. destruct page_size as [w h]. cbv zeta.
  match goal with
  | |- mbind _ ?X = _ => destruct X as [qr|e]; [|done]
  end.
  cbn [mbind result_bind].
  match goal with
  | |- context [foldl ?F ?P (Tote.children tote)] =>
      match goal with
      | |- context [foldl ?G P (Tote.children tote)] =>
          tryif constr_eq F G then fail else
            assert (foldl F P (Tote.children tote)
                    = foldl G P (Tote.children tote)) as Hfold
      end
  end.
  - apply foldl_ext_elem. intros p c Hc. specialize (Hsame c Hc).
    destruct (child_of m c) as [c1|], (child_of m' c) as [c2|]; simpl in *;
      try done.
    by injection Hsame as ->.
  - by rewrite Hfold.
Qed.

Lemma draw_child_children_only fr render_mode m m' p c :
  Tote.title <$> child_of m c = Tote.title <$> child_of m' c →
  Tote.items <$> child_of m c = Tote.items <$> child_of m' c →
  draw_child fr render_mode m p c = draw_child fr render_mode m' p c.
Proof.
  intros Ht Hi. unfold draw_child.
  destruct (child_of m c) as [c1|], (child_of m' c) as [c2|]; simpl in *;
    try done.
  injection Ht as ->. by injection Hi as ->.
Qed.

(** X14. A label shows one level of nesting: it depends on the table
    only through the titles and the items of the containers listed as
    children of the labelled container. Two tables that agree on those
    give the same label, or the same exception, whatever else they hold
    (children of the children, locations, parent ids, QR payloads, other
    containers). *)
Theorem draw_label_children_only tote page_size margin m m' render_mode :
  (∀ c, c ∈ Tote.children tote →
        Tote.title <$> child_of m c = Tote.title <$> child_of m' c
        ∧ Tote.items <$> child_of m c = Tote.items <$> child_of m' c) →
  draw_label tote page_size margin m render_mode
  = draw_label tote page_size margin m' render_mode.
Proof.
  intros Hsame. unfold draw_label.
  rewrite (draw_head_children_only tote page_size margin m m')
    by (intros c Hc; by destruct (Hsame c Hc)).
  destruct (draw_head tote page_size margin m') as [[p qr]|e]; [|done].
  cbn [mbind result_bind].
  match goal with
  | |- context [render_items ?fr render_mode ?its p] =>
      destruct (render_items fr render_mode its p) as [p1|e]; [|done];
      cbn [mbind result_bind];
      rewrite (foldlM_ext_elem (draw_child fr render_mode m)
                 (draw_child fr render_mode m'))
  end; [done|].
  intros p' c Hc. destruct (Hsame c Hc). by apply draw_child_children_only.
Qed.

Lemma text_loop_slices fr items i p :
  text_loop fr items i p
  = foldlM (λ q row, grid_step fr 4 (measure_text fr) (draw_text fr) row q)
      p (slices 4 (drop i items)).
Proof.
  funelim (text_loop fr items i p).
  - assert (Hne : drop i items ≠ []).
    { intros Hd. apply (f_equal length) in Hd. rewrite length_drop in Hd.
      simpl in Hd. lia. }
    rewrite slices_cons by done. cbn [foldlM].
    destruct (grid_step _ _ _ _ _ _) as [p1|e]; [|done].
    cbn [mbind result_bind]. rewrite drop_drop. auto.
  - rewrite drop_ge by lia. done.
Qed.

Lemma thumbs_loop_slices fr items i p :
  thumbs_loop fr items i p
  = foldlM (λ q row, grid_step fr 5 (measure_cell fr) (draw_cell fr) row q)
      p (slices 5 (drop i items)).
Proof.
  funelim (thumbs_loop fr items i p).
  - assert (Hne : drop i items ≠ []).
    { intros Hd. apply (f_equal length) in Hd. rewrite length_drop in Hd.
      simpl in Hd. lia. }
    rewrite slices_cons by done. cbn [foldlM].
    destruct (grid_step _ _ _ _ _ _) as [p1|e]; [|done].
    cbn [mbind result_bind]. rewrite drop_drop. auto.
  - rewrite drop_ge by lia. done.
Qed.

Lemma render_items_slices fr render_mode items p :
  render_items fr render_mode items p
  = match items with
    | [] => Ok (no_items fr p)
    | _ =>
        foldlM (λ q row, grid_row_step fr render_mode row q) p
          (slices (grid_cols render_mode) items)
    end.
Proof.
  unfold render_items, render_items_grid_text, render_items_grid_thumbs,
    grid_row_step, grid_cols.
  destruct (decide (render_mode = lit "text")); (destruct items; [done|]).
  - by rewrite text_loop_slices.
  - by rewrite thumbs_loop_slices.
Qed.

Lemma draw_lines_grid_rows x rise step lines : ∀ p yc,
  grid_rows (draw_lines x rise step lines (p, yc)).1 = grid_rows p.
Proof.
  unfold draw_lines.
  induction lines as [|l lines IH]; intros p yc; simpl; [done|].
  by rewrite IH.
Qed.

Lemma draw_cell_text_grid_rows fr item x_left y_top col_w p :
  grid_rows (draw_cell_text fr item x_left y_top col_w p) = grid_rows p.
Proof.
  unfold draw_cell_text. destruct (ellipsized_cell fr item col_w) as [t d].
  by destruct (truthy d).
Qed.

Lemma draw_text_grid_rows fr item x_left y_top col_w p p' :
  draw_text fr item x_left y_top col_w p = Ok p' →
  grid_rows p' = grid_rows p.
Proof. intros [= <-]. apply draw_cell_text_grid_rows. Qed.

Lemma draw_cell_grid_rows fr item x_left y_top col_w p p' :
  draw_cell fr item x_left y_top col_w p = Ok p' →
  grid_rows p' = grid_rows p.
Proof.
  unfold draw_cell. intros (found & _ & [= <-])%bind_Ok.
  unfold wrapped_cell. cbv beta iota zeta.
  assert (Hlines : ∀ x r s l q yc,
            grid_rows (draw_lines x r s l (q, yc)).1 = grid_rows q)
    by apply draw_lines_grid_rows.
  destruct found;
    match goal with
    | |- context [draw_lines ?x ?r ?s ?l (?q, ?yc)] =>
        pose proof (Hlines x r s l q yc) as Ht;
        destruct (draw_lines x r s l (q, yc)) as [p1 y1]
    end;
    simpl in Ht;
    (destruct (if truthy _ then _ else _) as [|d0 d]; [done|]);
    match goal with
    | |- context [draw_lines ?x ?r ?s ?l (?q, ?yc)] =>
        pose proof (Hlines x r s l q yc) as Hd;
        destruct (draw_lines x r s l (q, yc)) as [p2 y2]
    end;
    simpl in *; congruence.
Qed.

Lemma draw_row_grid_rows fr draw row_items col_width p p' :
  (∀ it x yt w q q', draw it x yt w q = Ok q' → grid_rows q' = grid_rows q) →
  draw_row fr draw row_items col_width p = Ok p' →
  grid_rows p' = grid_rows p.
Proof.
  intros Hdraw. unfold draw_row.
  apply (foldlM_inv (λ q, grid_rows q = grid_rows p)); [|done].
  intros q [i it] q' Hq Hstep. rewrite <- Hq. by eapply Hdraw.
Qed.

(** A row of a grid is recorded once, with the width chosen from the
    cursor at which the row starts. *)
Lemma grid_step_rows fr cols measure draw row_items p p' :
  (∀ it x yt w q q', draw it x yt w q = Ok q' → grid_rows q' = grid_rows q) →
  grid_step fr cols measure draw row_items p = Ok p' →
  ∃ r, grid_rows p' = grid_rows p ++ [r]
       ∧ row_available_width r = available_width fr (y p).
Proof.
  intros Hdraw. unfold grid_step.
  intros (hs & _ & Hrun)%bind_Ok.
  apply bind_Ok in Hrun as (q & Hrow & [= <-]).
  apply draw_row_grid_rows in Hrow; [|done]. simpl in *. rewrite Hrow.
  destruct (Qlt_le_dec _ _); simpl; eexists; (split; [reflexivity|done]).
Qed.

Lemma grid_row_step_rows fr render_mode row p p' :
  grid_row_step fr render_mode row p = Ok p' →
  ∃ r, grid_rows p' = grid_rows p ++ [r]
       ∧ row_available_width r = available_width fr (y p).
Proof.
  unfold grid_row_step. destruct (decide _); apply grid_step_rows.
  - intros it x yt w q q'. apply draw_text_grid_rows.
  - intros it x yt w q q'. apply draw_cell_grid_rows.
Qed.

Lemma grid_rows_fold fr render_mode rows : ∀ p p',
  foldlM (λ q row, grid_row_step fr render_mode row q) p rows = Ok p' →
  length (grid_rows p') = (length (grid_rows p) + length rows)%nat.
Proof.
  induction rows as [|row rows IH]; intros p p'; simpl.
  - intros [= <-]. lia.
  - intros (p1 & Hstep & Hrest)%bind_Ok.
    apply grid_row_step_rows in Hstep as (r & Hr & _).
    rewrite (IH _ _ Hrest), Hr, length_app. simpl. lia.
Qed.

(** X15. A grid is laid out row by row over the consecutive slices of
    its items: four items to a row in the grid of text, five in the grid
    with thumbnails, the last row taking what is left. The loop is the
    fold of its body over these slices; the slices are not empty, the
    j-th holds the items from position j times the number of columns on,
    together they are the items in their order, their number is the
    number of items divided by the number of columns, rounded up, and
    each adds one row to the layout. An empty list of items is not laid
    out in rows: the placeholder is drawn. *)
Theorem render_items_rows fr render_mode items p :
  let cols := grid_cols render_mode in
  render_items fr render_mode items p
  = match items with
    | [] => Ok (no_items fr p)
    | _ =>
        foldlM (λ q row, grid_row_step fr render_mode row q) p
          (slices cols items)
    end
  ∧ concat (slices cols items) = items
  ∧ (∀ j row, slices cols items !! j = Some row →
       row ≠ [] ∧ row = take cols (drop (j * cols) items))
  ∧ length (slices cols items) = ((length items + (cols - 1)) / cols)%nat
  ∧ match render_items fr render_mode items p with
    | Ok p' =>
        length (grid_rows p')
        = (length (grid_rows p) + length (slices cols items))%nat
    | Raise _ => True
    end.
Proof.
  intros cols. split; [apply render_items_slices|].
  assert (Hc : ∃ k, cols = S k).
  { unfold cols, grid_cols. destruct (decide _); by eexists. }
  destruct Hc as [k Hk]. rewrite Hk.
  split; [apply concat_slices|].
  split; [intros j row; apply slices_lookup|].
  split; [rewrite length_slices; f_equal; lia|].
  destruct (render_items fr render_mode items p) as [p'|e] eqn:Hrun; [|done].
  rewrite render_items_slices in Hrun. destruct items as [|it items].
  - injection Hrun as <-. simpl. lia.
  - apply grid_rows_fold in Hrun. by rewrite <- Hk.
Qed.
End LabelFacts.

(** ** Input paths and exit status *)

Section MainFacts.
Context `{PyInt} `{CsvSource} `{FontMetrics} `{Surface} `{Files}.

Lemma sorted_nil_inv keys : sorted keys = [] → keys = [].
Proof.
  intros Hs. apply Permutation_nil_r. rewrite <- Hs.
  symmetry. apply sorted_Permutation.
Qed.

(** X16. The input paths are never an empty list: a directory gives
    its CSV files, a pattern its matches, both in ascending order, a
    pattern without match that is the path of a file gives that path
    alone, and when nothing is found the function raises. *)
Theorem collect_input_paths_cases input_path :
  match collect_input_paths input_path with
  | Ok paths =>
      paths ≠ [] ∧ StronglySorted str_order paths
      ∧ (if isdir input_path
         then paths ≡ₚ glob (path_join input_path (lit "*.csv"))
         else paths ≡ₚ glob input_path
              ∨ (glob input_path = [] ∧ isfile input_path = true
                 ∧ paths = [input_path]))
  | Raise e =>
      e = OSError
      ∧ (if isdir input_path
         then glob (path_join input_path (lit "*.csv")) = []
         else glob input_path = [] ∧ isfile input_path = false)
  end.
Proof.
  unfold collect_input_paths. destruct (isdir input_path).
  - destruct (sorted (glob _)) as [|x l] eqn:Hs.
    + split; [done | by apply sorted_nil_inv].
    + split_and!; [done| |].
      * rewrite <- Hs. apply sorted_StronglySorted.
      * rewrite <- Hs. apply sorted_Permutation.
  - destruct (sorted (glob input_path)) as [|x l] eqn:Hs.
    + apply sorted_nil_inv in Hs. destruct (isfile input_path).
      * split_and!; [done| |by right].
        repeat constructor.
      * done.
    + split_and!; [done| |left].
      * rewrite <- Hs. apply sorted_StronglySorted.
      * rewrite <- Hs. apply sorted_Permutation.
Qed.

(** What one call of [generate_pdf] from [main] leaves: a document at the
    path asked for, which could be written, or an exception that comes
    from the path or from the drawing of a label. *)
Lemma generate_pdf_outcome totes (want : pystr * pystr) page :
  match generate_pdf totes want.1 page want.2 with
  | Ok d => doc_path d = want.1 ∧ output_writable want.1 = true
  | Raise e =>
      output_writable want.1 = false
      ∨ ∃ id tote page_size,
          Dict.get id totes = Some tote
          ∧ draw_label tote page_size (0.5 * inch)%Q totes want.2 = Raise e
  end.
Proof.
  pose proof (generate_pdf_cases totes want.1 page want.2) as Hc.
  destruct (generate_pdf totes want.1 page want.2) as [d|e].
  - by destruct Hc as (? & ? & _).
  - destruct Hc as [Hc|(id & tote & ps & _ & Hg & Hd)]; [by left|].
    right. by exists id, tote, ps.
Qed.

(** X17. The exit status of [main]. It is 2 when no input path is
    found and 1 when the files hold no container; what [read_csvs]
    raises leaves [main]. Otherwise the documents asked for (two in mode
    both, to the paths ending in _thumbs and _text, else one, to the
    output path) are generated in their order: the status is 0 when all
    of them were written, each to its path, which could be written; it
    is 3 when the generation of one of them raised, because its path
    could not be written or because the drawing of a label raised, and
    then the documents before it stay written and none after it is
    generated. *)
Theorem main_exit_status a :
  match collect_input_paths (arg_input a) with
  | Raise _ => main a = Ok (2, [])
  | Ok paths =>
      match read_csvs paths with
      | Raise e => main a = Raise e
      | Ok totes =>
          match totes with
          | [] => main a = Ok (1, [])
          | _ =>
              ∃ status docs,
                main a = Ok (status, docs)
                ∧ Forall2
                    (λ d want,
                       generate_pdf totes want.1 (arg_page a) want.2 = Ok d
                       ∧ doc_path d = want.1
                       ∧ output_writable want.1 = true)
                    docs (take (length docs) (requested a))
                ∧ ((status = 0 ∧ length docs = length (requested a))
                   ∨ (status = 3
                      ∧ ∃ want e,
                          requested a !! length docs = Some want
                          ∧ generate_pdf totes want.1 (arg_page a) want.2
                            = Raise e
                          ∧ (output_writable want.1 = false
                             ∨ ∃ id tote page_size,
                                 Dict.get id totes = Some tote
                                 ∧ draw_label tote page_size (0.5 * inch)%Q
                                     totes want.2 = Raise e)))
          end
      end
  end.
Proof.
  unfold main.
  destruct (collect_input_paths (arg_input a)) as [paths|e]; [|done].
  destruct (read_csvs paths) as [totes|e]; [|done]. cbn [mbind result_bind].
  destruct totes as [|kv totes]; [done|].
  generalize (kv :: totes). intros model. unfold requested.
  destruct (decide (arg_mode a = lit "both")) as [Hb|Hb].
  - destruct (splitext (arg_output a)) as [base ext]. cbv zeta.
    set (path1 := base ++ lit "_thumbs" ++ str_or ext (lit ".pdf")).
    set (path2 := base ++ lit "_text" ++ str_or ext (lit ".pdf")).
    pose proof (generate_pdf_outcome model (path1, lit "thumbs") (arg_page a))
      as Ho1.
    pose proof (generate_pdf_outcome model (path2, lit "text") (arg_page a))
      as Ho2.
    cbn [fst snd] in Ho1, Ho2.
    destruct (generate_pdf model path1 (arg_page a) (lit "thumbs"))
      as [d1|e1] eqn:Hg1.
    + destruct (generate_pdf model path2 (arg_page a) (lit "text"))
        as [d2|e2] eqn:Hg2.
      * exists 0, [d1; d2]. split; [done|]. split; [|by left].
        destruct Ho1 as [? ?], Ho2 as [? ?]. repeat constructor; done.
      * exists 3, [d1]. split; [done|]. split.
        -- destruct Ho1 as [? ?]. repeat constructor; done.
        -- right. split; [done|]. by exists (path2, lit "text"), e2.
    + exists 3, []. split; [done|]. split; [constructor|].
      right. split; [done|]. by exists (path1, lit "thumbs"), e1.
  - destruct (decide (arg_mode a = lit "thumbs")).
    + pose proof (generate_pdf_outcome model (arg_output a, lit "thumbs")
                    (arg_page a)) as Ho1.
      cbn [fst snd] in Ho1.
      destruct (generate_pdf model (arg_output a) (arg_page a) (lit "thumbs"))
        as [d1|e1] eqn:Hg1.
      * exists 0, [d1]. split; [done|]. split; [|by left].
        destruct Ho1 as [? ?]. repeat constructor; done.
      * exists 3, []. split; [done|]. split; [constructor|].
        right. split; [done|]. by exists (arg_output a, lit "thumbs"), e1.
    + pose proof (generate_pdf_outcome model (arg_output a, lit "text")
                    (arg_page a)) as Ho1.
      cbn [fst snd] in Ho1.
      destruct (generate_pdf model (arg_output a) (arg_page a) (lit "text"))
        as [d1|e1] eqn:Hg1.
      * exists 0, [d1]. split; [done|]. split; [|by left].
        destruct Ho1 as [? ?]. repeat constructor; done.
      * exists 3, []. split; [done|]. split; [constructor|].
        right. split; [done|]. by exists (arg_output a, lit "text"), e1.
Qed.
End MainFacts.

(** ** Rows only add to the table *)

Section GrowthFacts.
Context `{PyInt} `{CsvSource}.

Lemma extends_refl t : extends t t.
Proof. by split_and!. Qed.

Lemma extends_trans t1 t2 t3 : extends t1 t2 → extends t2 t3 → extends t1 t3.
Proof.
  intros (Hi & Ht & Hl & Hq & Hp) (Hi' & Ht' & Hl' & Hq' & Hp').
  split_and!.
  - congruence.
  - intros Hx. rewrite Ht', Ht; auto. by rewrite Ht.
  - intros Hx. rewrite Hl', Hl; auto. by rewrite Hl.
  - intros Hx. rewrite Hq', Hq; auto. by rewrite Hq.
  - by etrans.
Qed.

Lemma grows_refl totes : grows totes totes.
Proof. split; [done|]. intros k t Hg. exists t. split; [done|apply extends_refl]. Qed.

Lemma grows_trans d1 d2 d3 : grows d1 d2 → grows d2 d3 → grows d1 d3.
Proof.
  intros [Hk Hall] [Hk' Hall']. split; [by etrans|].
  intros k t Hg. destruct (Hall _ _ Hg) as (t2 & Hg2 & He).
  destruct (Hall' _ _ Hg2) as (t3 & Hg3 & He'). exists t3.
  split; [done|]. by eapply extends_trans.
Qed.

Lemma foldlM_grows {A B} (R : A → A → Prop) (f : A → B → result A) l :
  (∀ a, R a a) → (∀ a b c, R a b → R b c → R a c) →
  (∀ a b a', f a b = Ok a' → R a a') →
  ∀ a a', foldlM f a l = Ok a' → R a a'.
Proof.
  intros Hrefl Htrans Hstep. induction l as [|b l IH]; intros a a'; simpl.
  - intros [= <-]. apply Hrefl.
  - intros (a1 & Hf & Hrest)%bind_Ok. eapply Htrans; eauto.
Qed.

Lemma add_item_prefix t ti de q img :
  Tote.items t `prefix_of` Tote.items (Tote.add_item t ti de q img).
Proof.
  unfold Tote.add_item. destruct (_ && _); [done|]. simpl.
  by apply prefix_app_r.
Qed.

Lemma set_grows tid t t' totes :
  Dict.get tid totes = Some t → extends t t' →
  grows totes (Dict.set tid t' totes).
Proof.
  intros Hg He. split; [by rewrite (keys_set_Some _ _ _ _ Hg)|].
  intros k t0 Hg0. rewrite get_set. destruct (decide (tid = k)) as [->|Hne].
  - exists t'. split; [done|]. congruence.
  - exists t0. split; [done | apply extends_refl].
Qed.

Lemma get_or_create_grows tid totes :
  grows totes (get_or_create tid totes).
Proof.
  unfold get_or_create. destruct (Dict.get tid totes) eqn:Hg;
    [apply grows_refl|].
  split.
  - rewrite (keys_set_None _ _ _ Hg). by apply prefix_app_r.
  - intros k t Hk. exists t. split; [|apply extends_refl].
    rewrite get_set_ne; [done | congruence].
Qed.

Lemma str_or_keeps a b : truthy a = true → str_or a b = a.
Proof. unfold str_or. by intros ->. Qed.

Lemma primary_fields_extends hidx row t t' :
  primary_fields hidx row t = Ok t' → extends t t'.
Proof.
  intros (Hi & _ & Hti & Hlo & Hq & _ & Hit)%primary_fields_spec.
  split_and!; [done| | | |].
  - intros Hx. by rewrite Hti, str_or_keeps.
  - intros Hx. by rewrite Hlo, str_or_keeps.
  - intros Hx. by rewrite Hq, Hx.
  - rewrite Hit. apply add_item_prefix.
Qed.

Lemma empty_fields_extends hidx row t t' :
  empty_fields hidx row t = Ok t' → extends t t'.
Proof.
  intros (Hi & _ & Hti & Hlo & Hq & _ & Hit)%empty_fields_spec.
  split_and!; [done| | |done|by rewrite Hit].
  - intros Hx. by rewrite Hti, str_or_keeps.
  - intros Hx. by rewrite Hlo, str_or_keeps.
Qed.

Lemma data_row_grows st row st' :
  data_row st row = Ok st' → grows (totes st) (totes st').
Proof.
  unfold data_row. destruct (current_mode st).
  - intros [= <-]. apply grows_refl.
  - intros (d & Hd & ->)%fmap_Ok. simpl.
    destruct (tote_id_of (header_index st) row) as [tid|] eqn:Hid.
    + destruct (primary_row_spec _ _ _ _ _ Hid Hd) as (t' & Hf & ->).
      eapply grows_trans; [apply (get_or_create_grows tid)|].
      eapply set_grows; [apply get_or_create_get|].
      by eapply primary_fields_extends.
    + unfold primary_row in Hd. rewrite Hid in Hd. injection Hd as <-.
      apply grows_refl.
  - intros (d & Hd & ->)%fmap_Ok. simpl.
    apply empty_row_spec in Hd as [->|(tid & t0 & t1 & _ & Hg & Hf & ->)];
      [apply grows_refl|].
    eapply set_grows; [done|]. by eapply empty_fields_extends.
  - intros [= <-]. apply grows_refl.
Qed.

Lemma process_row_grows st row st' :
  process_row st row = Ok st' → grows (totes st) (totes st').
Proof.
  intros [->|Hd]%process_row_cases; [apply grows_refl|].
  by eapply data_row_grows.
Qed.

(** X18. Reading never takes anything back: after a file is read, the
    containers the table held are still there, in the same order and
    before any new one, each with the same id, with its title, location
    and QR payload unchanged where they were set, and with the items it
    had still at the front of its list. *)
Theorem read_file_grows totes0 path totes' :
  read_file totes0 path = Ok totes' → grows totes0 totes'.
Proof.
  unfold read_file. intros (rows & _ & Hrun)%bind_Ok.
  apply bind_Ok in Hrun as (st & Hst & [= <-]).
  assert (grows (totes (Reader UNKNOWN ∅ totes0)) (totes st)) as Hg.
  { eapply (foldlM_grows (λ a b, grows (totes a) (totes b))); [| | |exact Hst].
    - intros a. apply grows_refl.
    - intros a b c. apply grows_trans.
    - intros a b a'. apply process_row_grows. }
  by destruct st.
Qed.
End GrowthFacts.

(** ** Where the ids and the items of the model come from *)

Section IdFacts.
Context `{PyInt} `{CsvSource}.

Lemma read_in_primary_app rows more h row :
  read_in_primary rows h row → read_in_primary (rows ++ more) h row.
Proof.
  intros (a & b & Hab & Ha & Hb & Hs & Hbetween & Hdata).
  exists a, b. split; [done|].
  split; [by apply lookup_app_l_Some|].
  split; [by apply lookup_app_l_Some|].
  split; [done|]. split; [|done].
  intros j r Hj Hr. apply (Hbetween j r Hj).
  rewrite lookup_app_l in Hr; [done|].
  apply lookup_lt_Some in Hb. lia.
Qed.

Lemma id_cell_app rows more k : id_cell rows k → id_cell (rows ++ more) k.
Proof.
  intros (h & row & Hread & Hid). exists h, row.
  split; [by apply read_in_primary_app | done].
Qed.

Lemma item_cell_app rows more k it :
  item_cell rows k it → item_cell (rows ++ more) k it.
Proof.
  intros (h & row & Hread & Hid & Hit). exists h, row.
  split; [by apply read_in_primary_app | done].
Qed.

Lemma keys_primary_row tid t' totes k :
  k ∈ Dict.keys (Dict.set tid t' (get_or_create tid totes)) ↔
  k = tid ∨ k ∈ Dict.keys totes.
Proof.
  rewrite (keys_set_Some _ _ _ _ (get_or_create_get tid totes)).
  unfold get_or_create. destruct (Dict.get tid totes) eqn:Hg.
  - split; [by right|]. intros [->|Hk]; [|done].
    apply dec_stable. intros Hno. apply get_None_keys in Hno. congruence.
  - rewrite (keys_set_None _ _ _ Hg), elem_of_app, list_elem_of_singleton.
    tauto.
Qed.

Lemma section_open_snoc done st row :
  is_blank row = true ∨ is_data_row row = true →
  section_open done st → section_open (done ++ [row]) st.
Proof.
  intros Hrow Hopen Hmode.
  destruct (Hopen Hmode) as (a & h & Ha & Hs & Hidx & Hafter).
  exists a, h. split; [by apply lookup_app_l_Some|]. split; [done|].
  split; [done|]. intros j r Hj Hr.
  apply lookup_app_Some in Hr as [Hr|[_ Hr]]; [by eapply Hafter|].
  apply list_lookup_singleton_Some in Hr as [_ <-]. done.
Qed.

(** What one row does: it keeps the table; or, in the EMPTY state, it
    fills a container that exists; or, in the PRIMARY state, it is a data
    row under the header of the section and sets the container it names. *)
Lemma process_row_step done st row st' :
  process_row st row = Ok st' → section_open done st →
  section_open (done ++ [row]) st'
  ∧ (totes st' = totes st
     ∨ (∃ tid t t',
          Dict.get tid (totes st) = Some t
          ∧ empty_fields (header_index st) row t = Ok t'
          ∧ totes st' = Dict.set tid t' (totes st))
     ∨ (∃ h tid t',
          read_in_primary (done ++ [row]) h row
          ∧ tote_id_of (make_header_index h) row = Some tid
          ∧ primary_fields (make_header_index h) row
              (default (Tote.new tid) (Dict.get tid (totes st))) = Ok t'
          ∧ totes st' = Dict.set tid t' (get_or_create tid (totes st)))).
Proof.
  intros Hrun Hopen. unfold process_row in Hrun.
  destruct (is_blank row) eqn:Hb.
  { injection Hrun as <-. split; [apply section_open_snoc|]; auto. }
  destruct (is_marker row) eqn:Hm.
  { injection Hrun as <-. split; [done | by left]. }
  destruct (sniff_headers row) eqn:Hs.
  - assert (Hdata : is_data_row row = true).
    { unfold is_data_row. rewrite Hb, Hm, Hs. done. }
    destruct (_ && _).
    { injection Hrun as <-. split; [done | by left]. }
    unfold data_row in Hrun. destruct (current_mode st) eqn:Hmode.
    + injection Hrun as <-. split; [|by left]. intros Hx. congruence.
    + apply fmap_Ok in Hrun as (d & Hd & ->).
      destruct (Hopen Hmode) as (a & h & Ha & Hsh & Hidx & Hafter). split.
      * intros _. exists a, h. split; [by apply lookup_app_l_Some|].
        split; [done|]. split; [done|]. intros j r Hj Hr.
        apply lookup_app_Some in Hr as [Hr|[_ Hr]]; [by eapply Hafter|].
        apply list_lookup_singleton_Some in Hr as [_ <-]. auto.
      * simpl. destruct (tote_id_of (header_index st) row) as [tid|] eqn:Hid.
        -- destruct (primary_row_spec _ _ _ _ _ Hid Hd) as (t' & Hf & ->).
           right; right. exists h, tid, t'. rewrite <- Hidx.
           split; [|done].
           exists a, (length done).
           split; [by eapply lookup_lt_Some|].
           split; [by apply lookup_app_l_Some|].
           split; [by rewrite lookup_app_r, Nat.sub_diag|].
           split; [done|]. split; [|done].
           intros j r [Hj1 Hj2] Hr. apply (Hafter j r Hj1).
           by rewrite lookup_app_l in Hr.
        -- unfold primary_row in Hd. rewrite Hid in Hd. injection Hd as <-.
           by left.
    + apply fmap_Ok in Hrun as (d & Hd & ->). split; [done|]. simpl.
      apply empty_row_spec in Hd as [->|(tid & t0 & t1 & _ & Hg & Hf & ->)];
        [by left|].
      right; left. by exists tid, t0, t1.
    + injection Hrun as <-. split; [|by left]. intros Hx. congruence.
  - injection Hrun as <-. split; [|by left].
    intros _. exists (length done), row.
    split; [by rewrite lookup_app_r, Nat.sub_diag|]. split; [done|].
    split; [done|]. intros j r Hj Hr. apply lookup_lt_Some in Hr.
    rewrite length_app in Hr. simpl in Hr. lia.
  - injection Hrun as <-. split; [done | by left].
  - by destruct (sniff_headers_not_pending row).
Qed.

Lemma process_row_ids totes0 done st row st' :
  process_row st row = Ok st' →
  section_open done st → keys_from totes0 done st →
  keys_from totes0 (done ++ [row]) st'.
Proof.
  intros Hrun Hopen Hkeys.
  assert (Hold : ∀ k, k ∈ Dict.keys (totes st) →
            k ∈ Dict.keys totes0 ∨ id_cell (done ++ [row]) k).
  { intros k Hk. destruct (Hkeys k Hk) as [Hk0|Hcell]; [by left|].
    right. by apply id_cell_app. }
  destruct (process_row_step _ _ _ _ Hrun Hopen)
    as [_ [Heq|[(tid & t & t' & Hg & _ & Heq)
                |(h & tid & t' & Hread & Hid & _ & Heq)]]];
    intros k; rewrite Heq.
  - apply Hold.
  - rewrite (keys_set_Some _ _ _ _ Hg). apply Hold.
  - rewrite keys_primary_row. intros [->|Hk]; [|by apply Hold].
    right. by exists h, row.
Qed.

Lemma first_image_of_head images_field :
  first_image_of images_field
  = head (filter (λ w, startswith w (lit "http") = true) (split images_field)).
Proof.
  unfold first_image_of. destruct images_field as [|c s]; [|done].
  by rewrite split_blank.
Qed.

(** The items after [add_item] are the items before, and at most one
    more that holds the values passed. *)
Lemma add_item_elem t ti de q images_field it :
  strip ti = ti → strip de = de →
  it ∈ Tote.items (Tote.add_item t ti de (Some q) (first_image_of images_field)) →
  it ∈ Tote.items t
  ∨ (ToteItem.title it = ti ∧ ToteItem.description it = de
     ∧ ToteItem.quantity it = Tote.parse_quantity (Some q)
     ∧ ToteItem.image_url it
       = head (filter (λ w, startswith w (lit "http") = true)
                 (split images_field))).
Proof.
  intros Hti Hde. unfold Tote.add_item.
  destruct (negb (truthy ti) && negb (truthy de)); [by left|]. simpl.
  intros [Hold| ->%list_elem_of_singleton]%elem_of_app; [by left|].
  right. simpl. split; [done|].
  split; [by destruct de|]. split; [done|].
  rewrite <- first_image_of_head.
  destruct (first_image_of images_field) as [u|] eqn:Hu; [|done].
  apply first_image_of_spec in Hu as (_ & [Hne _] & _). simpl.
  by destruct u.
Qed.

Lemma process_row_items totes0 done st row st' :
  process_row st row = Ok st' →
  section_open done st → items_from totes0 done st →
  items_from totes0 (done ++ [row]) st'.
Proof.
  intros Hrun Hopen Hitems.
  assert (Hold : ∀ k t it, Dict.get k (totes st) = Some t →
            it ∈ Tote.items t →
            (∃ t0, Dict.get k totes0 = Some t0 ∧ it ∈ Tote.items t0)
            ∨ item_cell (done ++ [row]) k it).
  { intros k t it Hg Hit. destruct (Hitems k t it Hg Hit) as [Hbefore|Hcell];
      [by left|].
    right. by apply item_cell_app. }
  destruct (process_row_step _ _ _ _ Hrun Hopen)
    as [_ [Heq|[(tid & t0 & t1 & Hg & Hf & Heq)
                |(h & tid & t1 & Hread & Hid & Hf & Heq)]]];
    intros k t it; rewrite Heq.
  - apply Hold.
  - rewrite get_set. destruct (decide (tid = k)) as [->|Hne]; [|apply Hold].
    intros [= <-].
    apply empty_fields_spec in Hf as (_ & _ & _ & _ & _ & _ & ->).
    by apply Hold.
  - rewrite get_set. destruct (decide (tid = k)) as [->|Hne].
    + intros [= <-].
      apply primary_fields_spec in Hf as (_ & _ & _ & _ & _ & _ & ->).
      intros [Hin|Hnew]%add_item_elem; [| |apply field_value_stripped..].
      * destruct (Dict.get k (totes st)) as [t0|] eqn:Hg0; simpl in Hin.
        -- by apply (Hold k t0).
        -- by apply elem_of_nil in Hin.
      * right. by exists h, row.
    + rewrite get_or_create_ne by done. apply Hold.
Qed.

Lemma process_rows_from totes0 rows : ∀ done st st',
  foldlM process_row st rows = Ok st' →
  section_open done st →
  keys_from totes0 done st → items_from totes0 done st →
  keys_from totes0 (done ++ rows) st' ∧ items_from totes0 (done ++ rows) st'.
Proof.
  induction rows as [|row rows IH]; intros done st st'; simpl.
  - intros [= <-] _ Hkeys Hitems. by rewrite app_nil_r.
  - intros (st1 & Hrow & Hrest)%bind_Ok Hopen Hkeys Hitems.
    destruct (process_row_step _ _ _ _ Hrow Hopen) as [Hopen1 _].
    pose proof (process_row_ids _ _ _ _ _ Hrow Hopen Hkeys) as Hkeys1.
    pose proof (process_row_items _ _ _ _ _ Hrow Hopen Hitems) as Hitems1.
    rewrite (cons_middle row), app_assoc. by eapply IH.
Qed.

Lemma read_file_from totes0 path totes' :
  read_file totes0 path = Ok totes' →
  ∃ rows, open_csv path = Ok rows
    ∧ (∀ k, k ∈ Dict.keys totes' → k ∈ Dict.keys totes0 ∨ id_cell rows k)
    ∧ ∀ k t it, Dict.get k totes' = Some t → it ∈ Tote.items t →
        (∃ t0, Dict.get k totes0 = Some t0 ∧ it ∈ Tote.items t0)
        ∨ item_cell rows k it.
Proof.
  unfold read_file. intros (rows & Hopen & Hrun)%bind_Ok.
  apply bind_Ok in Hrun as (st & Hst & [= <-]). exists rows.
  split; [done|].
  destruct (process_rows_from totes0 rows [] _ _ Hst) as [Hkeys Hitems].
  - done.
  - intros k Hk. by left.
  - intros k t it Hg Hit. left. by exists t.
  - by destruct st.
Qed.

Lemma ingest_from paths : ∀ totes0 totes',
  foldlM read_file totes0 paths = Ok totes' →
  (∀ k, k ∈ Dict.keys totes' →
     k ∈ Dict.keys totes0
     ∨ ∃ path rows, path ∈ paths ∧ open_csv path = Ok rows ∧ id_cell rows k)
  ∧ ∀ k t it, Dict.get k totes' = Some t → it ∈ Tote.items t →
      (∃ t0, Dict.get k totes0 = Some t0 ∧ it ∈ Tote.items t0)
      ∨ ∃ path rows, path ∈ paths ∧ open_csv path = Ok rows
                     ∧ item_cell rows k it.
Proof.
  induction paths as [|path paths IH]; intros totes0 totes'; simpl.
  - intros [= <-]. split; [by left|]. intros k t it Hg Hit. left. by exists t.
  - intros (totes1 & Hfile & Hrest)%bind_Ok.
    destruct (IH _ _ Hrest) as [Hkeys Hitems].
    destruct (read_file_from _ _ _ Hfile) as (rows & Hopen & Hk1 & Hi1).
    split.
    + intros k Hk.
      destruct (Hkeys k Hk) as [Hin1|(p & rs & Hp & Ho & Hc)].
      * destruct (Hk1 k Hin1) as [Hold|Hcell]; [by left|].
        right. exists path, rows. split; [apply list_elem_of_here | done].
      * right. exists p, rs. split; [by apply list_elem_of_further | done].
    + intros k t it Hg Hit.
      destruct (Hitems k t it Hg Hit)
        as [(t1 & Hg1 & Hit1)|(p & rs & Hp & Ho & Hc)].
      * destruct (Hi1 k t1 it Hg1 Hit1) as [Hold|Hcell]; [by left|].
        right. exists path, rows. split; [apply list_elem_of_here | done].
      * right. exists p, rs. split; [by apply list_elem_of_further | done].
Qed.

(** The other direction: an id cell of a file that is read is a key. *)

Lemma foldlM_app {A B} (f : A → B → result A) (l1 l2 : list B) : ∀ a,
  foldlM f a (l1 ++ l2) = (a' ← foldlM f a l1; foldlM f a' l2).
Proof.
  induction l1 as [|b l1 IH]; intros a; simpl; [done|].
  destruct (f a b) as [a1|e]; simpl; [apply IH | done].
Qed.

Lemma process_rows_keys rows st st' :
  foldlM process_row st rows = Ok st' →
  Dict.keys (totes st) ⊆ Dict.keys (totes st').
Proof.
  intros Hrun.
  assert (grows (totes st) (totes st')) as [Hpre _].
  { eapply (foldlM_grows (λ a b, grows (totes a) (totes b))); [| | |exact Hrun].
    - intros a. apply grows_refl.
    - intros a b c. apply grows_trans.
    - intros a b a'. apply process_row_grows. }
  intros k Hk. destruct Hpre as [more ->]. apply elem_of_app. by left.
Qed.

Lemma read_file_keys totes0 path totes' :
  read_file totes0 path = Ok totes' → Dict.keys totes0 ⊆ Dict.keys totes'.
Proof.
  unfold read_file. intros (rows & _ & Hrun)%bind_Ok.
  apply bind_Ok in Hrun as (st & Hst & [= <-]).
  apply process_rows_keys in Hst. by destruct st.
Qed.

Lemma ingest_keys paths : ∀ totes0 totes',
  foldlM read_file totes0 paths = Ok totes' →
  Dict.keys totes0 ⊆ Dict.keys totes'.
Proof.
  induction paths as [|path paths IH]; intros totes0 totes'; simpl.
  - by intros [= <-].
  - intros (totes1 & Hfile & Hrest)%bind_Ok.
    etrans; [by eapply read_file_keys | by eapply IH].
Qed.

(** Blank rows and data rows leave a PRIMARY section open. *)
Lemma section_rows_keep mid : ∀ st st',
  Forall (λ r, is_blank r = true ∨ is_data_row r = true) mid →
  current_mode st = PRIMARY →
  foldlM process_row st mid = Ok st' →
  current_mode st' = PRIMARY ∧ header_index st' = header_index st.
Proof.
  induction mid as [|r mid IH]; intros st st' Hmid Hmode; simpl.
  - by intros [= <-].
  - apply Forall_cons in Hmid as [Hr Hmid].
    intros (st1 & Hrow & Hrest)%bind_Ok.
    assert (current_mode st1 = PRIMARY ∧ header_index st1 = header_index st)
      as [Hmode1 Hidx1].
    { destruct Hr as [Hb|Hd].
      - unfold process_row in Hrow. rewrite Hb in Hrow. by injection Hrow as <-.
      - rewrite (process_row_data _ _ Hd) in Hrow by congruence.
        unfold data_row in Hrow. rewrite Hmode in Hrow.
        apply fmap_Ok in Hrow as (d & _ & ->). done. }
    destruct (IH _ _ Hmid Hmode1 Hrest) as [Hm Hi]. split; [done|congruence].
Qed.

Lemma process_rows_id_cell rows k st st' :
  id_cell rows k → foldlM process_row st rows = Ok st' →
  k ∈ Dict.keys (totes st').
Proof.
  intros (h & row & (a & b & Hab & Ha & Hb & Hs & Hbetween & Hdata) & Hid)
    Hrun.
  assert (Hsplit : rows = take a rows ++ [h]
                          ++ take (b - S a) (drop (S a) rows) ++ [row]
                          ++ drop (S b) rows).
  { rewrite <- (take_drop a rows) at 1. f_equal.
    rewrite (drop_S _ _ _ Ha). simpl. f_equal.
    rewrite <- (take_drop (b - S a) (drop (S a) rows)) at 1. f_equal.
    rewrite drop_drop. replace (S a + (b - S a))%nat with b by lia.
    by rewrite (drop_S _ _ _ Hb). }
  rewrite Hsplit in Hrun. clear Hsplit.
  rewrite foldlM_app in Hrun. apply bind_Ok in Hrun as (st1 & _ & Hrun).
  rewrite foldlM_app in Hrun. apply bind_Ok in Hrun as (st2 & Hh & Hrun).
  rewrite foldlM_app in Hrun. apply bind_Ok in Hrun as (st3 & Hmid & Hrun).
  rewrite foldlM_app in Hrun. apply bind_Ok in Hrun as (st4 & Hrow & Hrest).
  simpl in Hh. apply bind_Ok in Hh as (st2' & Hh & [= <-]).
  rewrite process_row_header in Hh by congruence. injection Hh as <-.
  rewrite Hs in Hmid.
  apply section_rows_keep in Hmid as [Hmode3 Hidx3]; [| |done].
  2:{ apply Forall_forall. intros r Hr.
      apply list_elem_of_lookup in Hr as [j Hj].
      apply lookup_take_Some in Hj as [Hj Hlt].
      rewrite lookup_drop in Hj. apply (Hbetween (S a + j)%nat r); [lia|done]. }
  simpl in Hidx3.
  simpl in Hrow. apply bind_Ok in Hrow as (st4' & Hrow & [= <-]).
  rewrite (process_row_data _ _ Hdata) in Hrow by congruence.
  unfold data_row in Hrow. rewrite Hmode3 in Hrow.
  apply fmap_Ok in Hrow as (d & Hd & ->).
  rewrite <- Hidx3 in Hid.
  destruct (primary_row_spec _ _ _ _ _ Hid Hd) as (t' & _ & ->).
  apply (process_rows_keys _ _ _ Hrest). simpl.
  apply keys_primary_row. by left.
Qed.

Lemma read_file_id_cell totes0 path totes' rows k :
  read_file totes0 path = Ok totes' → open_csv path = Ok rows →
  id_cell rows k → k ∈ Dict.keys totes'.
Proof.
  unfold read_file. intros Hrun Hopen Hcell. rewrite Hopen in Hrun.
  simpl in Hrun. apply bind_Ok in Hrun as (st & Hst & [= <-]).
  pose proof (process_rows_id_cell _ _ _ _ Hcell Hst). by destruct st.
Qed.

Lemma ingest_id_cell paths : ∀ totes0 totes' path rows k,
  foldlM read_file totes0 paths = Ok totes' →
  path ∈ paths → open_csv path = Ok rows → id_cell rows k →
  k ∈ Dict.keys totes'.
Proof.
  induction paths as [|p paths IH]; intros totes0 totes' path rows k; simpl.
  - intros _ Hin. by apply elem_of_nil in Hin.
  - intros (totes1 & Hfile & Hrest)%bind_Ok Hin Hopen Hcell.
    apply elem_of_cons in Hin as [->|Hin].
    + apply (ingest_keys _ _ _ Hrest).
      by eapply read_file_id_cell.
    + by eapply IH.
Qed.

(** C1, corrected. Every container of the model returned by [read_csvs]
    is stored under its own id, and the keys are unique. The ids are
    exactly the id cells of the files read: the TOTE ID cells, taken as
    they are, of the data rows read in the PRIMARY state. So the ids are
    all non-empty if and only if no such cell is empty. A row handled in
    the EMPTY state adds no key, and when the id it names is not yet a
    key the table is left as it was. *)
Theorem read_csvs_keys_and_empty_rows paths model :
  read_csvs paths = Ok model →
  NoDup (Dict.keys model)
  ∧ (∀ k t, Dict.get k model = Some t → Tote.tote_id t = k)
  ∧ (∀ k, k ∈ Dict.keys model ↔
          ∃ path rows, path ∈ paths ∧ open_csv path = Ok rows
                       ∧ id_cell rows k)
  ∧ ((∀ path rows, path ∈ paths → open_csv path = Ok rows →
                   ¬ id_cell rows []) ↔
     (∀ k t, Dict.get k model = Some t → Tote.tote_id t ≠ []))
  ∧ ∀ st row st',
      current_mode st = EMPTY → process_row st row = Ok st' →
      Dict.keys (totes st') = Dict.keys (totes st)
      ∧ ∀ tid, tote_id_of (header_index st) row = Some tid →
               Dict.get tid (totes st) = None → totes st' = totes st.
Proof.
  unfold read_csvs. intros (pre & Hpre & ->)%fmap_Ok.
  pose proof (ingest_ingested _ _ Hpre) as Hin.
  destruct (build_links_linking pre Hin) as [Hkeys Hall].
  assert (Hown : ∀ k t, Dict.get k (build_links pre) = Some t
                        → Tote.tote_id t = k).
  { intros k t Hg. destruct (Hall _ _ Hg) as (t0 & Hg0 & -> & _).
    destruct Hin as [_ Hin]. by destruct (Hin _ _ Hg0) as [<- _]. }
  assert (Hids : ∀ k, k ∈ Dict.keys (build_links pre) ↔
            ∃ path rows, path ∈ paths ∧ open_csv path = Ok rows
                         ∧ id_cell rows k).
  { intros k. rewrite Hkeys. split.
    - intros Hk. destruct (proj1 (ingest_from _ _ _ Hpre) k Hk) as [Hnil|Hcell];
        [by apply elem_of_nil in Hnil | done].
    - intros (path & rows & Hp & Hopen & Hcell).
      by eapply (ingest_id_cell paths []). }
  split_and!.
  - rewrite Hkeys. apply Hin.
  - exact Hown.
  - exact Hids.
  - split.
    + intros Hcells k t Hg Hempty. rewrite (Hown _ _ Hg) in Hempty. subst k.
      assert (Hk : [] ∈ Dict.keys (build_links pre)).
      { apply dec_stable. intros Hno. apply get_None_keys in Hno. congruence. }
      apply Hids in Hk as (path & rows & Hp & Hopen & Hcell).
      by eapply Hcells.
    + intros Hne path rows Hp Hopen Hcell.
      assert (Hk : [] ∈ Dict.keys (build_links pre)).
      { apply Hids. by exists path, rows. }
      destruct (Dict.get [] (build_links pre)) as [t|] eqn:Hg.
      * apply (Hne _ _ Hg). by apply Hown.
      * by apply get_None_keys in Hg.
  - intros st row st' Hmode [Heq|Hd]%process_row_cases.
    + by rewrite Heq.
    + unfold data_row in Hd. rewrite Hmode in Hd.
      apply fmap_Ok in Hd as (d & Hd & ->). simpl. split.
      * by eapply empty_row_keys.
      * intros tid Htid Hnone. unfold empty_row in Hd.
        rewrite Htid, Hnone in Hd. by injection Hd as <-.
Qed.

(** X9. Every item of the model carries a title or a description, both
    stored without white space around them, and comes from a data row,
    read in the PRIMARY state of one of the files, that names the
    container of the item: its title, description and quantity are those
    of the row, and its image address is the first part of the IMAGES
    field of the row, split at white space, that begins with http, or is
    absent when that field has no such part. So rows without title and
    description add no item, and the other parts of the IMAGES field
    are dropped. *)
Theorem read_csvs_items paths model k t :
  read_csvs paths = Ok model → Dict.get k model = Some t →
  Forall (λ it,
    item_ok it
    ∧ ∃ path rows h row,
        path ∈ paths ∧ open_csv path = Ok rows
        ∧ read_in_primary rows h row
        ∧ tote_id_of (make_header_index h) row = Some k
        ∧ item_from_row it (make_header_index h) row)
    (Tote.items t).
Proof.
  unfold read_csvs. intros (pre & Hpre & ->)%fmap_Ok Hg.
  pose proof (ingest_ingested _ _ Hpre) as Hin.
  destruct (build_links_linking pre Hin) as [_ Hall].
  destruct (Hall _ _ Hg) as (t0 & Hg0 & -> & _). simpl.
  pose proof (ingest_items _ _ Hpre _ _ Hg0) as Hok.
  rewrite Forall_forall in Hok. apply Forall_forall. intros it Hit.
  split; [by apply Hok|].
  destruct (proj2 (ingest_from _ _ _ Hpre) k t0 it Hg0 Hit)
    as [(t1 & Hnil & _)|(path & rows & Hp & Hopen & h & row & Hread & Hid
                         & Hfrom)]; [done|].
  by exists path, rows, h, row.
Qed.
End IdFacts.

(** C1 does not hold as worded: a PRIMARY data row whose TOTE ID cell
    is empty creates a container whose id is the empty string. *)
Lemma read_csvs_empty_id :
  ∃ model t,
    @read_csvs Demo.demo_int Examples.unnamed_tote_csv [lit "a.csv"] = Ok model
    ∧ Dict.get [] model = Some t ∧ Tote.tote_id t = [].
Proof. eexists _, _. split_and!; [vm_compute; reflexivity | reflexivity..]. Qed.

(** C1 on a file with a parent, a child and a reduced section. *)
Lemma read_csvs_keys_and_empty_rows_witness :
  ∃ model,
    @read_csvs Demo.demo_int Examples.nested_csv [lit "a.csv"] = Ok model
    ∧ Dict.keys model = [lit "T1"; lit "T2"; lit "T4"]
    ∧ (∀ k t, Dict.get k model = Some t → Tote.tote_id t = k)
    ∧ ∀ k, k ∈ Dict.keys model ↔
           ∃ path rows, path ∈ [lit "a.csv"]
                        ∧ @open_csv Examples.nested_csv path = Ok rows
                        ∧ id_cell rows k.
Proof.
  eexists. split; [vm_compute; reflexivity|]. split; [reflexivity|].
  refine (let Hall := @read_csvs_keys_and_empty_rows
            Demo.demo_int Examples.nested_csv [lit "a.csv"] _ _ in
          conj (proj1 (proj2 Hall)) (proj1 (proj2 (proj2 Hall)))).
  vm_compute; reflexivity.
Defined.

(** ** Items added directly *)

Section AddItemFacts.
Context `{PyInt}.

Lemma drop_while_all p s : Forall (λ c, p c = true) s → drop_while p s = [].
Proof. induction 1 as [|c s Hc Hs IH]; simpl; [done|]. by rewrite Hc. Qed.

Lemma strip_blank s : Forall (λ c, isspace c = true) s → strip s = [].
Proof.
  intros Hs. unfold strip, strip_by. by rewrite (drop_while_all _ s).
Qed.

(** X19. [add_item] tests the title and the description before it
    strips them: only a call with both strings empty is discarded, and a
    title of white space alone (with no description) adds an item whose
    title and description are both empty. *)
Theorem add_item_keeps_blank_title self ws quantity image_url :
  ws ≠ [] → Forall (λ c, isspace c = true) ws →
  ∃ it, Tote.items (Tote.add_item self ws [] quantity image_url)
        = Tote.items self ++ [it]
    ∧ ToteItem.title it = [] ∧ ToteItem.description it = [].
Proof.
  intros Hne Hws.
  assert (truthy ws = true) as Ht by (by destruct ws).
  unfold Tote.add_item. rewrite Ht. cbn [negb andb Tote.items Tote.set_items].
  eexists. split; [reflexivity|].
  cbn [ToteItem.title ToteItem.description]. split; [|done].
  by apply strip_blank.
Qed.
End AddItemFacts.

(** ** Rows of a label without QR code *)

Section WidthFacts.
Context `{FontMetrics} `{Surface}.

Lemma foldl_grid_rows {B} (f : pen → B → pen) (l : list B) : ∀ p,
  (∀ p x, grid_rows (f p x) = grid_rows p) →
  grid_rows (foldl f p l) = grid_rows p.
Proof.
  induction l as [|x l IH]; intros p Hf; simpl; [done|].
  by rewrite IH, Hf.
Qed.

(** The head of a label lays out no row, and the flag it returns is the
    outcome of the QR code. *)
Lemma draw_head_outcome tote page_size margin m :
  match draw_head tote page_size margin m with
  | Ok (p, flag) => qr_drawn tote = Ok flag ∧ grid_rows p = []
  | Raise e => qr_drawn tote = Raise e
  end.
Proof.
  unfold draw_head, qr_drawn. destruct page_size as [w h]. cbv zeta.
  match goal with
  | |- context [mbind _ ?X] => destruct X as [qr|e]; [|done]
  end.
  cbn [mbind result_bind]. split; [done|]. simpl.
  rewrite foldl_grid_rows.
  2:{ intros p x. by rewrite foldl_grid_rows. }
  destruct (Tote.children tote); simpl;
    destruct (truthy (Tote.location tote)); simpl;
    rewrite ?foldl_grid_rows by done; simpl;
    rewrite ?foldl_grid_rows by done; simpl;
    rewrite ?foldl_grid_rows by done; simpl;
    by destruct qr.
Qed.

Lemma render_items_widths (P : grid_row → Prop) fr render_mode items p p' :
  (∀ y0 r, row_available_width r = available_width fr y0 → P r) →
  Forall P (grid_rows p) →
  render_items fr render_mode items p = Ok p' →
  Forall P (grid_rows p').
Proof.
  intros HP Hall. rewrite render_items_slices.
  destruct items as [|it items]; [by intros [= <-]|].
  apply (foldlM_inv (λ q, Forall P (grid_rows q))); [|done].
  intros q row q' Hq (r & -> & Hr)%grid_row_step_rows.
  apply Forall_app. split; [done|]. apply Forall_singleton. eauto.
Qed.

Lemma draw_child_widths (P : grid_row → Prop) fr render_mode m p c p' :
  (∀ y0 r, row_available_width r = available_width fr y0 → P r) →
  Forall P (grid_rows p) →
  draw_child fr render_mode m p c = Ok p' →
  Forall P (grid_rows p').
Proof.
  intros HP Hall. unfold draw_child. cbv zeta.
  apply render_items_widths; [done|]. simpl.
  by destruct (Qlt_le_dec _ _).
Qed.

(** X20. When no QR code is drawn on a label (the container has no QR
    payload, or no image can be made of it), every row of every grid of
    the label, the container's own and those of its children, on every
    page, is given the full content width. *)
Theorem draw_label_full_width tote page_size margin m render_mode p :
  qr_drawn tote = Ok false →
  draw_label tote page_size margin m render_mode = Ok p →
  Forall (λ r, row_available_width r = (page_size.1 - 2 * margin)%Q)
    (grid_rows p).
Proof.
  intros Hqr. unfold draw_label. intros (hd & Hhead & Hrun)%bind_Ok.
  pose proof (draw_head_outcome tote page_size margin m) as Hout.
  rewrite Hhead in Hout. destruct hd as [p0 flag].
  destruct Hout as [Hflag Hrows].
  assert (flag = false) as -> by congruence.
  apply bind_Ok in Hrun as (p1 & Hitems & Hrun).
  apply bind_Ok in Hrun as (p2 & Hchildren & [= <-]).
  cbn [showPage grid_rows].
  match type of Hitems with
  | render_items ?fr0 _ _ _ = _ => set (fr := fr0) in *
  end.
  assert (HP : ∀ y0 r, row_available_width r = available_width fr y0 →
                 row_available_width r = (page_size.1 - 2 * margin)%Q).
  { intros y0 r ->. done. }
  revert Hchildren.
  apply (foldlM_inv
           (λ q, Forall (λ r, row_available_width r
                              = (page_size.1 - 2 * margin)%Q) (grid_rows q))).
  - intros q c q' Hq Hc. by eapply draw_child_widths.
  - eapply render_items_widths; [exact HP| |exact Hitems].
    rewrite Hrows. apply Forall_nil_2.
Qed.
End WidthFacts.

(** ** The properties on concrete inputs *)

(** X2 on the canonical header read backwards. *)
Lemma sniff_headers_Permutation_witness :
  sniff_headers (rev Demo.header) = sniff_headers Demo.header
  ∧ sniff_headers Demo.header = PRIMARY.
Proof.
  split; [|vm_compute; reflexivity].
  apply (sniff_headers_Permutation (rev Demo.header) Demo.header).
  symmetry. apply Permutation_rev.
Defined.

(** X3 on a header whose id cell has a leading space: the three rows
    for T1 and T2 under it leave the table empty. *)
Lemma header_without_id_cell_witness :
  @foldlM _ _ (@process_row Demo.demo_int) (Reader UNKNOWN ∅ [])
    (Examples.padded_header :: Examples.rows_for_T1)
  = Ok (Reader PRIMARY (make_header_index Examples.padded_header) []).
Proof.
  apply (@header_without_id_cell Demo.demo_int (Reader UNKNOWN ∅ [])
           Examples.padded_header Examples.rows_for_T1).
  - vm_compute. discriminate.
  - apply (bool_decide_unpack (lit "TOTE ID" ∉ Examples.padded_header)).
    vm_compute. exact I.
  - unfold Examples.rows_for_T1.
    repeat (constructor; [vm_compute; reflexivity|]). constructor.
Defined.

(** X4 on a file of three rows, the marker among them, and no header. *)
Lemma read_file_without_header_witness :
  @read_file Demo.demo_int Examples.headless_csv Examples.old_table
    (lit "a.csv")
  = Ok Examples.old_table.
Proof.
  apply (@read_file_without_header Demo.demo_int Examples.headless_csv
           Examples.old_table (lit "a.csv") Examples.headless_rows).
  - vm_compute. reflexivity.
  - unfold Examples.headless_rows.
    repeat (constructor; [split; vm_compute; reflexivity|]). constructor.
Defined.

(** X5 on a row of a reduced section for a container that has a title
    and no location: the location is filled, the title and the item stay. *)
Lemma empty_state_only_fills_witness :
  ∃ st' t',
    @process_row Demo.demo_int Examples.reduced_state Examples.reduced_row
    = Ok st'
    ∧ Dict.get (lit "T2") (totes st') = Some t'
    ∧ Tote.title t' = lit "Nuts" ∧ Tote.location t' = lit "cellar"
    ∧ Tote.items t' = Tote.items Examples.named_tote.
Proof.
  pose (st' := match @process_row Demo.demo_int Examples.reduced_state
                       Examples.reduced_row with
               | Ok s => s
               | Raise _ => Examples.reduced_state
               end).
  pose (t' := default Examples.named_tote (Dict.get (lit "T2") (totes st'))).
  assert (Hrun : @process_row Demo.demo_int Examples.reduced_state
                   Examples.reduced_row = Ok st')
    by (vm_compute; reflexivity).
  assert (Hg : Dict.get (lit "T2") (totes st') = Some t')
    by (vm_compute; reflexivity).
  destruct (@empty_state_only_fills Demo.demo_int Examples.reduced_state
              Examples.reduced_row st' eq_refl Hrun (lit "T2") t' Hg)
    as (t & Hgt & _ & Hitems & _ & _ & _ & Htitle & _).
  assert (t = Examples.named_tote) as ->.
  { vm_compute in Hgt. injection Hgt as <-. reflexivity. }
  exists st', t'. split; [exact Hrun|]. split; [exact Hg|].
  split; [apply Htitle; reflexivity|].
  split; [vm_compute; reflexivity | exact Hitems].
Defined.

(** X6 on the canonical header followed by four rows of fourteen
    cells. *)
Lemma rectangular_section_is_read_witness :
  ∃ st',
    @foldlM _ _ (@process_row Demo.demo_int) (Reader UNKNOWN ∅ [])
      (Demo.header :: Examples.rows_for_T1) = Ok st'
    ∧ current_mode st' = PRIMARY.
Proof.
  destruct (@rectangular_section_is_read Demo.demo_int (Reader UNKNOWN ∅ [])
              Demo.header Examples.rows_for_T1) as (st' & Hrun & Hmode & _).
  - vm_compute. discriminate.
  - unfold Examples.rows_for_T1.
    repeat (constructor; [split; [vm_compute; reflexivity | simpl; lia]|]).
    constructor.
  - exists st'. split; [exact Hrun|]. rewrite Hmode. vm_compute. reflexivity.
Defined.

(** X7 on a row of three cells under the canonical header. *)
Lemma short_primary_row_raises_witness :
  let st := Reader PRIMARY (make_header_index Demo.header) [] in
  @process_row Demo.demo_int st Examples.short_row = Raise IndexError
  ∧ @foldlM _ _ (@process_row Demo.demo_int) st
      (Examples.short_row :: Examples.rows_for_T1) = Raise IndexError.
Proof.
  intros st.
  apply (@short_primary_row_raises Demo.demo_int st Examples.short_row
           Examples.rows_for_T1 (lit "T1") 6%nat).
  - reflexivity.
  - vm_compute. reflexivity.
  - vm_compute. reflexivity.
  - vm_compute. reflexivity.
  - simpl. lia.
Defined.

(** X8 on the file in which T2 names T1 as its parent. *)
Lemma read_csvs_children_complete_witness :
  ∃ model C,
    @read_csvs Demo.demo_int Examples.nested_csv [lit "a.csv"] = Ok model
    ∧ Dict.get (lit "T1") model = Some C
    ∧ lit "T2" ∈ Tote.children C.
Proof.
  pose (model := match @read_csvs Demo.demo_int Examples.nested_csv
                         [lit "a.csv"] with Ok d => d | Raise _ => [] end).
  pose (T := default (Tote.new []) (Dict.get (lit "T2") model)).
  pose (C := default (Tote.new []) (Dict.get (lit "T1") model)).
  assert (Hread : @read_csvs Demo.demo_int Examples.nested_csv [lit "a.csv"]
                  = Ok model) by (vm_compute; reflexivity).
  assert (HC : Dict.get (lit "T1") model = Some C)
    by (vm_compute; reflexivity).
  exists model, C. split; [exact Hread|]. split; [exact HC|].
  apply (@read_csvs_children_complete Demo.demo_int Examples.nested_csv
           [lit "a.csv"] model (lit "T2") T (lit "T1") C Hread).
  - vm_compute. reflexivity.
  - vm_compute. reflexivity.
  - vm_compute. discriminate.
  - exact HC.
Defined.

(** X9 on a file whose IMAGES cell holds a word before the address. *)
Lemma read_csvs_items_witness :
  ∃ model t it,
    @read_csvs Demo.demo_int Examples.unnamed_tote_csv [lit "a.csv"] = Ok model
    ∧ Dict.get (lit "T1") model = Some t
    ∧ Tote.items t = [it]
    ∧ ToteItem.image_url it = Some (lit "http://a/b.png")
    ∧ Forall (λ it,
        item_ok it
        ∧ ∃ path rows h row,
            path ∈ [lit "a.csv"]
            ∧ @open_csv Examples.unnamed_tote_csv path = Ok rows
            ∧ read_in_primary rows h row
            ∧ tote_id_of (make_header_index h) row = Some (lit "T1")
            ∧ @item_from_row Demo.demo_int it (make_header_index h) row)
        (Tote.items t).
Proof.
  pose (model := match @read_csvs Demo.demo_int Examples.unnamed_tote_csv
                         [lit "a.csv"] with Ok d => d | Raise _ => [] end).
  pose (t := default (Tote.new []) (Dict.get (lit "T1") model)).
  assert (Hread : @read_csvs Demo.demo_int Examples.unnamed_tote_csv
                    [lit "a.csv"] = Ok model) by (vm_compute; reflexivity).
  assert (Hg : Dict.get (lit "T1") model = Some t)
    by (vm_compute; reflexivity).
  exists model, t. eexists. split; [exact Hread|]. split; [exact Hg|].
  split; [vm_compute; reflexivity|]. split; [reflexivity|].
  exact (@read_csvs_items Demo.demo_int Examples.unnamed_tote_csv
           [lit "a.csv"] model (lit "T1") t Hread Hg).
Defined.

(** X10 on a text of four words wrapped at six characters. *)
Lemma wrap_text_line_fits_witness :
  let lines :=
    @wrap_text Demo.fixed_pitch (lit "aa  bbbbbbbbbbbb cc d ") 30 (lit "F") 10
  in
  lit "cc d" ∈ lines
  ∧ (@stringWidth Demo.fixed_pitch (lit "cc d") (lit "F") 10 <= 30)%Q
  ∧ (length lines ≤ 4)%nat.
Proof.
  intros lines.
  assert (Hl : lines = [lit "aa"; lit "bbbbbbbbbbbb"; lit "cc d"])
    by (vm_compute; reflexivity).
  assert (Hin : lit "cc d" ∈ lines).
  { rewrite Hl. do 2 apply list_elem_of_further. apply list_elem_of_here. }
  destruct (@wrap_text_line_fits Demo.fixed_pitch 30 (lit "F") 10
              (lit "aa  bbbbbbbbbbbb cc d ") (lit "cc d"))
    as (_ & _ & _ & Hlen).
  - vm_compute. discriminate.
  - exact Hin.
  - split; [exact Hin|]. split; [|exact Hlen].
    vm_compute. discriminate.
Defined.

(** X12 on a cached thumbnail of an address that no longer answers. *)
Lemma fetch_thumbnail_cache_hit_witness :
  let url := lit "http://x/lost.png" in
  let path := @thumb_path_of _ _ Demo.small_world url 128 in
  let fs : gmap pystr (option nat) := {[ path := Some 64%nat ]} in
  @requests_get _ _ Demo.small_world url = None
  ∧ @fetch_thumbnail _ _ Demo.small_world url 128 fs = (Ok (Some 64%nat), fs).
Proof.
  intros url path fs. split; [reflexivity|].
  apply (@fetch_thumbnail_cache_hit _ _ Demo.small_world url 128 fs url
           (Some 64%nat) 64%nat); reflexivity.
Defined.

(** X13 on an address that serves a picture of 300 pixels, with an
    empty cache. *)
Lemma fetch_thumbnail_stores_witness :
  let url := lit "http://x/ok.png" in
  let path := @thumb_path_of _ _ Demo.small_world url 128 in
  @fetch_thumbnail _ _ Demo.small_world url 128 ∅
  = (Ok (Some 128%nat), {[ path := Some 128%nat ]})
  ∧ @fetch_thumbnail _ _ Demo.small_world url 128 {[ path := Some 128%nat ]}
    = (Ok (Some 128%nat), {[ path := Some 128%nat ]}).
Proof.
  intros url path.
  destruct (@fetch_thumbnail_stores _ _ Demo.small_world url 128 ∅ url
              (mkResponse 200 (Some 300%nat)) 300%nat 300%nat 300%nat
              128%nat) as [Hfirst Hnext]; try reflexivity; [simpl; lia|].
  split.
  - rewrite Hfirst. simpl. fold path. by rewrite insert_empty.
  - specialize (Hnext (Some 128%nat) 128%nat eq_refl eq_refl).
    fold path in Hnext. rewrite insert_empty in Hnext. exact Hnext.
Defined.

(** X14 on a container whose child has a child of its own: the label is
    the one drawn from a table that holds the child alone. *)
Lemma draw_label_children_only_witness :
  @draw_label Demo.fixed_pitch Demo.offline_surface Examples.parent_tote
    letter 36 Examples.family (lit "text")
  = @draw_label Demo.fixed_pitch Demo.offline_surface Examples.parent_tote
      letter 36 Examples.family_flat (lit "text").
Proof.
  apply (@draw_label_children_only Demo.fixed_pitch Demo.offline_surface).
  intros c Hc. apply list_elem_of_singleton in Hc as ->.
  split; vm_compute; reflexivity.
Defined.

(** X18 on a table that holds T1, titled, before a file that names T1
    with another title is read. *)
Lemma read_file_grows_witness :
  ∃ totes' t,
    @read_file Demo.demo_int Examples.nested_csv Examples.old_table
      (lit "a.csv") = Ok totes'
    ∧ Dict.get (lit "T1") totes' = Some t
    ∧ Tote.title t = lit "Old"
    ∧ (length (Tote.items t) = 3)%nat
    ∧ grows Examples.old_table totes'.
Proof.
  pose (totes' := match @read_file Demo.demo_int Examples.nested_csv
                          Examples.old_table (lit "a.csv") with
                  | Ok d => d
                  | Raise _ => []
                  end).
  assert (Hread : @read_file Demo.demo_int Examples.nested_csv
                    Examples.old_table (lit "a.csv") = Ok totes')
    by (vm_compute; reflexivity).
  exists totes'. eexists. split; [exact Hread|].
  split; [vm_compute; reflexivity|]. split; [reflexivity|].
  split; [reflexivity|].
  exact (@read_file_grows Demo.demo_int Examples.nested_csv Examples.old_table
           (lit "a.csv") totes' Hread).
Defined.

(** X19 on a title of two spaces. *)
Lemma add_item_keeps_blank_title_witness :
  ∃ it,
    Tote.items (@Tote.add_item Demo.demo_int (Tote.new (lit "T1"))
                  (lit "  ") [] None None) = [it]
    ∧ ToteItem.title it = [] ∧ ToteItem.description it = [].
Proof.
  destruct (@add_item_keeps_blank_title Demo.demo_int (Tote.new (lit "T1"))
              (lit "  ") None None) as (it & Hit & Ht & Hd).
  - vm_compute. discriminate.
  - repeat (constructor; [reflexivity|]). constructor.
  - exists it. split; [exact Hit|]. split; [exact Ht | exact Hd].
Defined.

(** X20 on a container without QR payload and with nine items. *)
Lemma draw_label_full_width_witness :
  ∃ p,
    @draw_label Demo.fixed_pitch Demo.offline_surface Examples.plain_tote
      letter 36 [] (lit "text") = Ok p
    ∧ length (grid_rows p) = 3%nat
    ∧ Forall (λ r, row_available_width r = (letter.1 - 2 * 36)%Q)
        (grid_rows p).
Proof.
  eexists. split; [vm_compute; reflexivity|].
  split; [vm_compute; reflexivity|].
  apply (@draw_label_full_width Demo.fixed_pitch Demo.offline_surface
           Examples.plain_tote letter 36 [] (lit "text"));
    [reflexivity | vm_compute; reflexivity].
Defined.

(** X21 on the text of four words: the second line begins with the word
    that did not fit after the first. *)
Lemma wrap_text_greedy_witness :
  ¬ (@stringWidth Demo.fixed_pitch (lit "aa" ++ space ++ lit "bbbbbbbbbbbb")
       (lit "F") 10 <= 30)%Q.
Proof.
  apply (@wrap_text_greedy Demo.fixed_pitch 30 (lit "F") 10
           (lit "aa  bbbbbbbbbbbb cc d ") 0%nat (lit "aa")
           (lit "bbbbbbbbbbbb") (lit "bbbbbbbbbbbb"));
    vm_compute; reflexivity.
Defined.

(** X22 on the file in which T1 gets the child T2. *)
Lemma read_csvs_links_only_children_witness :
  ∃ model t,
    @read_csvs Demo.demo_int Examples.nested_csv [lit "a.csv"] = Ok model
    ∧ Dict.get (lit "T1") model = Some t
    ∧ Tote.children t = [lit "T2"]
    ∧ ∃ pre t0,
        @ingest Demo.demo_int Examples.nested_csv [lit "a.csv"] = Ok pre
        ∧ Dict.get (lit "T1") pre = Some t0
        ∧ Tote.items t = Tote.items t0
        ∧ Tote.title t = Tote.title t0.
Proof.
  pose (model := match @read_csvs Demo.demo_int Examples.nested_csv
                         [lit "a.csv"] with Ok d => d | Raise _ => [] end).
  pose (t := default (Tote.new []) (Dict.get (lit "T1") model)).
  assert (Hread : @read_csvs Demo.demo_int Examples.nested_csv [lit "a.csv"]
                  = Ok model) by (vm_compute; reflexivity).
  assert (Hg : Dict.get (lit "T1") model = Some t)
    by (vm_compute; reflexivity).
  destruct (@read_csvs_links_only_children Demo.demo_int Examples.nested_csv
              [lit "a.csv"] model Hread) as (pre & Hpre & Hall).
  destruct (Hall (lit "T1") t Hg)
    as (t0 & Hg0 & _ & Htitle & _ & _ & Hitems & _).
  exists model, t. split; [exact Hread|]. split; [exact Hg|].
  split; [vm_compute; reflexivity|].
  exists pre, t0. split; [exact Hpre|]. split; [exact Hg0|].
  split; [exact Hitems | exact Htitle].
Defined.
